(** * beam: wallet transaction negotiation and the stratum server

    A shallow embedding of [wallet/wallet_transaction.cpp] (the transaction
    state machine [BaseTransaction] / [SimpleTransaction] and its
    [TxBuilder]), of [pow/stratum_server.cpp] (the stratum [Server], its
    [Connection]s and its [AccessControl]) and of the slots of
    [ui/model/wallet_model.cpp] with the [WalletAddress] of
    [wallet/wallet_db.h], with the properties the specification states
    about them and further properties the code shows.

    Conventions.
    - 64-bit unsigned quantities ([Amount], [Height]) are [Z] with the
      wrap-around written out ([add64], [sub64]).
    - Stateful code is written in a state-and-exception monad over the
      state it touches; a C++ exception keeps the side effects made before
      the throw.
    - Code the sources use but do not contain (the sqlite wallet store, the
      elliptic-curve library, the JSON parser) is either a parameter or a
      definition marked [Modelled from the spec]. *)

From Stdlib Require Import ZArith Ascii String List Lia.
From stdpp Require Import base decidable option list gmap sets strings.

Local Open Scope Z_scope.

(** ** 64-bit unsigned arithmetic *)

Definition two64 : Z := 2 ^ 64.
Definition wrap64 (x : Z) : Z := x mod two64.
Definition add64 (x y : Z) : Z := wrap64 (x + y).
Definition sub64 (x y : Z) : Z := wrap64 (x - y).
(** [MaxHeight], the largest [Height] (core/block_crypt.h). *)
Definition MaxHeight : Z := two64 - 1.

(* ===================================================================== *)
(** * The stratum server (pow/stratum_server.cpp) *)
(* ===================================================================== *)

Module Stratum.

(** ** Messages *)

Record Login := mkLogin { login_id : string; api_key : string }.
Record Solution := mkSolution { sol_id : string; sol_nonce : string; sol_output : string }.

Inductive ResultCode := login_failed | solution_rejected | solution_accepted.

(** Proof-of-work header carried by a job and filled in by a solution. *)
Record PoW := mkPoW { m_Indices : string; m_Nonce : string; m_Difficulty : Z }.

Record BlockId := mkBlockId { m_Height : Z; m_Hash : string }.

(** One JSON line written by [append_json_msg]. *)
Inductive Frame :=
| JobFrame (id : string) (input : string) (pow : PoW) (height : Z)
| ResultFrame (id : string) (code : ResultCode)
| SolutionResultFrame (id : string) (code : ResultCode) (blockhash : string) (height : Z).

(** [io::SerializedMsg]: the buffers of the frames appended so far. *)
Definition SerializedMsg := list Frame.

(** A [BlockFound] / [onFound] callback handed over by the node.  Calling it
    is an effect on the node; the model names each callback by a token and
    records the calls in [found_calls]. *)
Definition BlockFound := nat.

(** ** Access control (Server::AccessControl) *)

Definition is_space (c : ascii) : bool :=
  let n := nat_of_ascii c in
  (n =? 32)%nat || ((9 <=? n)%nat && (n <=? 13)%nat).

Fixpoint trim_left (l : list ascii) : list ascii :=
  match l with
  | [] => []
  | c :: l' => if is_space c then trim_left l' else l
  end.

(** [boost::algorithm::trim]: white space removed at both ends. *)
Definition trim (s : string) : string :=
  string_of_list_ascii
    (rev (trim_left (rev (trim_left (list_ascii_of_string s))))).

(** The lines [std::getline] yields, one per loop round: the text up to each
    newline, and the rest after the last newline when it is not empty. *)
Fixpoint getlines_from (cur : list ascii) (s : list ascii) : list string :=
  match s with
  | [] => match cur with [] => [] | _ => [string_of_list_ascii (rev cur)] end
  | c :: s' =>
      if (nat_of_ascii c =? 10)%nat
      then string_of_list_ascii (rev cur) :: getlines_from [] s'
      else getlines_from (c :: cur) s'
  end.

Definition getlines (content : string) : list string :=
  getlines_from [] (list_ascii_of_string content).

(** A file as [boost::filesystem] and [std::ifstream] see it: its
    modification time, and its text when it can be opened for reading. *)
Record File := mkFile { mtime : Z; content : option string }.

(** The file system at one instant: [None] where [last_write_time] throws. *)
Definition FS := string -> option File.

Record AccessControl := mkACL {
  _enabled : bool;
  _keysFileName : string;
  _lastModified : Z;
  _keys : gset string
}.

(** The loop of [refresh]: trim each line, skip the short ones, insert. *)
Definition read_keys (content : option string) : gset string :=
  match content with
  | None => ∅
  | Some text =>
      foldl (fun keys line =>
               let line := trim line in
               if (String.length line <? 8)%nat then keys else {[ line ]} ∪ keys)
            ∅ (getlines text)
  end.

Definition refresh (fs : FS) (acl : AccessControl) : AccessControl :=
  if negb (_enabled acl) then acl
  else match fs (_keysFileName acl) with
       | None => acl                      (* caught: logged, nothing changes *)
       | Some f =>
           if mtime f <=? _lastModified acl then acl
           else mkACL (_enabled acl) (_keysFileName acl) (mtime f)
                      (read_keys (content f))
       end.

(** The constructor: [_enabled(!keysFileName.empty())], [_lastModified(0)],
    then one [refresh()]. *)
Definition AccessControl_new (keysFileName : string) (fs : FS) : AccessControl :=
  refresh fs (mkACL (negb (String.eqb keysFileName "")) keysFileName 0 ∅).

Definition check (key : string) (acl : AccessControl) : bool :=
  if negb (_enabled acl) then true
  else bool_decide (key ∈ _keys acl).

(** The ACL after its construction and the timer-driven refreshes that
    followed, each seeing the file system of its instant. *)
Definition acl_run (keysFileName : string) (fs0 : FS) (later : list FS) : AccessControl :=
  foldl (fun acl fs => refresh fs acl) (AccessControl_new keysFileName fs0) later.

(** Whether [refresh] gets past the [mtime] test, and the file it then reads. *)
Definition reloads (fs : FS) (acl : AccessControl) : option File :=
  if negb (_enabled acl) then None
  else match fs (_keysFileName acl) with
       | None => None
       | Some f => if mtime f <=? _lastModified acl then None else Some f
       end.

(** The file read by the last refresh that got past the [mtime] test. *)
Fixpoint last_reload (acl : AccessControl) (last : option File) (fss : list FS) : option File :=
  match fss with
  | [] => last
  | fs :: fss' =>
      last_reload (refresh fs acl)
                  (match reloads fs acl with Some f => Some f | None => last end)
                  fss'
  end.

Definition acl_last_reload (keysFileName : string) (fs0 : FS) (later : list FS) : option File :=
  last_reload (mkACL (negb (String.eqb keysFileName "")) keysFileName 0 ∅) None (fs0 :: later).

(** [key] is the trimmed text of a line of [f], and has 8 characters at least. *)
Definition key_line_of (key : string) (f : File) : Prop :=
  exists text line,
    content f = Some text /\ In line (getlines text) /\ key = trim line /\
    (8 <= String.length key)%nat.

(** ** Connections (Server::Connection) *)

(** The TCP stream of a peer: whether a write still goes through, what was
    written, and whether [shutdown] was called. *)
Record Stream := mkStream { writable : bool; written : list SerializedMsg; is_shut : bool }.

Record Connection := mkConnection {
  _id : Z;                       (* the peer's address as a 64-bit number *)
  _stream : option Stream;       (* [None]: a null stream pointer *)
  _loggedIn : bool
}.

(** The constructor leaves the peer [NotLoggedIn]. *)
Definition Connection_new (id : Z) (stream : Stream) : Connection :=
  mkConnection id (Some stream) false.

Definition set_logged_in (c : Connection) : Connection :=
  mkConnection (_id c) (_stream c) true.

(** [Connection::send_msg]: the result, and the connection afterwards. *)
Definition send_msg (msg : SerializedMsg) (onlyIfLoggedIn shutdown : bool)
    (c : Connection) : bool * Connection :=
  if onlyIfLoggedIn && negb (_loggedIn c) then (true, c)
  else match _stream c with
       | None => (false, c)
       | Some st =>
           if writable st
           then (true, mkConnection (_id c)
                         (Some (mkStream true (written st ++ [msg])
                                  (if shutdown then true else is_shut st)))
                         (_loggedIn c))
           else (false, c)
       end.

(** ** The server *)

Record RecentJob := mkRecentJob { job_id : string; job_msg : SerializedMsg }.

Record RecentResult := mkRecentResult {
  res_id : string;
  res_pow : PoW;
  onBlockFound : option BlockFound;   (* [None]: an empty [std::function] *)
  resultFrom : Z
}.

Record Server := mkServer {
  _connections : gmap Z Connection;
  _recentJob : RecentJob;
  _recentResult : RecentResult;
  _acl : AccessControl;
  _currentMsg : SerializedMsg;
  _deadConnections : list Z;
  found_calls : list BlockFound      (* the calls of [onFound] made so far *)
}.

(** How a member function ends: with its value, or by dereferencing the null
    pointer that [_connections[from]] creates for a peer not in the map, or
    by calling an empty [std::function]. *)
Inductive Ended (A : Type) :=
| Returned (a : A) (s : Server)
| NullConnection (s : Server)
| BadFunctionCall (s : Server).
Arguments Returned {A} a s.
Arguments NullConnection {A} s.
Arguments BadFunctionCall {A} s.

Definition with_connections (cs : gmap Z Connection) (s : Server) : Server :=
  mkServer cs (_recentJob s) (_recentResult s) (_acl s) (_currentMsg s)
           (_deadConnections s) (found_calls s).

Definition with_currentMsg (m : SerializedMsg) (s : Server) : Server :=
  mkServer (_connections s) (_recentJob s) (_recentResult s) (_acl s) m
           (_deadConnections s) (found_calls s).

(** [append_json_msg(_fw, msg)]: the frame writer hands the serialized frame
    to its callback, which pushes it onto [_currentMsg]. *)
Definition append_json_msg (f : Frame) (s : Server) : Server :=
  with_currentMsg (_currentMsg s ++ [f]) s.

Section Server.

(** [Solution::fill_pow] (pow/stratum.cpp, not among the sources): decodes
    the solution's nonce and output into the proof-of-work header. *)
Variable fill_pow : Solution -> PoW -> PoW.

Definition on_stream_accepted (peer : Z) (stream : Stream) (s : Server) : Server :=
  with_connections (<[peer := Connection_new peer stream]> (_connections s)) s.

Definition on_login (from : Z) (login : Login) (s : Server) : Ended bool :=
  match _connections s !! from with
  | None => NullConnection s
  | Some conn =>
      if check (api_key login) (_acl s) then
        let conn := set_logged_in conn in
        let '(sent, conn) := send_msg (job_msg (_recentJob s)) true false conn in
        Returned sent (with_connections (<[from := conn]> (_connections s)) s)
      else
        let s := append_json_msg (ResultFrame (login_id login) login_failed) s in
        let '(_, conn) := send_msg (_currentMsg s) false true conn in
        let s := with_connections (<[from := conn]> (_connections s)) s in
        Returned false (with_currentMsg [] s)
  end.

Definition on_solution (from : Z) (sol : Solution) (s : Server) : Ended bool :=
  let r := _recentResult s in
  let r := mkRecentResult (sol_id sol) (fill_pow sol (res_pow r)) (onBlockFound r) from in
  let s := mkServer (_connections s) (_recentJob s) r (_acl s) (_currentMsg s)
                    (_deadConnections s) (found_calls s) in
  match onBlockFound r with
  | None => BadFunctionCall s
  | Some cb =>
      Returned true
        (mkServer (_connections s) (_recentJob s) (_recentResult s) (_acl s)
                  (_currentMsg s) (_deadConnections s) (found_calls s ++ [cb]))
  end.

Definition on_bad_peer (from : Z) (s : Server) : Server :=
  with_connections (delete from (_connections s)) s.

(** The first loop of [new_job]: the job goes to every connection; the ones
    whose write fails are collected. *)
Definition broadcast (msg : SerializedMsg) (cs : gmap Z Connection)
    : gmap Z Connection * list Z :=
  let sent := send_msg msg true false <$> cs in
  (snd <$> sent,
   fst <$> List.filter (fun kv => negb (fst (snd kv))) (map_to_list sent)).

Definition new_job (id : string) (input : string) (pow : PoW) (height : Z)
    (callback : BlockFound) (s : Server) : Server :=
  let r := _recentResult s in
  let s := mkServer (_connections s) (mkRecentJob id (job_msg (_recentJob s)))
                    (mkRecentResult (res_id r) (res_pow r) (Some callback) (resultFrom r))
                    (_acl s) (_currentMsg s) (_deadConnections s) (found_calls s) in
  let s := append_json_msg (JobFrame id input pow height) s in
  (* _recentJob.msg.swap(_currentMsg); _currentMsg.clear(); *)
  let s := mkServer (_connections s) (mkRecentJob id (_currentMsg s)) (_recentResult s)
                    (_acl s) [] (_deadConnections s) (found_calls s) in
  let '(cs, failed) := broadcast (job_msg (_recentJob s)) (_connections s) in
  let dead := _deadConnections s ++ failed in
  let cs := foldl (fun cs c => delete c cs) cs dead in
  mkServer cs (_recentJob s) (_recentResult s) (_acl s) (_currentMsg s) []
           (found_calls s).

Definition solution_result (jobID : string) (accepted : bool) (blockId : BlockId)
    (s : Server) : Ended unit :=
  let s := if negb accepted
           then append_json_msg (ResultFrame jobID solution_rejected) s
           else append_json_msg
                  (SolutionResultFrame jobID solution_accepted (m_Hash blockId)
                                       (m_Height blockId)) s in
  match _connections s !! resultFrom (_recentResult s) with
  | None => NullConnection s
  | Some conn =>
      let '(_, conn) := send_msg (_currentMsg s) true false conn in
      let s := with_connections
                 (<[resultFrom (_recentResult s) := conn]> (_connections s)) s in
      Returned tt (with_currentMsg [] s)
  end.

Definition get_last_found_block (s : Server) : string * PoW :=
  (res_id (_recentResult s), res_pow (_recentResult s)).

Definition stop_current (s : Server) : Server :=
  mkServer (_connections s) (mkRecentJob "" (job_msg (_recentJob s)))
           (_recentResult s) (_acl s) (_currentMsg s) (_deadConnections s)
           (found_calls s).

(** [Connection::on_message(const Login&)] and
    [Connection::on_message(const Solution&)]: both hand the message to the
    server under the connection's id. *)
Definition on_message_Login (c : Connection) (login : Login) (s : Server) : Ended bool :=
  on_login (_id c) login s.

Definition on_message_Solution (c : Connection) (sol : Solution) (s : Server) : Ended bool :=
  on_solution (_id c) sol s.

(** The server after a run of solutions, each from its peer; it stops at the
    first one that does not return. *)
Fixpoint on_solutions (sols : list (Z * Solution)) (s : Server) : Ended bool :=
  match sols with
  | [] => Returned true s
  | (from, sol) :: rest =>
      match on_solution from sol s with
      | Returned _ s' => on_solutions rest s'
      | e => e
      end
  end.

End Server.

(** ** The server under the calls that reach it *)

(** [refresh_acl], the timer's callback: the access control is refreshed, at
    the file system of that instant; the timer it arms again is what brings
    the next call. *)
Definition refresh_acl (fs : FS) (s : Server) : Server :=
  mkServer (_connections s) (_recentJob s) (_recentResult s) (refresh fs (_acl s))
           (_currentMsg s) (_deadConnections s) (found_calls s).

(** The calls that reach a running server: from the reactor and its timer,
    from the peers, from the node. *)
Inductive Call :=
| StreamAccepted (peer : Z) (stream : Stream)
| LoginFrom (from : Z) (login : Login)
| SolutionFrom (from : Z) (sol : Solution)
| BadPeer (from : Z)
| NewJob (id input : string) (pow : PoW) (height : Z) (callback : BlockFound)
| SolutionResult (jobID : string) (accepted : bool) (blockId : BlockId)
| StopCurrent
| RefreshAcl (fs : FS).

Section Calls.
Variable fill_pow : Solution -> PoW -> PoW.

(** One call; a peer's message reaches the server through
    [Connection::on_message]. *)
Definition do_call (c : Call) (s : Server) : Ended unit :=
  match c with
  | StreamAccepted peer stream => Returned tt (on_stream_accepted peer stream s)
  | LoginFrom from login =>
      match on_login from login s with
      | Returned _ s' => Returned tt s'
      | NullConnection s' => NullConnection s'
      | BadFunctionCall s' => BadFunctionCall s'
      end
  | SolutionFrom from sol =>
      match on_solution fill_pow from sol s with
      | Returned _ s' => Returned tt s'
      | NullConnection s' => NullConnection s'
      | BadFunctionCall s' => BadFunctionCall s'
      end
  | BadPeer from => Returned tt (on_bad_peer from s)
  | NewJob id input pow height callback =>
      Returned tt (new_job id input pow height callback s)
  | SolutionResult jobID accepted blockId => solution_result jobID accepted blockId s
  | StopCurrent => Returned tt (stop_current s)
  | RefreshAcl fs => Returned tt (refresh_acl fs s)
  end.

(** A run of calls; it stops at the first one that does not return. *)
Fixpoint do_calls (cs : list Call) (s : Server) : Ended unit :=
  match cs with
  | [] => Returned tt s
  | c :: cs' =>
      match do_call c s with
      | Returned _ s' => do_calls cs' s'
      | e => e
      end
  end.
End Calls.

(** ** Reading a server's state *)

(** What [refresh] keeps true: every key of the set is a line of the file
    read by the last refresh that passed the [mtime] test. *)
Definition keys_from (acl : AccessControl) (last : option File) : Prop :=
  forall k, k ∈ _keys acl -> exists f, last = Some f /\ key_line_of k f.

(** The server as a member function left it, however it ended. *)
Definition ended_server {A} (e : Ended A) : Server :=
  match e with
  | Returned _ s => s
  | NullConnection s => s
  | BadFunctionCall s => s
  end.

(** The frame [solution_result] appends. *)
Definition reply_frame (jobID : string) (accepted : bool) (blockId : BlockId) : Frame :=
  if accepted
  then SolutionResultFrame jobID solution_accepted (m_Hash blockId) (m_Height blockId)
  else ResultFrame jobID solution_rejected.

(** What a peer's stream has been sent, [[]] for a peer not connected. *)
Definition sent_to (peer : Z) (s : Server) : list SerializedMsg :=
  match _connections s !! peer with
  | Some (mkConnection _ (Some st) _) => written st
  | _ => []
  end.

(** What the calls keep true of the server between them. *)
Definition well_kept (s : Server) : Prop :=
  _currentMsg s = [] /\
  _deadConnections s = [] /\
  (forall k c, _connections s !! k = Some c -> _id c = k) /\
  (job_msg (_recentJob s) = [] \/
   exists id input pow height, job_msg (_recentJob s) = [JobFrame id input pow height]).

(** What [refresh] keeps true, in full: the set of keys is the set read
    from the file of the last refresh that passed the [mtime] test, and is
    empty as long as there was none. *)
Definition keys_are (acl : AccessControl) (last : option File) : Prop :=
  _keys acl = match last with Some f => read_keys (content f) | None => ∅ end.

(** What [new_job] leaves of a connection the job message went to. *)
Definition after_job (msg : SerializedMsg) (c : Connection) : option Connection :=
  let '(sent, c') := send_msg msg true false c in
  if sent then Some c' else None.

(** ** Concrete runs *)

(** A key file of two lines, the second too short to be a key. *)
Definition keys_txt : FS :=
  fun path =>
    if String.eqb path "keys.txt"
    then Some (mkFile 10 (Some ("  secret-key-1 " ++ String "010"%char "short")%string))
    else None.

(** Three logged-in peers, the job [J1], its solutions. *)

Definition hex_fill_pow (sol : Solution) (pow : PoW) : PoW :=
  mkPoW (sol_output sol) (sol_nonce sol) (m_Difficulty pow).

Definition open_stream : Stream := mkStream true [] false.

Definition three_peers : Server :=
  mkServer (list_to_map [(1, mkConnection 1 (Some open_stream) true);
                         (2, mkConnection 2 (Some open_stream) true);
                         (3, mkConnection 3 (Some open_stream) true)])
           (mkRecentJob "" []) (mkRecentResult "" (mkPoW "" "" 0) None 0)
           (mkACL false "" 0 ∅) [] [] [].

Definition job_J1 : Server := new_job "J1" "input" (mkPoW "" "" 5) 100 7%nat three_peers.

Definition block_100 : BlockId := mkBlockId 100 "abcd".

(** A server that checks keys against [keys_txt], with one peer connected
    and not logged in, before any job. *)
Definition keyed_server : Server :=
  mkServer {[ 4 := Connection_new 4 open_stream ]}
           (mkRecentJob "" []) (mkRecentResult "" (mkPoW "" "" 0) None 0)
           (AccessControl_new "keys.txt" keys_txt) [] [] [].

(** The key file of [keys_txt] with another key in it and the same
    modification time. *)
Definition keys_txt_edited : FS :=
  fun path =>
    if String.eqb path "keys.txt"
    then Some (mkFile 10 (Some "another-key-2"%string))
    else None.

End Stratum.

(* ===================================================================== *)
(** * The wallet transaction (wallet/wallet_transaction.cpp) *)
(* ===================================================================== *)

Module Wallet.

(** ** Data (wallet/wallet_db.h, wallet/common.h) *)

Definition Amount := Z.
Definition Height := Z.
Definition Timestamp := Z.
(** A 16-byte transaction id, a wallet id (its public key), and the values
    of the curve library, each kept as the number that encodes it. *)
Definition TxID := Z.
Definition WalletID := Z.
Definition Scalar := Z.
Definition Point := Z.
Definition Hash := Z.

Module TxStatus.
Inductive t := Pending | InProgress | Cancelled | Completed | Failed | Registered.
End TxStatus.

Module TxFailureReason.
Inductive t :=
| Unknown | Cancelled | InvalidPeerSignature | FailedToRegister | InvalidTransaction
| FailedToSendParameters | NoInputs | TransactionExpired.
End TxFailureReason.

(** [SimpleTransaction::State]. *)
Module State.
Inductive t :=
| Initial | Invitation | PeerConfirmation | InvitationConfirmation | Registration
| KernelConfirmation.
End State.

Module TxParameterID.
Inductive t :=
| Amount | AmountList | Fee | MinHeight | MaxHeight | IsSender | IsInitiator
| MyID | PeerID | MyAddressID | PeerProtoVersion | Status | State | Inputs
| Outputs | Offset | Change | BlindingExcess | MyNonce | PeerPublicExcess
| PeerPublicNonce | PeerSignature | PeerInputs | PeerOutputs | PeerOffset
| PaymentConfirmation | KernelID | KernelProofHeight | TransactionRegistered
| FailureReason | ModifyTime | CreateTime | TransactionType.

Definition to_nat (p : t) : nat :=
  match p with
  | Amount => 0 | AmountList => 1 | Fee => 2 | MinHeight => 3 | MaxHeight => 4
  | IsSender => 5 | IsInitiator => 6 | MyID => 7 | PeerID => 8 | MyAddressID => 9
  | PeerProtoVersion => 10 | Status => 11 | State => 12 | Inputs => 13
  | Outputs => 14 | Offset => 15 | Change => 16 | BlindingExcess => 17
  | MyNonce => 18 | PeerPublicExcess => 19 | PeerPublicNonce => 20
  | PeerSignature => 21 | PeerInputs => 22 | PeerOutputs => 23 | PeerOffset => 24
  | PaymentConfirmation => 25 | KernelID => 26 | KernelProofHeight => 27
  | TransactionRegistered => 28 | FailureReason => 29 | ModifyTime => 30
  | CreateTime => 31 | TransactionType => 32
  end%nat.

Definition of_nat (n : nat) : t :=
  match n with
  | 0 => Amount | 1 => AmountList | 2 => Fee | 3 => MinHeight | 4 => MaxHeight
  | 5 => IsSender | 6 => IsInitiator | 7 => MyID | 8 => PeerID | 9 => MyAddressID
  | 10 => PeerProtoVersion | 11 => Status | 12 => State | 13 => Inputs
  | 14 => Outputs | 15 => Offset | 16 => Change | 17 => BlindingExcess
  | 18 => MyNonce | 19 => PeerPublicExcess | 20 => PeerPublicNonce
  | 21 => PeerSignature | 22 => PeerInputs | 23 => PeerOutputs | 24 => PeerOffset
  | 25 => PaymentConfirmation | 26 => KernelID | 27 => KernelProofHeight
  | 28 => TransactionRegistered | 29 => FailureReason | 30 => ModifyTime
  | 31 => CreateTime | _ => TransactionType
  end%nat.
End TxParameterID.

#[global] Instance TxStatus_eq_dec : EqDecision TxStatus.t.
Proof. solve_decision. Defined.
#[global] Instance TxFailureReason_eq_dec : EqDecision TxFailureReason.t.
Proof. solve_decision. Defined.
#[global] Instance State_eq_dec : EqDecision State.t.
Proof. solve_decision. Defined.
#[global] Instance TxParameterID_eq_dec : EqDecision TxParameterID.t.
Proof. solve_decision. Defined.
#[global] Instance TxParameterID_countable : Countable TxParameterID.t.
Proof.
  apply (inj_countable' TxParameterID.to_nat TxParameterID.of_nat).
  intros []; reflexivity.
Defined.

(** [Key::Type], the types this code names. *)
Module KeyType.
Inductive t := Regular | Change | Bbs | KerW.
Definition to_nat (k : t) : nat :=
  match k with Regular => 0 | Change => 1 | Bbs => 2 | KerW => 3 end%nat.
Definition of_nat (n : nat) : t :=
  match n with 0 => Regular | 1 => Change | 2 => Bbs | _ => KerW end%nat.
End KeyType.

#[global] Instance KeyType_eq_dec : EqDecision KeyType.t.
Proof. solve_decision. Defined.
#[global] Instance KeyType_countable : Countable KeyType.t.
Proof.
  apply (inj_countable' KeyType.to_nat KeyType.of_nat). intros []; reflexivity.
Defined.

(** [Key::ID], and [Key::IDV] = [Coin::ID]: a key id with the coin's value. *)
Record KeyID := mkKeyID { kid_Idx : Z; kid_Type : KeyType.t; kid_SubIdx : Z }.
Record CoinID := mkCoinID { m_Idx : Z; m_Type : KeyType.t; m_SubIdx : Z; m_Value : Amount }.

#[global] Instance CoinID_eq_dec : EqDecision CoinID.
Proof. solve_decision. Defined.
#[global] Instance CoinID_countable : Countable CoinID.
Proof.
  apply (inj_countable'
           (fun c => (m_Idx c, m_Type c, m_SubIdx c, m_Value c))
           (fun '(i, t, s, v) => mkCoinID i t s v)).
  intros []; reflexivity.
Defined.

Module Coin.
Inductive Status := Unavailable | Available | Maturing | Outgoing | Incoming | ChangeV0 | Spent.

Record t := mk {
  m_ID : CoinID;
  m_status : Status;
  m_createHeight : Height;
  m_maturity : Height;
  m_confirmHeight : Height;
  m_lockedHeight : Height;
  m_createTxId : option TxID;
  m_spentTxId : option TxID;
  m_sessionId : Z
}.

Definition with_status (st : Status) (c : t) : t :=
  mk (m_ID c) st (m_createHeight c) (m_maturity c) (m_confirmHeight c)
     (m_lockedHeight c) (m_createTxId c) (m_spentTxId c) (m_sessionId c).
Definition with_maturity (h : Height) (c : t) : t :=
  mk (m_ID c) (m_status c) (m_createHeight c) h (m_confirmHeight c)
     (m_lockedHeight c) (m_createTxId c) (m_spentTxId c) (m_sessionId c).
Definition with_confirmHeight (h : Height) (c : t) : t :=
  mk (m_ID c) (m_status c) (m_createHeight c) (m_maturity c) h
     (m_lockedHeight c) (m_createTxId c) (m_spentTxId c) (m_sessionId c).
Definition with_createHeight (h : Height) (c : t) : t :=
  mk (m_ID c) (m_status c) h (m_maturity c) (m_confirmHeight c)
     (m_lockedHeight c) (m_createTxId c) (m_spentTxId c) (m_sessionId c).
Definition with_createTxId (x : option TxID) (c : t) : t :=
  mk (m_ID c) (m_status c) (m_createHeight c) (m_maturity c) (m_confirmHeight c)
     (m_lockedHeight c) x (m_spentTxId c) (m_sessionId c).
Definition with_spentTxId (x : option TxID) (c : t) : t :=
  mk (m_ID c) (m_status c) (m_createHeight c) (m_maturity c) (m_confirmHeight c)
     (m_lockedHeight c) (m_createTxId c) x (m_sessionId c).
Definition with_ID (id : CoinID) (c : t) : t :=
  mk id (m_status c) (m_createHeight c) (m_maturity c) (m_confirmHeight c)
     (m_lockedHeight c) (m_createTxId c) (m_spentTxId c) (m_sessionId c).

(** [Coin(amount, status)] with the other arguments at their defaults:
    maturity, confirm and locked heights [MaxHeight], key type [Regular],
    no transaction ids, [EmptyCoinSession]. *)
Definition new (amount : Amount) (status : Status) : t :=
  mk (mkCoinID 0 KeyType.Regular 0 amount) status 0 MaxHeight MaxHeight MaxHeight
     None None 0.
End Coin.

#[global] Instance CoinStatus_eq_dec : EqDecision Coin.Status.
Proof. solve_decision. Defined.

Record WalletAddress := mkWalletAddress {
  m_walletID : WalletID;
  m_createTime : Timestamp;
  m_duration : Z;
  m_OwnID : Z
}.

(** Transaction pieces of core/block_crypt.h, as far as this code reads or
    writes them. An input is its commitment; an output is what
    [Output::Create] made. *)
Definition Input := Point.
Definition Output := Z.

Record Signature := mkSignature { sig_NoncePub : Point; sig_k : Scalar }.

Record TxKernel := mkTxKernel {
  k_Fee : Amount;
  k_HeightMin : Height;
  k_HeightMax : Height;
  k_Commitment : Point;
  k_Signature : Signature
}.

Record Transaction := mkTransaction {
  m_vKernels : list TxKernel;
  m_TxOffset : Scalar;
  m_vInputs : list Input;
  m_vOutputs : list Output
}.

Record PaymentConfirmation := mkPaymentConfirmation {
  pc_KernelID : Hash;
  pc_Value : Amount;
  pc_Sender : Point;
  pc_Signature : Signature
}.

(** A parameter's blob, read back at the type it was written with. *)
Inductive ParamValue :=
| VBool (b : bool)
| VInt (n : Z)                      (* Amount, Height, Timestamp, uint32/64 *)
| VAmountList (l : list Amount)
| VStatus (s : TxStatus.t)
| VState (s : State.t)
| VReason (r : TxFailureReason.t)
| VWalletID (w : WalletID)
| VScalar (k : Scalar)
| VPoint (p : Point)
| VHash (h : Hash)
| VInputs (l : list Input)
| VOutputs (l : list Output)
| VSignature (s : Signature).

Definition as_bool (v : ParamValue) : option bool :=
  match v with VBool b => Some b | _ => None end.
Definition as_int (v : ParamValue) : option Z :=
  match v with VInt n => Some n | _ => None end.
Definition as_amounts (v : ParamValue) : option (list Amount) :=
  match v with VAmountList l => Some l | _ => None end.
Definition as_status (v : ParamValue) : option TxStatus.t :=
  match v with VStatus s => Some s | _ => None end.
Definition as_state (v : ParamValue) : option State.t :=
  match v with VState s => Some s | _ => None end.
Definition as_reason (v : ParamValue) : option TxFailureReason.t :=
  match v with VReason r => Some r | _ => None end.
Definition as_wallet_id (v : ParamValue) : option WalletID :=
  match v with VWalletID w => Some w | _ => None end.
Definition as_scalar (v : ParamValue) : option Scalar :=
  match v with VScalar k => Some k | _ => None end.
Definition as_point (v : ParamValue) : option Point :=
  match v with VPoint p => Some p | _ => None end.
Definition as_hash (v : ParamValue) : option Hash :=
  match v with VHash h => Some h | _ => None end.
Definition as_inputs (v : ParamValue) : option (list Input) :=
  match v with VInputs l => Some l | _ => None end.
Definition as_outputs (v : ParamValue) : option (list Output) :=
  match v with VOutputs l => Some l | _ => None end.
Definition as_signature (v : ParamValue) : option Signature :=
  match v with VSignature s => Some s | _ => None end.

(** [SetTxParameter]: the message a transaction sends to its peer. *)
Record SetTxParameter := mkSetTxParameter {
  msg_From : WalletID;
  msg_TxID : TxID;
  msg_Parameters : list (TxParameterID.t * ParamValue)
}.

(** What the transaction does to the outside: the calls it makes on the
    [INegotiatorGateway], and the one log line that names a failure reason
    ([LOG_ERROR() << ... " Failed. " << GetFailureMessage(reason)]). *)
Inductive Event :=
| send_tx_params (peer : WalletID) (msg : SetTxParameter)
| register_tx (id : TxID) (tx : Transaction)
| confirm_kernel (id : TxID) (kernel : TxKernel)
| on_tx_completed (id : TxID)
| log_failed (id : TxID) (reason : TxFailureReason.t).

(** The state one [Update()] runs in: the wallet store, the gateway, the
    clock and the random source, and the transaction object's own members. *)
Record World := mkWorld {
  (* IWalletDB *)
  tx_params : gmap (TxID * TxParameterID.t) ParamValue;
  coins : gmap CoinID Coin.t;
  addresses : gmap WalletID WalletAddress;
  next_kid : Z;
  (* INegotiatorGateway *)
  tip : option Height;
  events : list Event;
  (* getTimestamp(), ECC::GenRandom *)
  now : Timestamp;
  random : Hash;
  (* BaseTransaction *)
  m_ID : TxID;
  m_IsInitiator : option bool
}.

Definition with_tx_params (p : gmap (TxID * TxParameterID.t) ParamValue) (w : World) : World :=
  mkWorld p (coins w) (addresses w) (next_kid w) (tip w) (events w) (now w) (random w)
          (m_ID w) (m_IsInitiator w).
Definition with_coins (c : gmap CoinID Coin.t) (w : World) : World :=
  mkWorld (tx_params w) c (addresses w) (next_kid w) (tip w) (events w) (now w) (random w)
          (m_ID w) (m_IsInitiator w).
Definition with_next_kid (k : Z) (w : World) : World :=
  mkWorld (tx_params w) (coins w) (addresses w) k (tip w) (events w) (now w) (random w)
          (m_ID w) (m_IsInitiator w).
Definition with_events (e : list Event) (w : World) : World :=
  mkWorld (tx_params w) (coins w) (addresses w) (next_kid w) (tip w) e (now w) (random w)
          (m_ID w) (m_IsInitiator w).
Definition with_IsInitiator (b : option bool) (w : World) : World :=
  mkWorld (tx_params w) (coins w) (addresses w) (next_kid w) (tip w) (events w) (now w)
          (random w) (m_ID w) b.

(** ** The monad: state, exceptions and early return *)

Inductive Exn :=
| TransactionFailedException (notify : bool) (reason : TxFailureReason.t)
| std_exception.

(** How a statement ends: it goes on with a value, it leaves the function
    ([return;]), or it throws. *)
Inductive Outcome (A : Type) :=
| Val (a : A)
| Return
| Throw (e : Exn).
Arguments Val {A} a.
Arguments Return {A}.
Arguments Throw {A} e.

Definition M (A : Type) : Type := World -> Outcome A * World.

Definition ret {A} (a : A) : M A := fun w => (Val a, w).

Definition bind {A B} (m : M A) (f : A -> M B) : M B :=
  fun w =>
    match m w with
    | (Val a, w') => f a w'
    | (Return, w') => (Return, w')
    | (Throw e, w') => (Throw e, w')
    end.

Notation "'let*' x ':=' c 'in' k" := (bind c (fun x => k))
  (at level 10, x name, c at level 100, k at level 200).
Notation "'let*' ' p ':=' c 'in' k" := (bind c (fun x => match x with p => k end))
  (at level 10, p pattern, c at level 100, k at level 200).

Definition throw {A} (e : Exn) : M A := fun w => (Throw e, w).
Definition return_ {A} : M A := fun w => (Return, w).
Definition get_world : M World := fun w => (Val w, w).
Definition modify (f : World -> World) : M unit := fun w => (Val tt, f w).

(** A call of a [void] function: [return;] ends the callee, not the caller. *)
Definition call (m : M unit) : M unit :=
  fun w =>
    match m w with
    | (Return, w') => (Val tt, w')
    | r => r
    end.

Definition when (b : bool) (m : M unit) : M unit := if b then m else ret tt.

Fixpoint foldM {A B} (f : B -> A -> M B) (l : list A) (b : B) : M B :=
  match l with
  | [] => ret b
  | a :: l' => let* b' := f b a in foldM f l' b'
  end.

(** ** Parameters: the curve library, the chain rules, the store's choices *)

(** The operations of the elliptic-curve library (core/ecc_native.h,
    core/block_crypt.h) and of the key derivation held by the store. *)
Class Crypto := {
  scalar_add : Scalar -> Scalar -> Scalar;
  scalar_neg : Scalar -> Scalar;
  point_add : Point -> Point -> Point;
  G_mul : Scalar -> Point;                       (* Context::get().G * k *)
  calcCommitment : CoinID -> Scalar * Point;     (* blinding factor, commitment *)
  Output_Create : CoinID -> Scalar * Output;     (* blinding factor, output *)
  DeriveKey : KeyID -> Scalar;
  DeriveNonce : Hash -> Scalar;
  Kernel_get_Hash : TxKernel -> Hash;
  Kernel_get_ID : TxKernel -> Hash;
  MultiSig_SignPartial : Scalar -> Point -> Hash -> Scalar -> Scalar;
  IsValidPartial : Signature -> Hash -> Point -> Point -> bool;
  PaymentConfirmation_IsValid : PaymentConfirmation -> Point -> bool;
  PaymentConfirmation_Sign : PaymentConfirmation -> Scalar -> Signature;
  Transaction_IsValid : Transaction -> bool;
  Transaction_Normalize : Transaction -> Transaction
}.

Record TxBuilder := mkTxBuilder {
  m_AmountList : list Amount;
  m_Fee : Amount;
  m_Change : Amount;
  m_MinHeight : Height;
  m_MaxHeight : Height;
  m_Inputs : list Input;
  m_Outputs : list Output;
  m_BlindingExcess : Scalar;
  m_Offset : Scalar;
  m_Nonce : Scalar;                 (* m_MultiSig.m_Nonce *)
  m_NoncePub : Point;               (* m_MultiSig.m_NoncePub *)
  m_PeerPublicNonce : Point;
  m_PeerPublicExcess : Point;
  m_PeerInputs : list Input;
  m_PeerOutputs : list Output;
  m_PeerOffset : Scalar;
  m_Kernel : option TxKernel;
  m_PartialSignature : Scalar;
  m_PeerSignature : Scalar;
  m_Message : Hash
}.

Definition with_Change (v : Amount) (b : TxBuilder) : TxBuilder :=
  mkTxBuilder (m_AmountList b) (m_Fee b) v (m_MinHeight b) (m_MaxHeight b) (m_Inputs
    b) (m_Outputs b) (m_BlindingExcess b) (m_Offset b) (m_Nonce b) (m_NoncePub b)
    (m_PeerPublicNonce b) (m_PeerPublicExcess b) (m_PeerInputs b) (m_PeerOutputs b)
    (m_PeerOffset b) (m_Kernel b) (m_PartialSignature b) (m_PeerSignature b)
    (m_Message b).
Definition with_MinHeight (v : Height) (b : TxBuilder) : TxBuilder :=
  mkTxBuilder (m_AmountList b) (m_Fee b) (m_Change b) v (m_MaxHeight b) (m_Inputs b)
    (m_Outputs b) (m_BlindingExcess b) (m_Offset b) (m_Nonce b) (m_NoncePub b)
    (m_PeerPublicNonce b) (m_PeerPublicExcess b) (m_PeerInputs b) (m_PeerOutputs b)
    (m_PeerOffset b) (m_Kernel b) (m_PartialSignature b) (m_PeerSignature b)
    (m_Message b).
Definition with_MaxHeight (v : Height) (b : TxBuilder) : TxBuilder :=
  mkTxBuilder (m_AmountList b) (m_Fee b) (m_Change b) (m_MinHeight b) v (m_Inputs b)
    (m_Outputs b) (m_BlindingExcess b) (m_Offset b) (m_Nonce b) (m_NoncePub b)
    (m_PeerPublicNonce b) (m_PeerPublicExcess b) (m_PeerInputs b) (m_PeerOutputs b)
    (m_PeerOffset b) (m_Kernel b) (m_PartialSignature b) (m_PeerSignature b)
    (m_Message b).
Definition with_Inputs (v : list Input) (b : TxBuilder) : TxBuilder :=
  mkTxBuilder (m_AmountList b) (m_Fee b) (m_Change b) (m_MinHeight b) (m_MaxHeight b)
    v (m_Outputs b) (m_BlindingExcess b) (m_Offset b) (m_Nonce b) (m_NoncePub b)
    (m_PeerPublicNonce b) (m_PeerPublicExcess b) (m_PeerInputs b) (m_PeerOutputs b)
    (m_PeerOffset b) (m_Kernel b) (m_PartialSignature b) (m_PeerSignature b)
    (m_Message b).
Definition with_Outputs (v : list Output) (b : TxBuilder) : TxBuilder :=
  mkTxBuilder (m_AmountList b) (m_Fee b) (m_Change b) (m_MinHeight b) (m_MaxHeight b)
    (m_Inputs b) v (m_BlindingExcess b) (m_Offset b) (m_Nonce b) (m_NoncePub b)
    (m_PeerPublicNonce b) (m_PeerPublicExcess b) (m_PeerInputs b) (m_PeerOutputs b)
    (m_PeerOffset b) (m_Kernel b) (m_PartialSignature b) (m_PeerSignature b)
    (m_Message b).
Definition with_BlindingExcess (v : Scalar) (b : TxBuilder) : TxBuilder :=
  mkTxBuilder (m_AmountList b) (m_Fee b) (m_Change b) (m_MinHeight b) (m_MaxHeight b)
    (m_Inputs b) (m_Outputs b) v (m_Offset b) (m_Nonce b) (m_NoncePub b)
    (m_PeerPublicNonce b) (m_PeerPublicExcess b) (m_PeerInputs b) (m_PeerOutputs b)
    (m_PeerOffset b) (m_Kernel b) (m_PartialSignature b) (m_PeerSignature b)
    (m_Message b).
Definition with_Offset (v : Scalar) (b : TxBuilder) : TxBuilder :=
  mkTxBuilder (m_AmountList b) (m_Fee b) (m_Change b) (m_MinHeight b) (m_MaxHeight b)
    (m_Inputs b) (m_Outputs b) (m_BlindingExcess b) v (m_Nonce b) (m_NoncePub b)
    (m_PeerPublicNonce b) (m_PeerPublicExcess b) (m_PeerInputs b) (m_PeerOutputs b)
    (m_PeerOffset b) (m_Kernel b) (m_PartialSignature b) (m_PeerSignature b)
    (m_Message b).
Definition with_Nonce (v : Scalar) (b : TxBuilder) : TxBuilder :=
  mkTxBuilder (m_AmountList b) (m_Fee b) (m_Change b) (m_MinHeight b) (m_MaxHeight b)
    (m_Inputs b) (m_Outputs b) (m_BlindingExcess b) (m_Offset b) v (m_NoncePub b)
    (m_PeerPublicNonce b) (m_PeerPublicExcess b) (m_PeerInputs b) (m_PeerOutputs b)
    (m_PeerOffset b) (m_Kernel b) (m_PartialSignature b) (m_PeerSignature b)
    (m_Message b).
Definition with_NoncePub (v : Point) (b : TxBuilder) : TxBuilder :=
  mkTxBuilder (m_AmountList b) (m_Fee b) (m_Change b) (m_MinHeight b) (m_MaxHeight b)
    (m_Inputs b) (m_Outputs b) (m_BlindingExcess b) (m_Offset b) (m_Nonce b) v
    (m_PeerPublicNonce b) (m_PeerPublicExcess b) (m_PeerInputs b) (m_PeerOutputs b)
    (m_PeerOffset b) (m_Kernel b) (m_PartialSignature b) (m_PeerSignature b)
    (m_Message b).
Definition with_PeerPublicNonce (v : Point) (b : TxBuilder) : TxBuilder :=
  mkTxBuilder (m_AmountList b) (m_Fee b) (m_Change b) (m_MinHeight b) (m_MaxHeight b)
    (m_Inputs b) (m_Outputs b) (m_BlindingExcess b) (m_Offset b) (m_Nonce b)
    (m_NoncePub b) v (m_PeerPublicExcess b) (m_PeerInputs b) (m_PeerOutputs b)
    (m_PeerOffset b) (m_Kernel b) (m_PartialSignature b) (m_PeerSignature b)
    (m_Message b).
Definition with_PeerPublicExcess (v : Point) (b : TxBuilder) : TxBuilder :=
  mkTxBuilder (m_AmountList b) (m_Fee b) (m_Change b) (m_MinHeight b) (m_MaxHeight b)
    (m_Inputs b) (m_Outputs b) (m_BlindingExcess b) (m_Offset b) (m_Nonce b)
    (m_NoncePub b) (m_PeerPublicNonce b) v (m_PeerInputs b) (m_PeerOutputs b)
    (m_PeerOffset b) (m_Kernel b) (m_PartialSignature b) (m_PeerSignature b)
    (m_Message b).
Definition with_PeerInputs (v : list Input) (b : TxBuilder) : TxBuilder :=
  mkTxBuilder (m_AmountList b) (m_Fee b) (m_Change b) (m_MinHeight b) (m_MaxHeight b)
    (m_Inputs b) (m_Outputs b) (m_BlindingExcess b) (m_Offset b) (m_Nonce b)
    (m_NoncePub b) (m_PeerPublicNonce b) (m_PeerPublicExcess b) v (m_PeerOutputs b)
    (m_PeerOffset b) (m_Kernel b) (m_PartialSignature b) (m_PeerSignature b)
    (m_Message b).
Definition with_PeerOutputs (v : list Output) (b : TxBuilder) : TxBuilder :=
  mkTxBuilder (m_AmountList b) (m_Fee b) (m_Change b) (m_MinHeight b) (m_MaxHeight b)
    (m_Inputs b) (m_Outputs b) (m_BlindingExcess b) (m_Offset b) (m_Nonce b)
    (m_NoncePub b) (m_PeerPublicNonce b) (m_PeerPublicExcess b) (m_PeerInputs b) v
    (m_PeerOffset b) (m_Kernel b) (m_PartialSignature b) (m_PeerSignature b)
    (m_Message b).
Definition with_PeerOffset (v : Scalar) (b : TxBuilder) : TxBuilder :=
  mkTxBuilder (m_AmountList b) (m_Fee b) (m_Change b) (m_MinHeight b) (m_MaxHeight b)
    (m_Inputs b) (m_Outputs b) (m_BlindingExcess b) (m_Offset b) (m_Nonce b)
    (m_NoncePub b) (m_PeerPublicNonce b) (m_PeerPublicExcess b) (m_PeerInputs b)
    (m_PeerOutputs b) v (m_Kernel b) (m_PartialSignature b) (m_PeerSignature b)
    (m_Message b).
Definition with_Kernel (v : option TxKernel) (b : TxBuilder) : TxBuilder :=
  mkTxBuilder (m_AmountList b) (m_Fee b) (m_Change b) (m_MinHeight b) (m_MaxHeight b)
    (m_Inputs b) (m_Outputs b) (m_BlindingExcess b) (m_Offset b) (m_Nonce b)
    (m_NoncePub b) (m_PeerPublicNonce b) (m_PeerPublicExcess b) (m_PeerInputs b)
    (m_PeerOutputs b) (m_PeerOffset b) v (m_PartialSignature b) (m_PeerSignature b)
    (m_Message b).
Definition with_PartialSignature (v : Scalar) (b : TxBuilder) : TxBuilder :=
  mkTxBuilder (m_AmountList b) (m_Fee b) (m_Change b) (m_MinHeight b) (m_MaxHeight b)
    (m_Inputs b) (m_Outputs b) (m_BlindingExcess b) (m_Offset b) (m_Nonce b)
    (m_NoncePub b) (m_PeerPublicNonce b) (m_PeerPublicExcess b) (m_PeerInputs b)
    (m_PeerOutputs b) (m_PeerOffset b) (m_Kernel b) v (m_PeerSignature b) (m_Message
    b).
Definition with_PeerSignature (v : Scalar) (b : TxBuilder) : TxBuilder :=
  mkTxBuilder (m_AmountList b) (m_Fee b) (m_Change b) (m_MinHeight b) (m_MaxHeight b)
    (m_Inputs b) (m_Outputs b) (m_BlindingExcess b) (m_Offset b) (m_Nonce b)
    (m_NoncePub b) (m_PeerPublicNonce b) (m_PeerPublicExcess b) (m_PeerInputs b)
    (m_PeerOutputs b) (m_PeerOffset b) (m_Kernel b) (m_PartialSignature b) v
    (m_Message b).
Definition with_Message (v : Hash) (b : TxBuilder) : TxBuilder :=
  mkTxBuilder (m_AmountList b) (m_Fee b) (m_Change b) (m_MinHeight b) (m_MaxHeight b)
    (m_Inputs b) (m_Outputs b) (m_BlindingExcess b) (m_Offset b) (m_Nonce b)
    (m_NoncePub b) (m_PeerPublicNonce b) (m_PeerPublicExcess b) (m_PeerInputs b)
    (m_PeerOutputs b) (m_PeerOffset b) (m_Kernel b) (m_PartialSignature b)
    (m_PeerSignature b) v.

Definition zero_kernel : TxKernel := mkTxKernel 0 0 0 0 (mkSignature 0 0).

(** [*m_Kernel]; every use below follows [CreateKernel], which sets it. *)
Definition the_kernel (b : TxBuilder) : TxKernel := default zero_kernel (m_Kernel b).

Definition kernel_with_Commitment (p : Point) (k : TxKernel) : TxKernel :=
  mkTxKernel (k_Fee k) (k_HeightMin k) (k_HeightMax k) p (k_Signature k).
Definition kernel_with_Signature (s : Signature) (k : TxKernel) : TxKernel :=
  mkTxKernel (k_Fee k) (k_HeightMin k) (k_HeightMax k) (k_Commitment k) s.

(** What else the transaction code is given: [Rules::get().Maturity.Std];
    the coins the store's selection picks for an amount among the coins it
    holds, already marked as it hands them out (the policy is the store's);
    and what [GetMandatoryParameter] throws for a parameter that is not set
    (wallet_transaction.h). *)
Class Settings := {
  Maturity_Std : Height;
  select_policy : gmap CoinID Coin.t -> Amount -> list Coin.t;
  missing_parameter : TxParameterID.t -> Exn
}.

Section Transaction.

Context {crypto : Crypto} {settings : Settings}.

(** ** The wallet store (IWalletDB) *)

(** Modelled from the spec: the parameter bag is "a mapping from (txID,
    paramID) to an opaque byte blob" with [get] and [set(shouldNotify)]; the
    implementation (wallet_db.cpp) is not among the sources. A blob that is
    not of the type asked for reads as absent. The notification of observers
    is not modelled. *)
Definition getTxParameter (txID : TxID) (paramID : TxParameterID.t) : M (option ParamValue) :=
  fun w => (Val (tx_params w !! (txID, paramID)), w).

Definition setTxParameter (txID : TxID) (paramID : TxParameterID.t) (blob : ParamValue)
    (shouldNotifyAboutChanges : bool) : M unit :=
  modify (fun w => with_tx_params (<[(txID, paramID) := blob]> (tx_params w)) w).

(** Modelled from the spec: [deleteTx] "delete[s] the tx record outright". *)
Definition deleteTx (txID : TxID) : M unit :=
  modify (fun w => with_tx_params (filter (fun kv => kv.1.1 <> txID) (tx_params w)) w).

(** Modelled from the spec: coin CRUD keyed by the coin's identifier.
    [save] writes each coin under its id; [visit] hands every stored coin to
    the visitor. *)
Definition save_coins (l : list Coin.t) (cs : gmap CoinID Coin.t) : gmap CoinID Coin.t :=
  foldl (fun m c => <[Coin.m_ID c := c]> m) cs l.

Definition save (l : list Coin.t) : M unit :=
  modify (fun w => with_coins (save_coins l (coins w)) w).

Definition visit : M (list Coin.t) :=
  fun w => (Val ((map_to_list (coins w)).*2), w).

(** Modelled from the spec: "a monotonic AllocateKidRange(n) -> firstKid". *)
Definition AllocateKidRange (n : Z) : M Z :=
  fun w => (Val (next_kid w), with_next_kid (next_kid w + n) w).

(** Modelled from the spec: [store] persists a new coin under "a fresh key
    identifier via AllocateKidRange(1)" and hands the coin back with it. *)
Definition store (c : Coin.t) : M Coin.t :=
  let* idx := AllocateKidRange 1 in
  let id := Coin.m_ID c in
  let c := Coin.with_ID (mkCoinID idx (m_Type id) (m_SubIdx id) (m_Value id)) c in
  let* _ := save [c] in
  ret c.

(** Modelled from the spec: [selectCoins(amount, lock)] returns the chosen
    coins, "or empty if insufficient", and with [lock = true] (the default,
    used here) "the returned coins are marked reserved", that is, written
    back as returned. *)
Definition selectCoins (amount : Amount) : M (list Coin.t) :=
  let* w := get_world in
  let chosen := select_policy (coins w) amount in
  let* _ := save chosen in
  ret chosen.

(** Modelled from the spec: [rollbackTx(txID)] "restores coins' statuses
    (own outputs: Incoming -> removed; own inputs: Outgoing -> Available)". *)
Definition is_own_output (txID : TxID) (c : Coin.t) : bool :=
  bool_decide (Coin.m_createTxId c = Some txID) && bool_decide (Coin.m_status c = Coin.Incoming).
Definition is_own_input (txID : TxID) (c : Coin.t) : bool :=
  bool_decide (Coin.m_spentTxId c = Some txID) && bool_decide (Coin.m_status c = Coin.Outgoing).

Definition rollback_coins (txID : TxID) (cs : gmap CoinID Coin.t) : gmap CoinID Coin.t :=
  (fun c => if is_own_input txID c
            then Coin.with_spentTxId None (Coin.with_status Coin.Available c)
            else c)
    <$> filter (fun kv => is_own_output txID kv.2 = false) cs.

Definition rollbackTx (txID : TxID) : M unit :=
  modify (fun w => with_coins (rollback_coins txID (coins w)) w).

Definition getAddress (wid : WalletID) : M (option WalletAddress) :=
  fun w => (Val (addresses w !! wid), w).

(** ** The gateway (INegotiatorGateway) *)

Definition emit (e : Event) : M unit :=
  modify (fun w => with_events (events w ++ [e]) w).

Definition get_tip : M (option Height) := fun w => (Val (tip w), w).

Definition getTimestamp : M Timestamp := fun w => (Val (now w), w).

(** ** BaseTransaction *)

Definition s_ProtoVersion : Z := 1.

Definition GetTxID : M TxID := fun w => (Val (m_ID w), w).

(** [GetParameter(paramID, value)]: [None] where the C++ returns [false]
    and leaves [value] as it was. *)
Definition GetParameter {T} (as_T : ParamValue -> option T) (paramID : TxParameterID.t)
    : M (option T) :=
  let* txID := GetTxID in
  let* blob := getTxParameter txID paramID in
  ret (blob ≫= as_T).

Definition GetMandatoryParameter {T} (as_T : ParamValue -> option T)
    (paramID : TxParameterID.t) : M T :=
  let* v := GetParameter as_T paramID in
  match v with
  | Some x => ret x
  | None => throw (missing_parameter paramID)
  end.

Definition SetParameter (paramID : TxParameterID.t) (value : ParamValue)
    (shouldNotifyAboutChanges : bool) : M unit :=
  let* txID := GetTxID in
  setTxParameter txID paramID value shouldNotifyAboutChanges.

Definition ShouldNotifyAboutChanges (paramID : TxParameterID.t) : bool :=
  match paramID with
  | TxParameterID.Amount | TxParameterID.Fee | TxParameterID.MinHeight
  | TxParameterID.PeerID | TxParameterID.MyID | TxParameterID.CreateTime
  | TxParameterID.IsSender | TxParameterID.Status | TxParameterID.TransactionType
  | TxParameterID.KernelID => true
  | _ => false
  end.

(** [SetParameter(paramID, value)], the flag taken from
    [ShouldNotifyAboutChanges]. *)
Definition SetParameter' (paramID : TxParameterID.t) (value : ParamValue) : M unit :=
  SetParameter paramID value (ShouldNotifyAboutChanges paramID).

Definition IsInitiator : M bool :=
  let* w := get_world in
  match m_IsInitiator w with
  | Some b => ret b
  | None =>
      let* b := GetMandatoryParameter as_bool TxParameterID.IsInitiator in
      let* _ := modify (with_IsInitiator (Some b)) in
      ret b
  end.

Definition get_PeerVersion : M Z :=
  let* nVer := GetParameter as_int TxParameterID.PeerProtoVersion in
  ret (default 0 nVer).

Definition GetTip : M (option Height) := get_tip.

Definition RollbackTx : M unit :=
  let* txID := GetTxID in
  rollbackTx txID.

Definition UpdateTxDescription (s : TxStatus.t) : M unit :=
  let* _ := SetParameter TxParameterID.Status (VStatus s) true in
  let* t := getTimestamp in
  SetParameter TxParameterID.ModifyTime (VInt t) false.

Definition ConfirmKernel (kernel : TxKernel) : M unit :=
  let* _ := UpdateTxDescription TxStatus.Registered in
  let* txID := GetTxID in
  emit (confirm_kernel txID kernel).

Definition CompleteTx : M unit :=
  let* _ := UpdateTxDescription TxStatus.Completed in
  let* txID := GetTxID in
  emit (on_tx_completed txID).

(** [SendTxParameters]: the message's id and sender are filled in, and it is
    sent when both [MyID] and [PeerID] are known. *)
Definition SendTxParameters (params : list (TxParameterID.t * ParamValue)) : M bool :=
  let* txID := GetTxID in
  let* from := GetParameter as_wallet_id TxParameterID.MyID in
  match from with
  | None => ret false
  | Some from =>
      let* peerID := GetParameter as_wallet_id TxParameterID.PeerID in
      match peerID with
      | None => ret false
      | Some peerID =>
          let* _ := emit (send_tx_params peerID (mkSetTxParameter from txID params)) in
          ret true
      end
  end.

Definition NotifyFailure (reason : TxFailureReason.t) : M unit :=
  let* s := GetParameter as_status TxParameterID.Status in
  match default TxStatus.Failed s with
  | TxStatus.Pending | TxStatus.InProgress =>
      let* _ := SendTxParameters [(TxParameterID.FailureReason, VReason reason)] in
      ret tt
  | _ => ret tt
  end.

Definition OnFailed (reason : TxFailureReason.t) (notify : bool) : M unit :=
  let* txID := GetTxID in
  let* _ := emit (log_failed txID reason) in
  let* _ := when notify (NotifyFailure reason) in
  let* _ := UpdateTxDescription
              (if decide (reason = TxFailureReason.Cancelled)
               then TxStatus.Cancelled else TxStatus.Failed) in
  let* _ := RollbackTx in
  emit (on_tx_completed txID).

(** Modelled from the spec: the default of [OnFailed]'s [notify] argument is
    in wallet_transaction.h, not among the sources; a failure raised with
    the reason alone is one that does "not notify the peer". *)
Definition OnFailed_notify_default : bool := false.

Definition CheckExpired : M unit :=
  let* s := GetMandatoryParameter as_status TxParameterID.Status in
  if decide (s <> TxStatus.Completed) then
    let* maxHeight := GetParameter as_int TxParameterID.MaxHeight in
    let maxHeight := default MaxHeight maxHeight in
    let* state := GetTip in
    match state with
    | Some h =>
        if maxHeight <? h
        then OnFailed TxFailureReason.TransactionExpired OnFailed_notify_default
        else ret tt
    | None => ret tt
    end
  else ret tt.

Definition CheckExternalFailures : M bool :=
  let* reason := GetParameter as_reason TxParameterID.FailureReason in
  match reason with
  | Some reason =>
      let* s := GetMandatoryParameter as_status TxParameterID.Status in
      if decide (s = TxStatus.InProgress) then
        let* _ := OnFailed reason OnFailed_notify_default in
        ret true
      else ret false
  | None => ret false
  end.

(** [Update()], over the [UpdateImpl] of the transaction's class. *)
Definition Update (UpdateImpl : M unit) : M unit :=
  fun w =>
    match (let* failed := CheckExternalFailures in
           if failed then return_
           else let* _ := call UpdateImpl in
                CheckExpired) w with
    | (Throw (TransactionFailedException notify reason), w') => OnFailed reason notify w'
    | (Throw std_exception, w') => (Val tt, w')
    | (Return, w') => (Val tt, w')
    | (Val _, w') => (Val tt, w')
    end.

Definition Cancel : M unit :=
  let* s := GetParameter as_status TxParameterID.Status in
  let* txID := GetTxID in
  if decide (default TxStatus.Failed s = TxStatus.Pending) then
    deleteTx txID
  else
    let* _ := NotifyFailure TxFailureReason.Cancelled in
    let* _ := UpdateTxDescription TxStatus.Cancelled in
    let* _ := RollbackTx in
    emit (on_tx_completed txID).

Definition is_unconfirmed (txID : TxID) (coin : Coin.t) : bool :=
  (bool_decide (Coin.m_createTxId coin = Some txID)
   && bool_decide (Coin.m_status coin = Coin.Incoming))
  || (bool_decide (Coin.m_spentTxId coin = Some txID)
      && bool_decide (Coin.m_status coin = Coin.Outgoing)).

Definition GetUnconfirmedOutputs : M (list Coin.t) :=
  let* txID := GetTxID in
  let* all := visit in
  ret (List.filter (is_unconfirmed txID) all).

(** ** TxBuilder *)

Definition TxBuilder_new (amountList : list Amount) (fee : Amount) : TxBuilder :=
  mkTxBuilder amountList fee 0 0 MaxHeight [] [] 0 0 0 0 0 0 [] [] 0 None 0 0 0.

(** [std::accumulate(begin, end, 0ULL)]. *)
Definition GetAmount (b : TxBuilder) : Amount := foldl add64 0 (m_AmountList b).
Definition GetAmountList (b : TxBuilder) : list Amount := m_AmountList b.
Definition GetFee (b : TxBuilder) : Amount := m_Fee b.
Definition GetMinHeight (b : TxBuilder) : Height := m_MinHeight b.
Definition GetMaxHeight (b : TxBuilder) : Height := m_MaxHeight b.
Definition GetInputs (b : TxBuilder) : list Input := m_Inputs b.
Definition GetOutputs (b : TxBuilder) : list Output := m_Outputs b.
Definition GetOffset (b : TxBuilder) : Scalar := m_Offset b.
Definition GetPartialSignature (b : TxBuilder) : Scalar := m_PartialSignature b.
Definition GetKernel (b : TxBuilder) : TxKernel := the_kernel b.
Definition GetPublicExcess (b : TxBuilder) : Point := G_mul (m_BlindingExcess b).
Definition GetPublicNonce (b : TxBuilder) : Point := G_mul (m_Nonce b).

(** A [GetParameter] into a member: the member changes when the parameter
    is there. *)
Definition load {T} (v : option T) (set : T -> TxBuilder -> TxBuilder) (b : TxBuilder)
    : TxBuilder :=
  match v with Some x => set x b | None => b end.

(** One round of the loop of [SelectInputs] over the selected coins: the
    coins marked so far, the inputs, the offset and the total. *)
Definition select_input (txID : TxID)
    (acc : list Coin.t * list Input * Scalar * Amount) (coin : Coin.t)
    : list Coin.t * list Input * Scalar * Amount :=
  let '(marked, inputs, offset, total) := acc in
  let coin := Coin.with_spentTxId (Some txID) coin in
  let '(blindingFactor, commitment) := calcCommitment (Coin.m_ID coin) in
  (marked ++ [coin], inputs ++ [commitment], scalar_add offset blindingFactor,
   add64 total (m_Value (Coin.m_ID coin))).

Definition SelectInputs (b : TxBuilder) : M TxBuilder :=
  let amountWithFee := add64 (GetAmount b) (m_Fee b) in
  let* coins := selectCoins amountWithFee in
  match coins with
  | [] =>
      let* initiator := IsInitiator in
      throw (TransactionFailedException (negb initiator) TxFailureReason.NoInputs)
  | _ =>
      let* txID := GetTxID in
      let '(coins, inputs, offset, total) :=
        foldl (select_input txID) ([], m_Inputs b, m_Offset b, 0) coins in
      let b := with_Offset offset (with_Inputs inputs b) in
      let b := with_Change (add64 (m_Change b) (sub64 total amountWithFee)) b in
      let* _ := SetParameter TxParameterID.Change (VInt (m_Change b)) false in
      let* _ := SetParameter TxParameterID.Inputs (VInputs (m_Inputs b)) false in
      let* _ := SetParameter TxParameterID.Offset (VScalar (m_Offset b)) false in
      let* _ := save coins in
      ret b
  end.

(* The arguments [shared] and [incubation] of the source are not read by its
   body and are left out. *)
Definition CreateOutput (amount : Amount) (bChange : bool) (b : TxBuilder)
    : M (Output * TxBuilder) :=
  let* txID := GetTxID in
  let newUtxo := Coin.new amount Coin.Incoming in
  let newUtxo := Coin.with_createTxId (Some txID) newUtxo in
  let newUtxo := Coin.with_createHeight (m_MinHeight b) newUtxo in
  let newUtxo :=
    if bChange
    then let id := Coin.m_ID newUtxo in
         Coin.with_ID (mkCoinID (m_Idx id) KeyType.Change (m_SubIdx id) (m_Value id)) newUtxo
    else newUtxo in
  let* newUtxo := store newUtxo in
  let '(blindingFactor, output) := Output_Create (Coin.m_ID newUtxo) in
  let blindingFactor := scalar_neg blindingFactor in
  ret (output, with_Offset (scalar_add (m_Offset b) blindingFactor) b).

Definition AddOutput (b : TxBuilder) (amount : Amount) (bChange : bool) : M TxBuilder :=
  let* '(output, b) := CreateOutput amount bChange b in
  ret (with_Outputs (m_Outputs b ++ [output]) b).

Definition AddChangeOutput (b : TxBuilder) : M TxBuilder :=
  if m_Change b =? 0 then ret b else AddOutput b (m_Change b) true.

Definition FinalizeOutputs (b : TxBuilder) : M bool :=
  let* _ := SetParameter TxParameterID.Outputs (VOutputs (m_Outputs b)) false in
  let* _ := SetParameter TxParameterID.Offset (VScalar (m_Offset b)) false in
  ret true.

Definition GenRandom : M Hash := fun w => (Val (random w), w).

Definition CreateKernel (b : TxBuilder) : M TxBuilder :=
  let b := with_Kernel
             (Some (mkTxKernel (m_Fee b) (m_MinHeight b) (m_MaxHeight b) 0
                               (mkSignature 0 0))) b in
  let* excess := GetParameter as_scalar TxParameterID.BlindingExcess in
  let* b :=
    match excess with
    | Some k => ret (with_BlindingExcess k b)
    | None =>
        let* idx := AllocateKidRange 1 in
        let kid := mkKeyID idx KeyType.KerW 0 in
        let b := with_BlindingExcess (DeriveKey kid) b in
        let* _ := SetParameter TxParameterID.BlindingExcess
                               (VScalar (m_BlindingExcess b)) false in
        ret b
    end in
  let b := with_Offset (scalar_add (m_Offset b) (m_BlindingExcess b)) b in
  let b := with_BlindingExcess (scalar_neg (m_BlindingExcess b)) b in
  let* hv := GetParameter as_hash TxParameterID.MyNonce in
  let* hvRandom :=
    match hv with
    | Some h => ret h
    | None =>
        let* h := GenRandom in
        let* _ := SetParameter TxParameterID.MyNonce (VHash h) false in
        ret h
    end in
  ret (with_Nonce (DeriveNonce hvRandom) b).

Definition GetPeerPublicExcessAndNonce (b : TxBuilder) : M (bool * TxBuilder) :=
  let* excess := GetParameter as_point TxParameterID.PeerPublicExcess in
  match excess with
  | None => ret (false, b)
  | Some e =>
      let b := with_PeerPublicExcess e b in
      let* nonce := GetParameter as_point TxParameterID.PeerPublicNonce in
      ret (bool_decide (is_Some nonce), load nonce with_PeerPublicNonce b)
  end.

Definition GetPeerSignature (b : TxBuilder) : M (bool * TxBuilder) :=
  let* sig := GetParameter as_scalar TxParameterID.PeerSignature in
  ret (bool_decide (is_Some sig), load sig with_PeerSignature b).

Definition GetInitialTxParams (b : TxBuilder) : M (bool * TxBuilder) :=
  let* inputs := GetParameter as_inputs TxParameterID.Inputs in
  let b := load inputs with_Inputs b in
  let* outputs := GetParameter as_outputs TxParameterID.Outputs in
  let b := load outputs with_Outputs b in
  let* minHeight := GetParameter as_int TxParameterID.MinHeight in
  let b := load minHeight with_MinHeight b in
  let* maxHeight := GetParameter as_int TxParameterID.MaxHeight in
  let b := load maxHeight with_MaxHeight b in
  let* excess := GetParameter as_scalar TxParameterID.BlindingExcess in
  match excess with
  | None => ret (false, b)
  | Some k =>
      let b := with_BlindingExcess k b in
      let* offset := GetParameter as_scalar TxParameterID.Offset in
      ret (bool_decide (is_Some offset), load offset with_Offset b)
  end.

Definition GetPeerInputsAndOutputs (b : TxBuilder) : M (bool * TxBuilder) :=
  let* inputs := GetParameter as_inputs TxParameterID.PeerInputs in
  let b := load inputs with_PeerInputs b in
  let hasInputs := bool_decide (is_Some inputs) in
  let* outputs := GetParameter as_outputs TxParameterID.PeerOutputs in
  let b := load outputs with_PeerOutputs b in
  match outputs with
  | None => ret (hasInputs || false, b)
  | Some _ =>
      let* offset := GetParameter as_scalar TxParameterID.PeerOffset in
      ret (hasInputs || bool_decide (is_Some offset), load offset with_PeerOffset b)
  end.

Definition StoreKernelID (b : TxBuilder) : M unit :=
  SetParameter' TxParameterID.KernelID (VHash (Kernel_get_ID (the_kernel b))).

Definition SignPartial (b : TxBuilder) : M TxBuilder :=
  let totalPublicExcess := point_add (GetPublicExcess b) (m_PeerPublicExcess b) in
  let b := with_Kernel (Some (kernel_with_Commitment totalPublicExcess (the_kernel b))) b in
  let b := with_Message (Kernel_get_Hash (the_kernel b)) b in
  let b := with_NoncePub (point_add (GetPublicNonce b) (m_PeerPublicNonce b)) b in
  let b := with_PartialSignature
             (MultiSig_SignPartial (m_Nonce b) (m_NoncePub b) (m_Message b)
                                   (m_BlindingExcess b)) b in
  let* _ := StoreKernelID b in
  ret b.

Definition FinalizeSignature (b : TxBuilder) : M TxBuilder :=
  let sig := mkSignature (point_add (GetPublicNonce b) (m_PeerPublicNonce b))
                         (scalar_add (m_PartialSignature b) (m_PeerSignature b)) in
  let b := with_Kernel (Some (kernel_with_Signature sig (the_kernel b))) b in
  let* _ := StoreKernelID b in
  ret b.

Definition CreateTransaction (b : TxBuilder) : Transaction :=
  Transaction_Normalize
    (mkTransaction [the_kernel b]
                   (scalar_add (m_Offset b) (m_PeerOffset b))
                   (m_Inputs b ++ m_PeerInputs b)
                   (m_Outputs b ++ m_PeerOutputs b)).

Definition IsPeerSignatureValid (b : TxBuilder) : bool :=
  IsValidPartial (mkSignature (m_NoncePub b) (m_PeerSignature b)) (m_Message b)
                 (m_PeerPublicNonce b) (m_PeerPublicExcess b).

(** ** SimpleTransaction *)

Definition SetState (s : State.t) : M unit :=
  SetParameter TxParameterID.State (VState s) true.

Definition GetState : M State.t :=
  let* s := GetParameter as_state TxParameterID.State in
  ret (default State.Initial s).

Definition IsSelfTx : M bool :=
  let* peerID := GetMandatoryParameter as_wallet_id TxParameterID.PeerID in
  let* address := getAddress peerID in
  ret (match address with
       | Some a => negb (m_OwnID a =? 0)
       | None => false
       end).

Definition SendInvitation (b : TxBuilder) (isSender : bool) : M unit :=
  let* sent := SendTxParameters
    [(TxParameterID.Amount, VInt (GetAmount b));
     (TxParameterID.Fee, VInt (GetFee b));
     (TxParameterID.MinHeight, VInt (GetMinHeight b));
     (TxParameterID.MaxHeight, VInt (GetMaxHeight b));
     (TxParameterID.IsSender, VBool (negb isSender));
     (TxParameterID.PeerProtoVersion, VInt s_ProtoVersion);
     (TxParameterID.PeerPublicExcess, VPoint (GetPublicExcess b));
     (TxParameterID.PeerPublicNonce, VPoint (GetPublicNonce b))] in
  if sent then ret tt else OnFailed TxFailureReason.FailedToSendParameters false.

(** The payment confirmation the receiver adds to [ConfirmInvitation]. *)
Definition signed_confirmation : M (list (TxParameterID.t * ParamValue)) :=
  let* widPeer := GetParameter as_wallet_id TxParameterID.PeerID in
  let* widMy := GetParameter as_wallet_id TxParameterID.MyID in
  let* kernelID := GetParameter as_hash TxParameterID.KernelID in
  let* value := GetParameter as_int TxParameterID.Amount in
  match widPeer, widMy, kernelID, value with
  | Some widPeer, Some widMy, Some kernelID, Some value =>
      let pc := mkPaymentConfirmation kernelID value widPeer (mkSignature 0 0) in
      let* waddr := getAddress widMy in
      match waddr with
      | Some a =>
          if m_OwnID a =? 0 then ret []
          else
            let sk := DeriveKey (mkKeyID (m_OwnID a) KeyType.Bbs 0) in
            ret [(TxParameterID.PaymentConfirmation,
                  VSignature (PaymentConfirmation_Sign pc sk))]
      | None => ret []
      end
  | _, _, _, _ => ret []
  end.

Definition ConfirmInvitation (b : TxBuilder) (sendUtxos : bool) : M unit :=
  let msg :=
    [(TxParameterID.PeerProtoVersion, VInt s_ProtoVersion);
     (TxParameterID.PeerPublicExcess, VPoint (GetPublicExcess b));
     (TxParameterID.PeerSignature, VScalar (GetPartialSignature b));
     (TxParameterID.PeerPublicNonce, VPoint (GetPublicNonce b))] in
  let msg :=
    if sendUtxos
    then msg ++ [(TxParameterID.PeerInputs, VInputs (GetInputs b));
                 (TxParameterID.PeerOutputs, VOutputs (GetOutputs b));
                 (TxParameterID.PeerOffset, VScalar (GetOffset b))]
    else msg in
  let* isSender := GetMandatoryParameter as_bool TxParameterID.IsSender in
  let* confirmation := if isSender then ret [] else signed_confirmation in
  let* _ := SendTxParameters (msg ++ confirmation) in
  ret tt.

Definition ConfirmTransaction (b : TxBuilder) (sendUtxos : bool) : M unit :=
  let* nVer := GetParameter as_int TxParameterID.PeerProtoVersion in
  match nVer with
  | Some _ => ret tt
  | None =>
      let msg := [(TxParameterID.PeerSignature, VScalar (GetPartialSignature b))] in
      let msg :=
        if sendUtxos
        then msg ++ [(TxParameterID.PeerInputs, VInputs (GetInputs b));
                     (TxParameterID.PeerOutputs, VOutputs (GetOutputs b));
                     (TxParameterID.PeerOffset, VScalar (GetOffset b))]
        else msg in
      let* _ := SendTxParameters msg in
      ret tt
  end.

Definition NotifyTransactionRegistered : M unit :=
  let* _ := SendTxParameters [(TxParameterID.TransactionRegistered, VBool true)] in
  ret tt.

(** The sender's check of the receiver's payment confirmation. *)
Definition payment_confirmed : M bool :=
  let* widPeer := GetParameter as_wallet_id TxParameterID.PeerID in
  let* widMy := GetParameter as_wallet_id TxParameterID.MyID in
  let* kernelID := GetParameter as_hash TxParameterID.KernelID in
  let* value := GetParameter as_int TxParameterID.Amount in
  let* sig := GetParameter as_signature TxParameterID.PaymentConfirmation in
  ret (match widPeer, widMy, kernelID, value, sig with
       | Some widPeer, Some widMy, Some kernelID, Some value, Some sig =>
           PaymentConfirmation_IsValid
             (mkPaymentConfirmation kernelID value widMy sig) widPeer
       | _, _, _, _, _ => false
       end).

(** The coin as the kernel proof at [hProof] leaves it. *)
Definition confirm_coin (hProof : Height) (c : Coin.t) : Coin.t :=
  if decide (Coin.m_status c = Coin.Outgoing)
  then Coin.with_status Coin.Spent c
  else Coin.with_maturity (add64 hProof Maturity_Std)
         (Coin.with_confirmHeight hProof (Coin.with_status Coin.Available c)).

(** [UpdateImpl], first part: from its start to the test of
    [TransactionRegistered] (everything before [Height hProof = 0;]).  It
    hands on the state it read and the builder, or leaves the function.
    The [assert]s are compiled out. *)
Definition UpdateImpl_negotiate : M (State.t * TxBuilder) :=
  let* isSender := GetMandatoryParameter as_bool TxParameterID.IsSender in
  let* isSelfTx := IsSelfTx in
  let* txState := GetState in
  let* amoutList :=
    (let* l := GetParameter as_amounts TxParameterID.AmountList in
     match l with
     | Some l => ret l
     | None => let* a := GetMandatoryParameter as_int TxParameterID.Amount in ret [a]
     end) in
  let* fee := GetMandatoryParameter as_int TxParameterID.Fee in
  let builder := TxBuilder_new amoutList fee in
  let* '(hasInitial, builder) := GetInitialTxParams builder in
  let* builder :=
    if negb hasInitial && bool_decide (txState = State.Initial) then
      let* builder :=
        if isSender
        then let* builder := SelectInputs builder in AddChangeOutput builder
        else ret builder in
      let* builder :=
        if isSelfTx || negb isSender
        then foldM (fun b amount => AddOutput b amount false) (GetAmountList builder) builder
        else ret builder in
      let* _ := FinalizeOutputs builder in
      let* _ := UpdateTxDescription TxStatus.InProgress in
      ret builder
    else ret builder in
  let* nAddrOwnID := GetParameter as_int TxParameterID.MyAddressID in
  let* _ :=
    match nAddrOwnID with
    | Some _ => ret tt
    | None =>
        let* wid := GetParameter as_wallet_id TxParameterID.MyID in
        match wid with
        | Some wid =>
            let* waddr := getAddress wid in
            match waddr with
            | Some a =>
                when (negb (m_OwnID a =? 0))
                     (SetParameter' TxParameterID.MyAddressID (VInt (m_OwnID a)))
            | None => ret tt
            end
        | None => ret tt
        end
    end in
  let* builder := CreateKernel builder in
  let* '(hasPeerExcess, builder) :=
    if isSelfTx then ret (true, builder) else GetPeerPublicExcessAndNonce builder in
  let* _ :=
    if negb isSelfTx && negb hasPeerExcess then
      let* _ := when (bool_decide (txState = State.Initial))
                     (let* _ := SendInvitation builder isSender in
                      SetState State.Invitation) in
      return_
    else ret tt in
  let* builder := SignPartial builder in
  let* '(hasPeersInputsAndOutputs, builder) := GetPeerInputsAndOutputs builder in
  let* '(hasPeerSignature, builder) :=
    if isSelfTx then ret (true, builder) else GetPeerSignature builder in
  let* _ :=
    if negb isSelfTx && negb hasPeerSignature then
      if bool_decide (txState = State.Initial) then
        let* _ := UpdateTxDescription TxStatus.Registered in
        let* _ := ConfirmInvitation builder (negb hasPeersInputsAndOutputs) in
        let* nVer := GetParameter as_int TxParameterID.PeerProtoVersion in
        let* _ :=
          match nVer with
          | Some _ =>
              let* _ := SetParameter' TxParameterID.TransactionRegistered (VBool true) in
              let* _ := SetState State.KernelConfirmation in
              ConfirmKernel (GetKernel builder)
          | None => SetState State.InvitationConfirmation
          end in
        return_
      else
        let* initiator := IsInitiator in
        if initiator then return_ else ret tt
    else ret tt in
  let* initiator := IsInitiator in
  let* _ :=
    if initiator && negb (IsPeerSignatureValid builder) then
      let* _ := OnFailed TxFailureReason.InvalidPeerSignature true in
      return_
    else ret tt in
  let* _ :=
    if negb isSelfTx && isSender then
      let* initiator := IsInitiator in
      if initiator then
        let* bSuccess := payment_confirmed in
        if bSuccess then ret tt
        else
          let* ver := get_PeerVersion in
          when (s_ProtoVersion <=? ver)
               (OnFailed TxFailureReason.InvalidPeerSignature OnFailed_notify_default)
      else ret tt
    else ret tt in
  let* builder := FinalizeSignature builder in
  let* isRegistered := GetParameter as_bool TxParameterID.TransactionRegistered in
  match isRegistered with
  | None =>
      let* _ :=
        if negb isSelfTx then
          let* mine :=
            if negb hasPeersInputsAndOutputs then ret true else IsInitiator in
          if mine then
            let* _ := when (bool_decide (txState = State.Invitation))
                           (let* _ := UpdateTxDescription TxStatus.Registered in
                            let* _ := ConfirmTransaction builder
                                        (negb hasPeersInputsAndOutputs) in
                            SetState State.PeerConfirmation) in
            if negb hasPeersInputsAndOutputs then return_ else ret tt
          else ret tt
        else ret tt in
      let transaction := CreateTransaction builder in
      if negb (Transaction_IsValid transaction) then
        let* _ := OnFailed TxFailureReason.InvalidTransaction true in
        return_
      else
        let* txID := GetTxID in
        let* _ := emit (register_tx txID transaction) in
        let* _ := SetState State.Registration in
        return_
  | Some false =>
      let* _ := OnFailed TxFailureReason.FailedToRegister true in
      return_
  | Some true => ret (txState, builder)
  end.

(** [UpdateImpl], second part: from [Height hProof = 0;] to the end. *)
Definition UpdateImpl_confirm (txState : State.t) (builder : TxBuilder) : M unit :=
  let* hProof := GetParameter as_int TxParameterID.KernelProofHeight in
  let hProof := default 0 hProof in
  if hProof =? 0 then
    let* _ :=
      when (bool_decide (txState = State.Registration))
           (let* nVer := GetParameter as_int TxParameterID.PeerProtoVersion in
            match nVer with
            | Some _ => ret tt
            | None => NotifyTransactionRegistered
            end) in
    let* _ := SetState State.KernelConfirmation in
    let* _ := ConfirmKernel (GetKernel builder) in
    return_
  else
    let* unconfirmed := GetUnconfirmedOutputs in
    let unconfirmed := confirm_coin hProof <$> unconfirmed in
    let* _ := save unconfirmed in
    CompleteTx.

Definition UpdateImpl : M unit :=
  let* '(txState, builder) := UpdateImpl_negotiate in
  UpdateImpl_confirm txState builder.

(** [SimpleTransaction::Update()]. *)
Definition SimpleTransaction_Update : M unit := Update UpdateImpl.

(** ** Reading a world *)

Definition param (paramID : TxParameterID.t) (w : World) : option ParamValue :=
  tx_params w !! (m_ID w, paramID).

Definition status_of (w : World) : option TxStatus.t :=
  param TxParameterID.Status w ≫= as_status.

Definition set_param (paramID : TxParameterID.t) (v : ParamValue) (w : World) : World :=
  with_tx_params (<[(m_ID w, paramID) := v]> (tx_params w)) w.

(** [Pending] and [InProgress], the statuses in which [NotifyFailure] sends. *)
Definition is_open (s : option TxStatus.t) : Prop :=
  s = Some TxStatus.Pending \/ s = Some TxStatus.InProgress.

(** The message [NotifyFailure] builds. *)
Definition failure_msg (from : WalletID) (txID : TxID) (reason : TxFailureReason.t)
    : SetTxParameter :=
  mkSetTxParameter from txID [(TxParameterID.FailureReason, VReason reason)].

Definition is_send (e : Event) : bool :=
  match e with send_tx_params _ _ => true | _ => false end.

(** The status [OnFailed] records for a reason. *)
Definition failed_status (reason : TxFailureReason.t) : TxStatus.t :=
  if decide (reason = TxFailureReason.Cancelled) then TxStatus.Cancelled else TxStatus.Failed.

(** The events a run added to those of the world it started in. *)
Definition new_events (w : World) (r : Outcome unit * World) : list Event :=
  drop (length (events w)) (events r.2).

(** The store keeps every coin under the coin's own identifier. *)
Definition coins_keyed (cs : gmap CoinID Coin.t) : Prop :=
  forall id c, cs !! id = Some c -> Coin.m_ID c = id.

(** From one world to a later one of the same [Update()]: the transaction
    is the same, its [KernelProofHeight] is as it was, and a store that kept
    its coins under their ids still does. *)
Definition frame (w w' : World) : Prop :=
  m_ID w' = m_ID w /\
  param TxParameterID.KernelProofHeight w' = param TxParameterID.KernelProofHeight w /\
  (coins_keyed (coins w) -> coins_keyed (coins w')).

Definition keeps {A} (m : M A) : Prop :=
  forall w o w', m w = (o, w') -> frame w w'.

(** From one world to a later one of the same [Update()]: what had been
    logged and asked of the gateway is still there, followed maybe by more,
    and as long as nothing has followed the coins are as they were. *)
Definition quiet (w w' : World) : Prop :=
  exists es, events w' = events w ++ es /\ (es = [] -> coins w' = coins w).

(** Code that changes no coin without an event before it. *)
Definition stays_quiet {A} (m : M A) : Prop :=
  forall w o w', m w = (o, w') -> quiet w w'.

(** Code that only reads the world. *)
Definition reads {A} (m : M A) : Prop :=
  forall w o w', m w = (o, w') -> w' = w.

Definition sumZ (l : list Z) : Z := foldr Z.add 0 l.

(** The values of the coins, summed as integers. *)
Definition sum_values (l : list Coin.t) : Z :=
  sumZ ((fun c => m_Value (Coin.m_ID c)) <$> l).

(** ** What [Update()] may do to a world *)

(** What the code of [Update()] writes into the bag: which parameter, and
    with what value. *)
Inductive written : TxParameterID.t -> ParamValue -> Prop :=
| written_Status s : s <> TxStatus.Pending -> written TxParameterID.Status (VStatus s)
| written_ModifyTime t : written TxParameterID.ModifyTime (VInt t)
| written_State s : s <> State.Initial -> written TxParameterID.State (VState s)
| written_Change a : written TxParameterID.Change (VInt a)
| written_Inputs l : written TxParameterID.Inputs (VInputs l)
| written_Outputs l : written TxParameterID.Outputs (VOutputs l)
| written_Offset k : written TxParameterID.Offset (VScalar k)
| written_BlindingExcess k : written TxParameterID.BlindingExcess (VScalar k)
| written_MyNonce h : written TxParameterID.MyNonce (VHash h)
| written_KernelID h : written TxParameterID.KernelID (VHash h)
| written_MyAddressID n : written TxParameterID.MyAddressID (VInt n)
| written_TransactionRegistered : written TxParameterID.TransactionRegistered (VBool true).

(** An event that is this transaction's own: a call on the gateway under its
    id, or a message that carries its id, from [MyID], to [PeerID]. *)
Definition concerns (w : World) (e : Event) : Prop :=
  match e with
  | send_tx_params peer msg =>
      param TxParameterID.PeerID w ≫= as_wallet_id = Some peer /\
      param TxParameterID.MyID w ≫= as_wallet_id = Some (msg_From msg) /\
      msg_TxID msg = m_ID w
  | register_tx id _ | confirm_kernel id _ | on_tx_completed id | log_failed id _ =>
      id = m_ID w
  end.

(** From one world to a later one, with nothing done but what [Update()]
    may do: the transaction, the address book, the tip, the clock and the
    random source are the same; the key counter has not gone back; an entry
    of the bag is as it was or is one this transaction has [written]; the
    events are the old ones followed by events of this transaction. *)
Definition confined (w w' : World) : Prop :=
  m_ID w' = m_ID w /\
  addresses w' = addresses w /\
  tip w' = tip w /\
  now w' = now w /\
  random w' = random w /\
  next_kid w <= next_kid w' /\
  (forall txID paramID,
     tx_params w' !! (txID, paramID) = tx_params w !! (txID, paramID) \/
     txID = m_ID w /\
     exists v, tx_params w' !! (txID, paramID) = Some v /\ written paramID v) /\
  exists es, events w' = events w ++ es /\ Forall (concerns w) es.

(** Code that stays [confined] when run for the transaction [txID]. *)
Definition stays_confined {A} (txID : TxID) (m : M A) : Prop :=
  forall w o w', m_ID w = txID -> m w = (o, w') -> confined w w'.

(** An event under the transaction's id. *)
Definition own_event (txID : TxID) (e : Event) : Prop :=
  match e with
  | send_tx_params _ _ => False
  | register_tx id _ | confirm_kernel id _ | on_tx_completed id | log_failed id _ => id = txID
  end.

(** The parameters of the invitation. *)
Definition invitation (b : TxBuilder) (isSender : bool) : list (TxParameterID.t * ParamValue) :=
  [(TxParameterID.Amount, VInt (GetAmount b));
   (TxParameterID.Fee, VInt (GetFee b));
   (TxParameterID.MinHeight, VInt (GetMinHeight b));
   (TxParameterID.MaxHeight, VInt (GetMaxHeight b));
   (TxParameterID.IsSender, VBool (negb isSender));
   (TxParameterID.PeerProtoVersion, VInt s_ProtoVersion);
   (TxParameterID.PeerPublicExcess, VPoint (GetPublicExcess b));
   (TxParameterID.PeerPublicNonce, VPoint (GetPublicNonce b))].

(** ** The sender without a payment confirmation *)







End Transaction.

(** ** Concrete runs *)

(** A stand-in for the curve library: the operations are total and simple,
    every signature and every transaction passes. *)
Definition toy_crypto : Crypto := {|
  scalar_add := Z.add;
  scalar_neg := Z.opp;
  point_add := Z.add;
  G_mul := fun k => k;
  calcCommitment := fun id => (m_Idx id, m_Value id);
  Output_Create := fun id => (m_Idx id, m_Value id);
  DeriveKey := fun kid => kid_Idx kid;
  DeriveNonce := fun h => h;
  Kernel_get_Hash := fun k => k_Commitment k;
  Kernel_get_ID := fun k => k_Commitment k + 1;
  MultiSig_SignPartial := fun nonce _ _ sk => nonce + sk;
  IsValidPartial := fun _ _ _ _ => true;
  PaymentConfirmation_IsValid := fun _ _ => true;
  PaymentConfirmation_Sign := fun _ sk => mkSignature 0 sk;
  Transaction_IsValid := fun _ => true;
  Transaction_Normalize := fun t => t
|}.

(** A selection policy: every [Available] coin, if together they reach the
    amount, each handed out as [Outgoing]; none otherwise. *)
Definition select_all (cs : gmap CoinID Coin.t) (amount : Amount) : list Coin.t :=
  let available :=
    List.filter (fun c => bool_decide (Coin.m_status c = Coin.Available))
                ((map_to_list cs).*2) in
  if sum_values available <? amount then []
  else Coin.with_status Coin.Outgoing <$> available.

Definition only_std_exception (paramID : TxParameterID.t) : Exn := std_exception.

Definition toy_settings : Settings := {|
  Maturity_Std := 60;
  select_policy := select_all;
  missing_parameter := only_std_exception
|}.

Definition run_Update : M unit := @SimpleTransaction_Update toy_crypto toy_settings.
Definition run_UpdateImpl : M unit := @UpdateImpl toy_crypto toy_settings.

Definition coin (idx : Z) (value : Amount) (status : Coin.Status)
    (createTxId spentTxId : option TxID) : Coin.t :=
  Coin.mk (mkCoinID idx KeyType.Regular 0 value) status 0 0 0 MaxHeight
          createTxId spentTxId 0.

Definition store_of (l : list Coin.t) : gmap CoinID Coin.t :=
  list_to_map ((fun c => (Coin.m_ID c, c)) <$> l).

Definition bag_of (txID : TxID) (l : list (TxParameterID.t * ParamValue))
    : gmap (TxID * TxParameterID.t) ParamValue :=
  list_to_map ((fun kv => ((txID, kv.1), kv.2)) <$> l).

Definition world (l : list (TxParameterID.t * ParamValue)) (cs : list Coin.t)
    (tip : option Height) : World :=
  mkWorld (bag_of 7 l) (store_of cs) ∅ 10 tip [] 1000 555 7 None.

(** The sender's transaction as created: 10 to send, fee 1, valid up to
    height 50. *)
Definition sender_params : list (TxParameterID.t * ParamValue) :=
  [(TxParameterID.Amount, VInt 10); (TxParameterID.Fee, VInt 1);
   (TxParameterID.IsSender, VBool true); (TxParameterID.IsInitiator, VBool true);
   (TxParameterID.MyID, VWalletID 100); (TxParameterID.PeerID, VWalletID 200);
   (TxParameterID.MaxHeight, VInt 50);
   (TxParameterID.Status, VStatus TxStatus.Pending)].

Definition three_coins : list Coin.t :=
  [coin 1 4 Coin.Available None None; coin 2 5 Coin.Available None None;
   coin 3 7 Coin.Available None None].

Definition sender_start (tip : option Height) : World :=
  world sender_params three_coins tip.

(** The same transaction with 5 in the store. *)
Definition sender_poor : World :=
  world sender_params [coin 1 5 Coin.Available None None] (Some 40).

(** The sender's transaction registered and waiting for its kernel proof,
    which is in the bag at height 60. *)
Definition proof_params (registered : bool) : list (TxParameterID.t * ParamValue) :=
  [(TxParameterID.Amount, VInt 10); (TxParameterID.Fee, VInt 1);
   (TxParameterID.IsSender, VBool true); (TxParameterID.IsInitiator, VBool true);
   (TxParameterID.MyID, VWalletID 100); (TxParameterID.PeerID, VWalletID 200);
   (TxParameterID.MaxHeight, VInt 50);
   (TxParameterID.Status, VStatus TxStatus.Registered);
   (TxParameterID.State, VState State.KernelConfirmation);
   (TxParameterID.Inputs, VInputs [4; 7]);
   (TxParameterID.Outputs, VOutputs [5]);
   (TxParameterID.BlindingExcess, VScalar 10); (TxParameterID.Offset, VScalar 3);
   (TxParameterID.MyNonce, VHash 555);
   (TxParameterID.PeerPublicExcess, VPoint 20);
   (TxParameterID.PeerPublicNonce, VPoint 30);
   (TxParameterID.PeerSignature, VScalar 40);
   (TxParameterID.PaymentConfirmation, VSignature (mkSignature 0 9));
   (TxParameterID.TransactionRegistered, VBool registered);
   (TxParameterID.KernelProofHeight, VInt 60)].

Definition proof_coins : list Coin.t :=
  [coin 1 4 Coin.Outgoing None (Some 7); coin 2 5 Coin.Available None None;
   coin 3 7 Coin.Outgoing None (Some 7); coin 11 5 Coin.Incoming (Some 7) None].

Definition proof_arrived (registered : bool) (tip : Height) : World :=
  world (proof_params registered) proof_coins (Some tip).

(** The invited sender in state [Invitation], the peer's excess and nonce
    known, [IsInitiator] missing from the bag. *)
Definition initiator_unknown : World :=
  world [(TxParameterID.Amount, VInt 10); (TxParameterID.Fee, VInt 1);
         (TxParameterID.IsSender, VBool true);
         (TxParameterID.MyID, VWalletID 100); (TxParameterID.PeerID, VWalletID 200);
         (TxParameterID.Status, VStatus TxStatus.InProgress);
         (TxParameterID.State, VState State.Invitation);
         (TxParameterID.PeerPublicExcess, VPoint 20);
         (TxParameterID.PeerPublicNonce, VPoint 30)]
        three_coins (Some 40).

(** A transaction in progress for which the peer reported a failure. *)
Definition peer_failed : World :=
  world ((TxParameterID.FailureReason, VReason TxFailureReason.InvalidPeerSignature)
         :: (TxParameterID.Status, VStatus TxStatus.InProgress)
         :: (TxParameterID.State, VState State.Invitation) :: sender_params)
        [coin 1 4 Coin.Outgoing None (Some 7); coin 2 5 Coin.Available None None;
         coin 3 7 Coin.Outgoing None (Some 7)]
        (Some 51).

(** A check of [coins_keyed] that computes. *)
Definition keyed_check (cs : gmap CoinID Coin.t) : bool :=
  forallb (fun kv => bool_decide (Coin.m_ID kv.2 = kv.1)) (map_to_list cs).

Definition id_of (idx : Z) (value : Amount) : CoinID := mkCoinID idx KeyType.Regular 0 value.

(** What the first part of [UpdateImpl] hands on in [proof_arrived true 61]. *)
Definition negotiated : Outcome (State.t * TxBuilder) * World :=
  @UpdateImpl_negotiate toy_crypto toy_settings (proof_arrived true 61).

Definition negotiated_builder : TxBuilder :=
  match negotiated.1 with
  | Val (_, builder) => builder
  | _ => TxBuilder_new [] 0
  end.

(** What [UpdateImpl] leaves when the tip is at 51: the invitation is sent. *)
Definition invited : World := (call run_UpdateImpl (sender_start (Some 51))).2.

(** The sender's transaction, still [Pending], with a failure reported by
    the peer in the bag. *)
Definition peer_failed_early : World :=
  world ((TxParameterID.FailureReason, VReason TxFailureReason.InvalidPeerSignature)
         :: sender_params)
        three_coins (Some 40).




End Wallet.

(* ===================================================================== *)
(** * The wallet model of the UI (ui/model/wallet_model.cpp) *)
(* ===================================================================== *)

Module WalletModel.

Import Wallet.

(** ** Addresses (wallet/wallet_db.h) *)

(** [WalletAddress] with all its fields; the transaction code reads four of
    them.  [Timestamp] and the duration are 64-bit unsigned. *)
Module Address.
Record t := mk {
  m_walletID : WalletID;
  m_label : string;
  m_category : string;
  m_createTime : Timestamp;
  m_duration : Z;
  m_OwnID : Z
}.

(** [WalletAddress()]: 24 hours to live, not an own address. *)
Definition new : t := mk 0 "" "" 0 (24 * 60 * 60) 0.

Definition with_walletID (v : WalletID) (a : t) : t :=
  mk v (m_label a) (m_category a) (m_createTime a) (m_duration a) (m_OwnID a).
Definition with_label (v : string) (a : t) : t :=
  mk (m_walletID a) v (m_category a) (m_createTime a) (m_duration a) (m_OwnID a).
Definition with_createTime (v : Timestamp) (a : t) : t :=
  mk (m_walletID a) (m_label a) (m_category a) v (m_duration a) (m_OwnID a).
Definition with_duration (v : Z) (a : t) : t :=
  mk (m_walletID a) (m_label a) (m_category a) (m_createTime a) v (m_OwnID a).

Definition getCreateTime (a : t) : Timestamp := m_createTime a.

(** [Timestamp(-1)] for an address that never expires. *)
Definition getExpirationTime (a : t) : Timestamp :=
  if m_duration a =? 0 then wrap64 (-1)
  else add64 (m_createTime a) (m_duration a).

(** [isExpired()], at the time [getTimestamp()] gives. *)
Definition isExpired (now : Timestamp) (a : t) : bool :=
  getExpirationTime a <? now.
End Address.

(** ** The model's state and what it does to the outside *)

(** [wallet::ErrorType], the values this file names. *)
Inductive ErrorType :=
| NodeProtocolBase | NodeProtocolIncompatible | TimeOutOfSync
| ConnectionTimedOut | ConnectionRefused.

(** [proto::NodeProcessingException::Type] and [io::ErrorCode]: the values
    the switches name, and the rest. *)
Inductive ProcessingType := Incompatible | ProcessingTimeOutOfSync | OtherProcessing.
Inductive IoErrorCode := EC_ETIMEDOUT | EC_ECONNREFUSED | OtherIoError.

(** [proto::NodeConnection::DisconnectReason]: its type, with the detail
    that goes with it. *)
Inductive DisconnectReason :=
| ProcessingExc (exceptionType : ProcessingType)
| Io (ioError : IoErrorCode)
| OtherReason.

(** The signals the model emits, and the calls it makes on the wallet and on
    the wallet's network, in the order they are made. *)
Inductive Effect :=
| cantSendToExpired
| sendMoneyVerified
| onChangeCalculated (change : Amount)
| onWalletError (error : ErrorType)
| nodeConnectionChanged (isNodeConnected : bool)
| onGeneratedNewAddress (a : Address.t)
| AddOwnAddress (a : Address.t)
| DeleteOwnAddress (ownID : Z)
| transfer_money (from to : WalletID) (amount fee : Amount) (sender : bool)
                 (lifetime : Height) (message : string).

Record Model := mkModel {
  (* _walletDB *)
  book : gmap WalletID Address.t;
  stored_coins : gmap CoinID Coin.t;
  (* getTimestamp() *)
  clock : Timestamp;
  (* whether _wallet.lock() and _walletNetwork.lock() give an object *)
  wallet_alive : bool;
  network_alive : bool;
  _isConnected : bool;
  _walletError : option ErrorType;
  effects : list Effect
}.

Definition with_book (v : gmap WalletID Address.t) (m : Model) : Model :=
  mkModel v (stored_coins m) (clock m) (wallet_alive m) (network_alive m)
          (_isConnected m) (_walletError m) (effects m).
Definition with_isConnected (v : bool) (m : Model) : Model :=
  mkModel (book m) (stored_coins m) (clock m) (wallet_alive m) (network_alive m)
          v (_walletError m) (effects m).
Definition with_walletError (v : option ErrorType) (m : Model) : Model :=
  mkModel (book m) (stored_coins m) (clock m) (wallet_alive m) (network_alive m)
          (_isConnected m) v (effects m).

Definition perform (e : Effect) (m : Model) : Model :=
  mkModel (book m) (stored_coins m) (clock m) (wallet_alive m) (network_alive m)
          (_isConnected m) (_walletError m) (effects m ++ [e]).

(** ** The store's address book *)

(** Modelled from the spec: addresses are "persisted by id", with "address
    CRUD" on the store; wallet_db.cpp is not among the sources. *)
Definition db_getAddress (id : WalletID) (m : Model) : option Address.t := book m !! id.
Definition db_saveAddress (a : Address.t) (m : Model) : Model :=
  with_book (<[Address.m_walletID a := a]> (book m)) m.
Definition db_deleteAddress (id : WalletID) (m : Model) : Model :=
  with_book (delete id (book m)) m.

(** ** The model's slots *)

Section Slots.

Context {settings : Settings}.

(** [wallet::createAddress] (wallet_db.cpp, not among the sources): the new
    own address it makes for the store, [None] when it throws.  It
    allocates a key id and writes neither the address book nor the coins. *)
Variable createAddress : Model -> option Address.t.

Definition saveAddress (address : Address.t) (bOwn : bool) (m : Model) : Model :=
  let m := db_saveAddress address m in
  if bOwn && network_alive m then perform (AddOwnAddress address) m else m.

(** The receiver's address as [sendMoney] writes it down. *)
Definition peer_address (receiver : WalletID) (comment : string) (m : Model) : Address.t :=
  Address.with_label comment
    (Address.with_createTime (clock m) (Address.with_walletID receiver Address.new)).

(** [sendMoney]; an exception ends it where it is thrown, and is dropped. *)
Definition sendMoney (receiver : WalletID) (comment : string) (amount fee : Amount)
    (m : Model) : Model :=
  let receiverAddr := db_getAddress receiver m in
  if match receiverAddr with
     | Some a => Address.isExpired (clock m) a
     | None => false
     end
  then perform cantSendToExpired m
  else
    let m := match receiverAddr with
             | Some _ => m
             | None => saveAddress (peer_address receiver comment m) false m
             end in
    match createAddress m with
    | None => m
    | Some senderAddress =>
        let senderAddress := Address.with_label comment senderAddress in
        let m := saveAddress senderAddress true m in
        let m := if wallet_alive m
                 then perform (transfer_money (Address.m_walletID senderAddress) receiver
                                           amount fee true 120 comment) m
                 else m in
        perform sendMoneyVerified m
    end.

(** Modelled from the spec: [selectCoins(amount, lock)] with [lock = false]
    chooses as it does with [lock = true] and writes nothing back. *)
Definition db_selectCoins_unlocked (amount : Amount) (m : Model) : list Coin.t :=
  select_policy (stored_coins m) amount.

Definition calcChange (amount : Amount) (m : Model) : Model :=
  let coins := db_selectCoins_unlocked amount m in
  let sum := foldl (fun sum c => add64 sum (m_Value (Coin.m_ID c))) 0 coins in
  if sum <? amount then perform (onChangeCalculated 0) m
  else perform (onChangeCalculated (sub64 sum amount)) m.

Definition generateNewAddress (m : Model) : Model :=
  match createAddress m with
  | Some address => perform (onGeneratedNewAddress address) m
  | None => m
  end.

Definition deleteAddress (id : WalletID) (m : Model) : Model :=
  match db_getAddress id m with
  | Some a =>
      let m := if negb (Address.m_OwnID a =? 0) && network_alive m
               then perform (DeleteOwnAddress (Address.m_OwnID a)) m
               else m in
      db_deleteAddress id m
  | None => m
  end.

(** [saveAddressChanges]; the [assert] is compiled out. *)
Definition saveAddressChanges (id : WalletID) (name : string)
    (isNever makeActive makeExpired : bool) (m : Model) : Model :=
  match db_getAddress id m with
  | Some addr =>
      if negb (Address.m_OwnID addr =? 0) then
        let addr := Address.with_label name addr in
        let addr :=
          if makeExpired then
            Address.with_duration (sub64 (sub64 (clock m) (Address.m_createTime addr)) 1) addr
          else if isNever then Address.with_duration 0 addr
          else if (Address.m_duration addr =? 0) || makeActive then
            Address.with_duration (24 * 60 * 60) (Address.with_createTime (clock m) addr)
          else addr in
        let m := db_saveAddress addr m in
        if network_alive m then perform (AddOwnAddress addr) m else m
      else m                                 (* "It's not implemented!" *)
  | None => m                                (* logged *)
  end.

End Slots.

(** ** The connection to the node *)

Definition GetWalletError_processing (exceptionType : ProcessingType) : ErrorType :=
  match exceptionType with
  | Incompatible => NodeProtocolIncompatible
  | ProcessingTimeOutOfSync => TimeOutOfSync
  | OtherProcessing => NodeProtocolBase
  end.

Definition GetWalletError_io (errorCode : IoErrorCode) : ErrorType :=
  match errorCode with
  | EC_ETIMEDOUT => ConnectionTimedOut
  | EC_ECONNREFUSED => ConnectionRefused
  | OtherIoError => NodeProtocolBase
  end.

Definition onNodeConnectedStatusChanged (isNodeConnected : bool) (m : Model) : Model :=
  perform (nodeConnectionChanged isNodeConnected) (with_isConnected isNodeConnected m).

Definition onNodeConnectionFailed (reason : DisconnectReason) (m : Model) : Model :=
  let m := with_isConnected false m in
  match reason with
  | ProcessingExc exceptionType =>
      let e := GetWalletError_processing exceptionType in
      perform (onWalletError e) (with_walletError (Some e) m)
  | Io ioError =>
      let e := GetWalletError_io ioError in
      perform (onWalletError e) (with_walletError (Some e) m)
  | OtherReason => m
  end.

Definition getNetworkStatus (m : Model) : Model :=
  match _walletError m with
  | Some e => if negb (_isConnected m) then perform (onWalletError e) m
              else perform (nodeConnectionChanged (_isConnected m)) m
  | None => perform (nodeConnectionChanged (_isConnected m)) m
  end.

(** What the node's network reports to the model. *)
Inductive NodeEvent :=
| OnNodeConnected (bConnected : bool)
| OnConnectionFailed (reason : DisconnectReason).

Definition on_node_event (e : NodeEvent) (m : Model) : Model :=
  match e with
  | OnNodeConnected b => onNodeConnectedStatusChanged b m
  | OnConnectionFailed reason => onNodeConnectionFailed reason m
  end.

Definition on_node_events (es : list NodeEvent) (m : Model) : Model :=
  foldl (fun m e => on_node_event e m) m es.

(** ** Reading a model *)

(** The error a disconnect reason is recorded as, if it is recorded. *)
Definition error_of (reason : DisconnectReason) : option ErrorType :=
  match reason with
  | ProcessingExc exceptionType => Some (GetWalletError_processing exceptionType)
  | Io ioError => Some (GetWalletError_io ioError)
  | OtherReason => None
  end.

(** The error recorded after the events [es], and whether the model then
    holds the node for connected. *)
Definition last_error (es : list NodeEvent) (e0 : option ErrorType) : option ErrorType :=
  foldl (fun acc ev =>
           match ev with
           | OnConnectionFailed reason =>
               match error_of reason with Some e => Some e | None => acc end
           | OnNodeConnected _ => acc
           end) e0 es.

Definition connected_after (es : list NodeEvent) (c0 : bool) : bool :=
  foldl (fun acc ev =>
           match ev with
           | OnNodeConnected b => b
           | OnConnectionFailed _ => false
           end) c0 es.

(** The effects a run added. *)
Definition new_effects (m m' : Model) : list Effect :=
  drop (length (effects m)) (effects m').

(** ** Concrete runs *)

(** A model over the coins of [sender_start], with one address in its book,
    a shop's that never expires; and a [createAddress] that always makes
    the same own address. *)
Definition sender_300 : Address.t := Address.mk 300 "" "" 1000 (24 * 60 * 60) 5.

Definition new_sender (m : Model) : option Address.t := Some sender_300.

Definition shop_known : Model :=
  mkModel {[ 200 := Address.mk 200 "shop" "" 500 0 0 ]} (coins (sender_start None))
          1000 true true false None [].

End WalletModel.

(* ===================================================================== *)
(** * Properties of the stratum server *)
(* ===================================================================== *)

Module StratumProperties.

Import Stratum.

(** ** Properties of the access control *)

Lemma read_keys_fold (lines : list string) (acc : gset string) (k : string) :
  k ∈ foldl (fun keys line =>
               let line := trim line in
               if (String.length line <? 8)%nat then keys else {[ line ]} ∪ keys)
            acc lines
  <-> k ∈ acc \/
      exists line, In line lines /\ k = trim line /\ (8 <= String.length k)%nat.
Proof.
  revert acc. induction lines as [|l lines IH]; intros acc; simpl.
  - split; [auto | intros [H | (line & [] & _)]; exact H].
  - rewrite IH. destruct (Nat.ltb_spec (String.length (trim l)) 8) as [Hlt | Hge].
    + split.
      * intros [H | (line & Hin & Hk & Hlen)]; [auto | right; exists line; auto].
      * intros [H | (line & [<- | Hin] & Hk & Hlen)]; [auto | subst k; lia | ].
        right. exists line. auto.
    + rewrite elem_of_union, elem_of_singleton. split.
      * intros [[-> | H] | (line & Hin & Hk & Hlen)]; [ | auto | ].
        -- right. exists l. auto.
        -- right. exists line. auto.
      * intros [H | (line & [<- | Hin] & Hk & Hlen)]; [auto | auto | ].
        right. exists line. auto.
Qed.

Lemma read_keys_spec (f : File) (k : string) :
  k ∈ read_keys (content f) <-> key_line_of k f.
Proof.
  unfold read_keys, key_line_of. destruct (content f) as [text|].
  - rewrite read_keys_fold. split.
    + intros [H | (line & Hin & Hk & Hlen)]; [set_solver | ].
      exists text, line. auto.
    + intros (text' & line & [= <-] & Hin & Hk & Hlen). right. exists line. auto.
  - split; [set_solver | intros (text & line & [=] & _)].
Qed.

Lemma refresh_enabled (fs : FS) (acl : AccessControl) :
  _enabled (refresh fs acl) = _enabled acl.
Proof.
  unfold refresh. destruct (_enabled acl) eqn:E; simpl; [ | exact E].
  destruct (fs _) as [f|]; [ | exact E].
  destruct (mtime f <=? _lastModified acl); [exact E | reflexivity].
Qed.

Lemma refresh_keys_from (fs : FS) (acl : AccessControl) (last : option File) :
  keys_from acl last ->
  keys_from (refresh fs acl)
            (match reloads fs acl with Some f => Some f | None => last end).
Proof.
  intros Hinv. unfold refresh, reloads.
  destruct (_enabled acl); simpl; [ | exact Hinv].
  destruct (fs _) as [f|]; [ | exact Hinv].
  destruct (mtime f <=? _lastModified acl); [exact Hinv | ].
  intros k Hk. simpl in Hk. exists f. split; [reflexivity | ].
  apply read_keys_spec, Hk.
Qed.

Lemma run_keys_from (fss : list FS) (acl : AccessControl) (last : option File) :
  keys_from acl last ->
  keys_from (foldl (fun acl fs => refresh fs acl) acl fss) (last_reload acl last fss).
Proof.
  revert acl last. induction fss as [|fs fss IH]; intros acl last Hinv; simpl.
  - exact Hinv.
  - apply IH, refresh_keys_from, Hinv.
Qed.

Lemma run_enabled (fss : list FS) (acl : AccessControl) :
  _enabled (foldl (fun acl fs => refresh fs acl) acl fss) = _enabled acl.
Proof.
  revert acl. induction fss as [|fs fss IH]; intros acl; simpl; [reflexivity | ].
  rewrite IH. apply refresh_enabled.
Qed.

Lemma acl_run_enabled (path : string) (fs0 : FS) (later : list FS) :
  _enabled (acl_run path fs0 later) = negb (String.eqb path "").
Proof.
  unfold acl_run, AccessControl_new. rewrite run_enabled, refresh_enabled. reflexivity.
Qed.

(** C7. With a key file configured, [check k] holds only for a key [k] that
    was the trimmed text, at least 8 characters long, of a line of the key
    file as read by the last refresh that passed the [mtime] test, and so
    never for a key shorter than 8; with an empty path every key passes. *)
Theorem acl_check_sound (path : string) (fs0 : FS) (later : list FS) (k : string) :
  (path <> "" -> check k (acl_run path fs0 later) = true ->
     exists f, acl_last_reload path fs0 later = Some f /\ key_line_of k f) /\
  (path <> "" -> (String.length k < 8)%nat -> check k (acl_run path fs0 later) = false) /\
  (path = "" -> check k (acl_run path fs0 later) = true).
Proof.
  assert (Hinv : keys_from (acl_run path fs0 later) (acl_last_reload path fs0 later)).
  { unfold acl_run, AccessControl_new, acl_last_reload.
    change (foldl _ (refresh fs0 ?a) later)
      with (foldl (fun acl fs => refresh fs acl) a (fs0 :: later)).
    apply run_keys_from. intros k' Hk'. simpl in Hk'. set_solver. }
  assert (Hen : path <> "" -> _enabled (acl_run path fs0 later) = true).
  { intros Hne. rewrite acl_run_enabled. apply negb_true_iff.
    apply String.eqb_neq, Hne. }
  split; [ | split].
  - intros Hne Hc. unfold check in Hc. rewrite (Hen Hne) in Hc. simpl in Hc.
    apply bool_decide_eq_true in Hc. apply Hinv, Hc.
  - intros Hne Hlen. unfold check. rewrite (Hen Hne). simpl.
    apply bool_decide_eq_false. intros Hin.
    destruct (Hinv k Hin) as (f & _ & (text & line & _ & _ & _ & Hge)). lia.
  - intros ->. unfold check. rewrite acl_run_enabled. reflexivity.
Qed.

Lemma acl_check_sound_witness :
  (exists f, acl_last_reload "keys.txt" keys_txt [keys_txt] = Some f /\
             key_line_of "secret-key-1" f) /\
  check "short" (acl_run "keys.txt" keys_txt [keys_txt]) = false /\
  check "anything" (acl_run "" keys_txt [keys_txt]) = true.
Proof.
  split; [ | split].
  - apply (proj1 (acl_check_sound "keys.txt" keys_txt [keys_txt] "secret-key-1")).
    + discriminate.
    + vm_compute. reflexivity.
  - apply (proj1 (proj2 (acl_check_sound "keys.txt" keys_txt [keys_txt] "short"))).
    + discriminate.
    + simpl. lia.
  - apply (proj2 (proj2 (acl_check_sound "" keys_txt [keys_txt] "anything"))).
    reflexivity.
Defined.

Section ServerProperties.

Variable fill_pow : Solution -> PoW -> PoW.

Lemma on_solution_stored (s : Server) (from : Z) (sol : Solution) (cb : BlockFound) :
  onBlockFound (_recentResult s) = Some cb ->
  on_solution fill_pow from sol s =
  Returned true
    (mkServer (_connections s) (_recentJob s)
       (mkRecentResult (sol_id sol) (fill_pow sol (res_pow (_recentResult s)))
                       (Some cb) from)
       (_acl s) (_currentMsg s) (_deadConnections s) (found_calls s ++ [cb])).
Proof. intros H. unfold on_solution. simpl. rewrite H. reflexivity. Qed.

Lemma new_job_recentResult id input pow height cb (s : Server) :
  _recentResult (new_job id input pow height cb s) =
  mkRecentResult (res_id (_recentResult s)) (res_pow (_recentResult s)) (Some cb)
                 (resultFrom (_recentResult s)).
Proof. reflexivity. Qed.

Lemma new_job_found_calls id input pow height cb (s : Server) :
  found_calls (new_job id input pow height cb s) = found_calls s.
Proof. reflexivity. Qed.

Lemma last_cons {A} (a d : A) (l : list A) : List.last (a :: l) d = List.last l a.
Proof.
  revert a d. induction l as [|b l IH]; intros a d; [reflexivity | ].
  change (List.last (a :: b :: l) d) with (List.last (b :: l) d).
  rewrite !IH. reflexivity.
Qed.

Lemma on_solutions_calls (sols : list (Z * Solution)) (s : Server) (cb : BlockFound) :
  onBlockFound (_recentResult s) = Some cb ->
  exists s',
    on_solutions fill_pow sols s = Returned true s' /\
    found_calls s' = found_calls s ++ replicate (length sols) cb /\
    resultFrom (_recentResult s') =
      List.last (fst <$> sols) (resultFrom (_recentResult s)) /\
    _connections s' = _connections s.
Proof.
  revert s. induction sols as [|[from sol] sols IH]; intros s Hcb.
  - exists s. simpl. rewrite app_nil_r. auto.
  - simpl on_solutions. rewrite (on_solution_stored _ _ _ _ Hcb).
    edestruct IH as (s' & Hrun & Hcalls & Hfrom & Hconn); [ | rewrite Hrun].
    { reflexivity. }
    exists s'. split; [reflexivity | ]. split; [ | split].
    + rewrite Hcalls. simpl. rewrite <- app_assoc. reflexivity.
    + rewrite Hfrom, fmap_cons, last_cons. reflexivity.
    + rewrite Hconn. reflexivity.
Qed.

(** C9. Whatever job is current, and also once [stop_current] has cleared
    its id, [on_solution] overwrites the most recent result with the
    solution's id, proof of work and sender, and calls the stored callback. *)
Theorem on_solution_any_job_id (s : Server) (from : Z) (sol : Solution) (cb : BlockFound) :
  onBlockFound (_recentResult s) = Some cb ->
  forall s0, s0 = s \/ s0 = stop_current s ->
  exists s',
    on_solution fill_pow from sol s0 = Returned true s' /\
    res_id (_recentResult s') = sol_id sol /\
    res_pow (_recentResult s') = fill_pow sol (res_pow (_recentResult s)) /\
    resultFrom (_recentResult s') = from /\
    found_calls s' = found_calls s ++ [cb] /\
    job_id (_recentJob s') = job_id (_recentJob s0).
Proof.
  intros Hcb s0 [-> | ->]; eexists; (split; [apply on_solution_stored; exact Hcb | ]);
    simpl; auto.
Qed.

(** C5, as the code has it. After [new_job] the callback is called once for
    each solution message, whatever job id it carries, and the most recent
    result names the sender of the last one.  [solution_result] hands its
    reply to that peer's connection and to no other; a logged-in peer whose
    stream takes the write receives exactly the reply frame. *)
Theorem solutions_each_call_onFound :
  (forall s0 id input pow height cb sols,
     exists s',
       on_solutions fill_pow sols (new_job id input pow height cb s0) = Returned true s' /\
       found_calls s' = found_calls s0 ++ replicate (length sols) cb /\
       resultFrom (_recentResult s') =
         List.last (fst <$> sols) (resultFrom (_recentResult s0))) /\
  (forall s jobID accepted blockId conn,
     _connections s !! resultFrom (_recentResult s) = Some conn ->
     let msg := _currentMsg s ++ [reply_frame jobID accepted blockId] in
     exists s',
       solution_result jobID accepted blockId s = Returned tt s' /\
       _connections s' =
         <[resultFrom (_recentResult s) := snd (send_msg msg true false conn)]>
           (_connections s) /\
       (forall p, p <> resultFrom (_recentResult s) -> sent_to p s' = sent_to p s) /\
       (forall st, _loggedIn conn = true -> _stream conn = Some st -> writable st = true ->
          sent_to (resultFrom (_recentResult s)) s' = written st ++ [msg])).
Proof.
  split.
  - intros s0 id input pow height cb sols.
    destruct (on_solutions_calls sols (new_job id input pow height cb s0) cb)
      as (s' & Hrun & Hcalls & Hfrom & _).
    { rewrite new_job_recentResult. reflexivity. }
    exists s'. rewrite Hrun, Hcalls, Hfrom, new_job_found_calls, new_job_recentResult.
    auto.
  - intros s jobID accepted blockId conn Hconn msg.
    unfold solution_result.
    assert (Happ : (if negb accepted
                    then append_json_msg (ResultFrame jobID solution_rejected) s
                    else append_json_msg
                           (SolutionResultFrame jobID solution_accepted
                              (m_Hash blockId) (m_Height blockId)) s)
                   = with_currentMsg msg s).
    { subst msg. unfold reply_frame. destruct accepted; reflexivity. }
    rewrite Happ. simpl. rewrite Hconn.
    destruct (send_msg msg true false conn) as [sent conn'] eqn:Hsend.
    eexists. split; [reflexivity | ]. simpl. split; [reflexivity | ]. split.
    + intros p Hp. unfold sent_to. simpl. rewrite lookup_insert_ne by congruence.
      reflexivity.
    + intros st Hin Hst Hw. unfold sent_to. simpl. rewrite lookup_insert_eq.
      unfold send_msg in Hsend. rewrite Hin, Hst, Hw in Hsend. simpl in Hsend.
      injection Hsend as _ <-. reflexivity.
Qed.

End ServerProperties.

Lemma on_solution_any_job_id_witness :
  exists s',
    on_solution hex_fill_pow 2 (mkSolution "J0" "1f" "2e") (stop_current job_J1)
      = Returned true s' /\
    res_id (_recentResult s') = "J0" /\
    res_pow (_recentResult s') =
      hex_fill_pow (mkSolution "J0" "1f" "2e") (res_pow (_recentResult job_J1)) /\
    resultFrom (_recentResult s') = 2 /\
    found_calls s' = found_calls job_J1 ++ [7%nat] /\
    job_id (_recentJob s') = job_id (_recentJob (stop_current job_J1)).
Proof.
  apply (on_solution_any_job_id hex_fill_pow job_J1 2 (mkSolution "J0" "1f" "2e") 7%nat).
  - vm_compute. reflexivity.
  - right. reflexivity.
Defined.

Lemma solutions_each_call_onFound_witness :
  exists s',
    solution_result "J1" true block_100
      (ended_server (on_solution hex_fill_pow 2 (mkSolution "J1" "1f" "2e") job_J1))
      = Returned tt s' /\
    sent_to 1 s' = sent_to 1 job_J1 /\
    sent_to 2 s' =
      sent_to 2 job_J1 ++ [[SolutionResultFrame "J1" solution_accepted "abcd" 100]].
Proof.
  pose (s := ended_server (on_solution hex_fill_pow 2 (mkSolution "J1" "1f" "2e") job_J1)).
  pose (conn := mkConnection 2
                  (Some (mkStream true [[JobFrame "J1" "input" (mkPoW "" "" 5) 100]] false))
                  true).
  destruct (proj2 (solutions_each_call_onFound hex_fill_pow) s "J1" true block_100 conn)
    as (s' & Hrun & _ & Hothers & Hpeer).
  { vm_compute. reflexivity. }
  exists s'. split; [exact Hrun | ]. split.
  - rewrite (Hothers 1) by (vm_compute; discriminate). vm_compute. reflexivity.
  - refine (eq_trans
              (Hpeer (mkStream true [[JobFrame "J1" "input" (mkPoW "" "" 5) 100]] false)
                     eq_refl eq_refl eq_refl) _).
    vm_compute. reflexivity.
Defined.

(** C5 as the specification words it fails: two solutions for the one job
    [J1] call its callback twice, and the reply the node then gives for
    [J1] reaches the second sender only. *)
Lemma onFound_called_twice_for_one_job :
  let s := ended_server
             (on_solutions hex_fill_pow
                [(2, mkSolution "J1" "1f" "2e"); (3, mkSolution "J1" "3a" "4b")] job_J1) in
  let s' := ended_server (solution_result "J1" true block_100 s) in
  found_calls s = [7%nat; 7%nat] /\
  length (found_calls s) <> 1%nat /\
  sent_to 2 s' = sent_to 2 job_J1 /\
  sent_to 3 s' =
    sent_to 3 job_J1 ++ [[SolutionResultFrame "J1" solution_accepted "abcd" 100]].
Proof. vm_compute. repeat split; discriminate. Qed.

(** C6 fails on the code: a peer that connected and never logged in sends a
    solution; the most recent result is overwritten and the callback called. *)
Lemma solution_of_peer_not_logged_in :
  let s := on_stream_accepted 5 open_stream job_J1 in
  let c := Connection_new 5 open_stream in
  let s' := ended_server (on_message_Solution hex_fill_pow c (mkSolution "J1" "1f" "2e") s) in
  _connections s !! 5 = Some c /\
  _loggedIn c = false /\
  get_last_found_block s = ("", mkPoW "" "" 0) /\
  get_last_found_block s' = ("J1", mkPoW "2e" "1f" 0) /\
  resultFrom (_recentResult s') = 5 /\
  found_calls s = [] /\
  found_calls s' = [7%nat].
Proof. vm_compute. repeat split. Qed.

(** ** Logins and jobs *)

Lemma send_msg_id msg only shut c : _id (send_msg msg only shut c).2 = _id c.
Proof.
  unfold send_msg. destruct (only && negb (_loggedIn c)); [reflexivity | ].
  destruct (_stream c) as [st | ]; [ | reflexivity].
  destruct (writable st); reflexivity.
Qed.

Lemma send_msg_loggedIn msg only shut c :
  _loggedIn (send_msg msg only shut c).2 = _loggedIn c.
Proof.
  unfold send_msg. destruct (only && negb (_loggedIn c)); [reflexivity | ].
  destruct (_stream c) as [st | ]; [ | reflexivity].
  destruct (writable st); reflexivity.
Qed.

Lemma lookup_foldl_delete {A} (l : list Z) (m : gmap Z A) (k : Z) :
  foldl (fun cs c => delete c cs) m l !! k = if decide (k ∈ l) then None else m !! k.
Proof.
  revert m. induction l as [|x l IH]; intros m; simpl.
  - destruct (decide (k ∈ [])) as [H | _]; [inversion H | reflexivity].
  - rewrite IH. destruct (decide (k ∈ l)) as [Hin | Hnin].
    + rewrite decide_True by (right; exact Hin). reflexivity.
    + destruct (decide (k = x)) as [-> | Hne].
      * rewrite decide_True by left. apply lookup_delete_eq.
      * rewrite decide_False by (intros H; inversion H; subst; tauto).
        apply lookup_delete_ne. congruence.
Qed.

Lemma broadcast_lookup msg (cs : gmap Z Connection) (k : Z) :
  (broadcast msg cs).1 !! k = (fun c => (send_msg msg true false c).2) <$> cs !! k.
Proof.
  unfold broadcast. simpl. rewrite !lookup_fmap. destruct (cs !! k); reflexivity.
Qed.

Lemma broadcast_failed msg (cs : gmap Z Connection) (k : Z) :
  k ∈ (broadcast msg cs).2 <->
  exists c, cs !! k = Some c /\ (send_msg msg true false c).1 = false.
Proof.
  unfold broadcast. simpl. rewrite list_elem_of_fmap. split.
  - intros ([k' [sent c']] & -> & Hin). apply list_elem_of_In, filter_In in Hin.
    destruct Hin as [Hin Hneg]. apply list_elem_of_In, elem_of_map_to_list in Hin.
    rewrite lookup_fmap in Hin. simpl in *.
    destruct (cs !! k') as [c | ] eqn:Hc; [ | discriminate]. simpl in Hin.
    exists c. split; [reflexivity | ]. injection Hin as Hin. rewrite Hin. simpl.
    apply negb_true_iff in Hneg. exact Hneg.
  - intros (c & Hc & Hsent). exists (k, send_msg msg true false c). split; [reflexivity | ].
    apply list_elem_of_In, filter_In. split.
    + apply list_elem_of_In, elem_of_map_to_list. rewrite lookup_fmap, Hc. reflexivity.
    + simpl. rewrite Hsent. reflexivity.
Qed.

Lemma new_job_connections id input pow height cb (s : Server) (k : Z) :
  k ∉ _deadConnections s ->
  _connections (new_job id input pow height cb s) !! k =
  _connections s !! k ≫= after_job (_currentMsg s ++ [JobFrame id input pow height]).
Proof.
  intros Hdead. unfold new_job. simpl.
  set (msg := _currentMsg s ++ [JobFrame id input pow height]).
  change (foldl (fun cs c => delete c cs) (broadcast msg (_connections s)).1
            (_deadConnections s ++ (broadcast msg (_connections s)).2) !! k =
          _connections s !! k ≫= after_job msg).
  pose proof (broadcast_failed msg (_connections s) k) as Hf.
  rewrite lookup_foldl_delete, broadcast_lookup.
  destruct (_connections s !! k) as [c | ] eqn:Hc; simpl.
  - unfold after_job. destruct (send_msg msg true false c) as [sent c'] eqn:Hs.
    destruct sent.
    + rewrite decide_False; [reflexivity | ].
      rewrite elem_of_app. intros [H | H]; [tauto | ].
      apply Hf in H. destruct H as (c0 & [= <-] & H0). rewrite Hs in H0. discriminate.
    + rewrite decide_True; [reflexivity | ].
      rewrite elem_of_app. right. apply Hf. exists c. rewrite Hs. auto.
  - destruct (decide _); reflexivity.
Qed.

(** With a key the access control lets through, [on_login] marks the peer
    logged in and writes the most recent job message to its stream; the
    value it returns is whether that write went through.  The peer stays in
    the map, logged in, also when the write fails; no other connection and
    nothing else of the server changes. *)
Theorem login_accepted (s : Server) (from : Z) (login : Login) (conn : Connection) :
  _connections s !! from = Some conn ->
  check (api_key login) (_acl s) = true ->
  exists sent conn',
    on_login from login s =
      Returned sent (with_connections (<[from := conn']> (_connections s)) s) /\
    _loggedIn conn' = true /\
    _id conn' = _id conn /\
    (forall st, _stream conn = Some st -> writable st = true ->
       sent = true /\
       _stream conn' =
         Some (mkStream true (written st ++ [job_msg (_recentJob s)]) (is_shut st))) /\
    (_stream conn = None \/ (exists st, _stream conn = Some st /\ writable st = false) ->
       sent = false /\ _stream conn' = _stream conn).
Proof.
  intros Hconn Hcheck. unfold on_login. rewrite Hconn, Hcheck.
  destruct (send_msg (job_msg (_recentJob s)) true false (set_logged_in conn))
    as [sent conn'] eqn:Hsend.
  exists sent, conn'. split; [reflexivity | ].
  unfold send_msg in Hsend. simpl in Hsend.
  destruct (_stream conn) as [st | ] eqn:Hst.
  - destruct (writable st) eqn:Hw; injection Hsend as <- <-; simpl.
    + split; [reflexivity | ]. split; [reflexivity | ]. split.
      * intros st' [= <-] _. auto.
      * intros [[=] | (st' & [= <-] & Hw')]. congruence.
    + split; [reflexivity | ]. split; [reflexivity | ]. split.
      * intros st' [= <-] Hw'. congruence.
      * intros _. rewrite Hst. auto.
  - injection Hsend as <- <-; simpl. split; [reflexivity | ]. split; [reflexivity | ].
    split; [intros st [=] | ]. intros _. rewrite Hst. auto.
Qed.

Lemma login_accepted_witness :
  exists sent conn',
    on_login 4 (mkLogin "login-1" "secret-key-1")
      (on_stream_accepted 4 open_stream job_J1) =
      Returned sent
        (with_connections
           (<[4 := conn']> (_connections (on_stream_accepted 4 open_stream job_J1)))
           (on_stream_accepted 4 open_stream job_J1)) /\
    _loggedIn conn' = true.
Proof.
  destruct (login_accepted (on_stream_accepted 4 open_stream job_J1) 4
              (mkLogin "login-1" "secret-key-1") (Connection_new 4 open_stream))
    as (sent & conn' & Hrun & Hin & _).
  - vm_compute. reflexivity.
  - vm_compute. reflexivity.
  - exists sent, conn'. split; [exact Hrun | exact Hin].
Defined.

(** With a key the access control turns down, [on_login] returns [false]
    and leaves the peer as logged in as it was; the [login_failed] result is
    written to the peer's stream whether or not it is logged in, the stream
    is shut down after a write that went through, and the frame buffer is
    empty afterwards.  The peer stays in the map. *)
Theorem login_refused (s : Server) (from : Z) (login : Login) (conn : Connection) :
  _connections s !! from = Some conn ->
  check (api_key login) (_acl s) = false ->
  exists s' conn',
    on_login from login s = Returned false s' /\
    _connections s' = <[from := conn']> (_connections s) /\
    _currentMsg s' = [] /\
    _recentJob s' = _recentJob s /\
    _recentResult s' = _recentResult s /\
    found_calls s' = found_calls s /\
    _loggedIn conn' = _loggedIn conn /\
    (forall st, _stream conn = Some st -> writable st = true ->
       _stream conn' =
         Some (mkStream true
                 (written st ++ [_currentMsg s ++ [ResultFrame (login_id login) login_failed]])
                 true)) /\
    (_stream conn = None \/ (exists st, _stream conn = Some st /\ writable st = false) ->
       conn' = conn).
Proof.
  intros Hconn Hcheck. unfold on_login. rewrite Hconn, Hcheck. simpl.
  set (msg := _currentMsg s ++ [ResultFrame (login_id login) login_failed]).
  destruct (send_msg msg false true conn) as [sent conn'] eqn:Hsend.
  eexists. exists conn'. split; [reflexivity | ]. simpl.
  do 5 (split; [reflexivity | ]).
  unfold send_msg in Hsend. simpl in Hsend.
  destruct (_stream conn) as [st | ] eqn:Hst.
  - destruct (writable st) eqn:Hw; injection Hsend as <- <-; simpl.
    + split; [reflexivity | ]. split.
      * intros st' [= <-] _. reflexivity.
      * intros [[=] | (st' & [= <-] & Hw')]. congruence.
    + split; [reflexivity | ]. split.
      * intros st' [= <-] Hw'. congruence.
      * intros _. reflexivity.
  - injection Hsend as <- <-. split; [reflexivity | ]. split; [intros st [=] | ].
    intros _. reflexivity.
Qed.

(** [new_job] records the job and its one message, and hands the message to
    every connection: a peer that is not logged in is left as it is, a
    logged-in peer whose stream takes the write has the message appended,
    and a logged-in peer whose stream is gone or refuses the write is
    removed from the map.  The frame buffer and the list of dead connections
    are empty afterwards. *)
Theorem new_job_delivery (id input : string) (pow : PoW) (height : Z) (cb : BlockFound)
    (s : Server) :
  _deadConnections s = [] ->
  let s' := new_job id input pow height cb s in
  let msg := _currentMsg s ++ [JobFrame id input pow height] in
  _recentJob s' = mkRecentJob id msg /\
  _currentMsg s' = [] /\
  _deadConnections s' = [] /\
  forall k,
    _connections s' !! k =
    match _connections s !! k with
    | None => None
    | Some c =>
        if negb (_loggedIn c) then Some c
        else match _stream c with
             | Some st =>
                 if writable st
                 then Some (mkConnection (_id c)
                              (Some (mkStream true (written st ++ [msg]) (is_shut st))) true)
                 else None
             | None => None
             end
    end.
Proof.
  intros Hdead s' msg. split; [reflexivity | ]. split; [reflexivity | ].
  split; [reflexivity | ]. intros k. subst s'.
  rewrite new_job_connections by (rewrite Hdead; apply not_elem_of_nil).
  fold msg. destruct (_connections s !! k) as [c | ]; [ | reflexivity]. simpl.
  unfold after_job, send_msg. simpl.
  destruct (_loggedIn c) eqn:Hin; simpl.
  - destruct (_stream c) as [st | ]; [ | reflexivity].
    destruct (writable st); reflexivity.
  - reflexivity.
Qed.

Lemma new_job_delivery_witness :
  _connections (new_job "J2" "input" (mkPoW "" "" 5) 101 8%nat job_J1) !! 2 =
  Some (mkConnection 2
          (Some (mkStream true
                   [[JobFrame "J1" "input" (mkPoW "" "" 5) 100];
                    [JobFrame "J2" "input" (mkPoW "" "" 5) 101]] false)) true).
Proof.
  rewrite (proj2 (proj2 (proj2
    (new_job_delivery "J2" "input" (mkPoW "" "" 5) 101 8%nat job_J1 eq_refl))) 2).
  vm_compute. reflexivity.
Defined.

Lemma login_refused_witness :
  exists s' conn',
    on_login 4 (mkLogin "login-1" "wrong-key") keyed_server = Returned false s' /\
    _connections s' = <[4 := conn']> (_connections keyed_server) /\
    _loggedIn conn' = false /\
    _stream conn' =
      Some (mkStream true [[ResultFrame "login-1" login_failed]] true).
Proof.
  destruct (login_refused keyed_server 4 (mkLogin "login-1" "wrong-key")
              (Connection_new 4 open_stream))
    as (s' & conn' & Hrun & Hconns & _ & _ & _ & _ & Hin & Hst & _).
  - vm_compute. reflexivity.
  - vm_compute. reflexivity.
  - exists s', conn'. split; [exact Hrun | ]. split; [exact Hconns | ].
    split; [exact Hin | ]. apply (Hst open_stream); reflexivity.
Defined.

(** A peer that connects after [new_job] and logs in with a key that passes
    is sent that job's message, and is sent it just the same after
    [stop_current]: stopping clears the job's id, not its message. *)
Theorem late_login_gets_recent_job (s s0 : Server) (id input : string) (pow : PoW)
    (height : Z) (cb : BlockFound) (peer : Z) (stream : Stream) (login : Login) :
  _currentMsg s = [] ->
  s0 = new_job id input pow height cb s \/
  s0 = stop_current (new_job id input pow height cb s) ->
  check (api_key login) (_acl s) = true ->
  writable stream = true ->
  exists s',
    on_login peer login (on_stream_accepted peer stream s0) = Returned true s' /\
    sent_to peer s' = written stream ++ [[JobFrame id input pow height]].
Proof.
  intros Hmsg Hs0 Hcheck Hw.
  assert (Hjob : job_msg (_recentJob s0) = [JobFrame id input pow height]).
  { destruct Hs0 as [-> | ->]; simpl; rewrite Hmsg; reflexivity. }
  assert (Hacl : _acl s0 = _acl s) by (destruct Hs0 as [-> | ->]; reflexivity).
  unfold on_login. simpl. rewrite lookup_insert_eq, Hacl, Hcheck.
  unfold send_msg. simpl. rewrite Hw. eexists. split; [reflexivity | ].
  unfold sent_to. simpl. rewrite lookup_insert_eq. simpl. rewrite Hjob. reflexivity.
Qed.

Lemma late_login_gets_recent_job_witness :
  exists s',
    on_login 4 (mkLogin "login-1" "any")
      (on_stream_accepted 4 open_stream (stop_current job_J1)) = Returned true s' /\
    sent_to 4 s' = [[JobFrame "J1" "input" (mkPoW "" "" 5) 100]].
Proof.
  apply (late_login_gets_recent_job three_peers (stop_current job_J1) "J1" "input"
           (mkPoW "" "" 5) 100 7%nat 4 open_stream (mkLogin "login-1" "any")).
  - reflexivity.
  - right. reflexivity.
  - reflexivity.
  - reflexivity.
Defined.

(** ** What every call keeps *)

Section CallProperties.

Variable fill_pow : Solution -> PoW -> PoW.

Lemma well_kept_insert (s : Server) (k : Z) (c : Connection) :
  well_kept s -> _id c = k ->
  well_kept (with_connections (<[k := c]> (_connections s)) s).
Proof.
  intros (Hmsg & Hdead & Hids & Hjob) Hid. repeat split; try assumption.
  simpl. intros k' c' Hl. destruct (decide (k = k')) as [<- | Hne].
  - rewrite lookup_insert_eq in Hl. congruence.
  - rewrite lookup_insert_ne in Hl by exact Hne. eauto.
Qed.

Lemma do_call_well_kept (c : Call) (s s' : Server) :
  well_kept s -> do_call fill_pow c s = Returned tt s' -> well_kept s'.
Proof.
  intros Hk. pose proof Hk as (Hmsg & Hdead & Hids & Hjob).
  destruct c as [peer stream | from login | from sol | from | id input pow height cb
                 | jobID accepted blockId | | fs]; simpl.
  - intros [= <-]. apply well_kept_insert; [exact Hk | reflexivity].
  - unfold on_login. destruct (_connections s !! from) as [conn | ] eqn:Hconn; [ | discriminate].
    destruct (check (api_key login) (_acl s)).
    + destruct (send_msg _ true false (set_logged_in conn)) as [sent conn'] eqn:Hsend.
      intros [= <-]. apply well_kept_insert; [exact Hk | ].
      change conn' with (sent, conn').2. rewrite <- Hsend, send_msg_id. simpl. eauto.
    + destruct (send_msg _ false true conn) as [sent conn'] eqn:Hsend.
      intros [= <-]. repeat split; try assumption. simpl.
      intros k' c' Hl. destruct (decide (from = k')) as [<- | Hne].
      * rewrite lookup_insert_eq in Hl. injection Hl as <-.
        change conn' with (sent, conn').2. rewrite <- Hsend, send_msg_id. eauto.
      * rewrite lookup_insert_ne in Hl by exact Hne. eauto.
  - unfold on_solution. simpl. destruct (onBlockFound (_recentResult s)); [ | discriminate].
    intros [= <-]. repeat split; assumption.
  - intros [= <-]. repeat split; try assumption. simpl. intros k c Hl.
    apply lookup_delete_Some in Hl. destruct Hl as [_ Hl]. eauto.
  - intros [= <-]. split; [reflexivity | ]. split; [reflexivity | ]. split.
    + intros k c. rewrite new_job_connections by (rewrite Hdead; apply not_elem_of_nil).
      destruct (_connections s !! k) as [c0 | ] eqn:Hc0; [ | discriminate]. simpl.
      unfold after_job. destruct (send_msg _ true false c0) as [sent c'] eqn:Hsend.
      destruct sent; [ | discriminate]. intros [= <-].
      change c' with (true, c').2. rewrite <- Hsend, send_msg_id. eauto.
    + right. exists id, input, pow, height. simpl. rewrite Hmsg. reflexivity.
  - unfold solution_result.
    set (s1 := if negb accepted then _ else _).
    assert (Hs1 : _connections s1 = _connections s /\ _recentResult s1 = _recentResult s /\
                  _deadConnections s1 = [] /\ _recentJob s1 = _recentJob s).
    { subst s1. destruct accepted; simpl; auto. }
    destruct Hs1 as (Hc1 & Hr1 & Hd1 & Hj1).
    destruct (_connections s1 !! resultFrom (_recentResult s1)) as [conn | ] eqn:Hconn;
      [ | discriminate].
    destruct (send_msg (_currentMsg s1) true false conn) as [sent conn'] eqn:Hsend.
    intros [= <-]. split; [reflexivity | ]. split; [exact Hd1 | ]. split.
    + simpl. intros k c Hl. destruct (decide (resultFrom (_recentResult s1) = k)) as [<- | Hne].
      * rewrite lookup_insert_eq in Hl. injection Hl as <-.
        change conn' with (sent, conn').2. rewrite <- Hsend, send_msg_id.
        rewrite Hc1 in Hconn. eauto.
      * rewrite lookup_insert_ne in Hl by exact Hne. rewrite Hc1 in Hl. eauto.
    + simpl. rewrite Hj1. exact Hjob.
  - intros [= <-]. repeat split; assumption.
  - intros [= <-]. repeat split; assumption.
Qed.

(** Between the calls that reach it the server is [well_kept]: whatever
    calls have returned, the frame buffer and the list of dead connections
    are empty again, every connection is filed under its own id, and the
    message kept for late logins is empty or the one frame of a job. *)
Theorem calls_keep_server (calls : list Call) (s s' : Server) :
  well_kept s -> do_calls fill_pow calls s = Returned tt s' -> well_kept s'.
Proof.
  revert s. induction calls as [|c calls IH]; intros s Hk; simpl.
  - intros [= <-]. exact Hk.
  - destruct (do_call fill_pow c s) as [[] s1 | | ] eqn:Hc; [ | discriminate | discriminate].
    intros Hrun. exact (IH s1 (do_call_well_kept c s s1 Hk Hc) Hrun).
Qed.

(** When the peer that delivered the most recent solution has been dropped
    by [on_bad_peer], [solution_result] finds no connection under its id:
    the call dereferences the null pointer that the map hands out and does
    not return. *)
Theorem reply_to_departed_peer (s : Server) (from : Z) (sol : Solution) (cb : BlockFound)
    (jobID : string) (accepted : bool) (blockId : BlockId) :
  onBlockFound (_recentResult s) = Some cb ->
  exists s1 s2,
    on_solution fill_pow from sol s = Returned true s1 /\
    solution_result jobID accepted blockId (on_bad_peer from s1) = NullConnection s2.
Proof.
  intros Hcb. unfold on_solution. simpl. rewrite Hcb.
  destruct accepted; eexists; eexists; (split; [reflexivity | ]);
    unfold solution_result; simpl; rewrite lookup_delete_eq; reflexivity.
Qed.

End CallProperties.

Lemma calls_keep_server_witness :
  well_kept
    (ended_server
       (do_calls hex_fill_pow
          [StreamAccepted 4 open_stream; LoginFrom 4 (mkLogin "login-1" "wrong-key");
           NewJob "J1" "input" (mkPoW "" "" 5) 100 7%nat;
           SolutionFrom 4 (mkSolution "J1" "1f" "2e");
           SolutionResult "J1" false block_100; StopCurrent; BadPeer 4]
          keyed_server)).
Proof.
  apply (calls_keep_server hex_fill_pow
           [StreamAccepted 4 open_stream; LoginFrom 4 (mkLogin "login-1" "wrong-key");
            NewJob "J1" "input" (mkPoW "" "" 5) 100 7%nat;
            SolutionFrom 4 (mkSolution "J1" "1f" "2e");
            SolutionResult "J1" false block_100; StopCurrent; BadPeer 4]
           keyed_server).
  - split; [reflexivity | ]. split; [reflexivity | ]. split; [ | left; reflexivity].
    intros k c Hl.
    change (_connections keyed_server)
      with ({[4 := Connection_new 4 open_stream]} : gmap Z Connection) in Hl.
    apply lookup_singleton_Some in Hl. destruct Hl as [<- <-]. reflexivity.
  - vm_compute. reflexivity.
Defined.

Lemma reply_to_departed_peer_witness :
  exists s1 s2,
    on_solution hex_fill_pow 2 (mkSolution "J1" "1f" "2e") job_J1 = Returned true s1 /\
    solution_result "J1" true block_100 (on_bad_peer 2 s1) = NullConnection s2.
Proof.
  apply (reply_to_departed_peer hex_fill_pow job_J1 2 (mkSolution "J1" "1f" "2e") 7%nat
           "J1" true block_100).
  reflexivity.
Defined.

(** ** More on the access control *)

Lemma refresh_keys_are (fs : FS) (acl : AccessControl) (last : option File) :
  keys_are acl last ->
  keys_are (refresh fs acl)
           (match reloads fs acl with Some f => Some f | None => last end).
Proof.
  intros Hinv. unfold refresh, reloads.
  destruct (_enabled acl); simpl; [ | exact Hinv].
  destruct (fs _) as [f|]; [ | exact Hinv].
  destruct (mtime f <=? _lastModified acl); [exact Hinv | reflexivity].
Qed.

Lemma run_keys_are (fss : list FS) (acl : AccessControl) (last : option File) :
  keys_are acl last ->
  keys_are (foldl (fun acl fs => refresh fs acl) acl fss) (last_reload acl last fss).
Proof.
  revert acl last. induction fss as [|fs fss IH]; intros acl last Hinv; simpl.
  - exact Hinv.
  - apply IH, refresh_keys_are, Hinv.
Qed.

(** With a key file configured, every line of the file read by the last
    refresh that passed the [mtime] test is a key that [check] accepts, once
    trimmed and if 8 characters long at least; and as long as no refresh has
    read the file, [check] turns every key down. *)
Theorem acl_check_complete (path : string) (fs0 : FS) (later : list FS) (k : string) :
  path <> "" ->
  (forall f, acl_last_reload path fs0 later = Some f -> key_line_of k f ->
     check k (acl_run path fs0 later) = true) /\
  (acl_last_reload path fs0 later = None -> check k (acl_run path fs0 later) = false).
Proof.
  intros Hne.
  assert (Hinv : keys_are (acl_run path fs0 later) (acl_last_reload path fs0 later)).
  { unfold acl_run, AccessControl_new, acl_last_reload.
    change (foldl _ (refresh fs0 ?a) later)
      with (foldl (fun acl fs => refresh fs acl) a (fs0 :: later)).
    apply run_keys_are. reflexivity. }
  assert (Hen : _enabled (acl_run path fs0 later) = true).
  { rewrite acl_run_enabled. apply negb_true_iff. apply String.eqb_neq, Hne. }
  unfold check. rewrite Hen. simpl. unfold keys_are in Hinv. rewrite Hinv. split.
  - intros f -> Hline. apply bool_decide_eq_true, read_keys_spec, Hline.
  - intros ->. apply bool_decide_eq_false. set_solver.
Qed.

Lemma acl_check_complete_witness :
  check "secret-key-1" (acl_run "keys.txt" keys_txt [keys_txt]) = true.
Proof.
  apply (proj1 (acl_check_complete "keys.txt" keys_txt [keys_txt] "secret-key-1"
                  ltac:(discriminate))
               (mkFile 10 (Some ("  secret-key-1 " ++ String "010"%char "short")%string))).
  - vm_compute. reflexivity.
  - exists ("  secret-key-1 " ++ String "010"%char "short")%string, "  secret-key-1 "%string.
    split; [reflexivity | ]. split; [left; reflexivity | ].
    split; [reflexivity | simpl; lia].
Defined.

(** [refresh] never moves the recorded modification time back, and reads
    the file again only when its modification time has moved forward: after
    a refresh, a file that is not newer than the one just seen changes
    nothing, whatever its content. *)
Theorem refresh_needs_newer_file (fs fs' : FS) (acl : AccessControl) (f f' : File) :
  fs (_keysFileName acl) = Some f ->
  fs' (_keysFileName acl) = Some f' ->
  mtime f' <= mtime f ->
  _lastModified acl <= _lastModified (refresh fs acl) /\
  refresh fs' (refresh fs acl) = refresh fs acl.
Proof.
  intros Hf Hf' Hle. unfold refresh. rewrite Hf.
  destruct (_enabled acl) eqn:Hen; simpl;
    [ | rewrite Hen; simpl; split; [lia | reflexivity]].
  destruct (Z.leb_spec (mtime f) (_lastModified acl)); simpl; rewrite ?Hen, ?Hf'; simpl.
  - split; [lia | ]. destruct (Z.leb_spec (mtime f') (_lastModified acl)); [reflexivity | lia].
  - split; [lia | ]. destruct (Z.leb_spec (mtime f') (mtime f)); [reflexivity | lia].
Qed.

Lemma refresh_needs_newer_file_witness :
  refresh keys_txt_edited (refresh keys_txt (mkACL true "keys.txt" 0 ∅)) =
  refresh keys_txt (mkACL true "keys.txt" 0 ∅).
Proof.
  apply (proj2 (refresh_needs_newer_file keys_txt keys_txt_edited
                  (mkACL true "keys.txt" 0 ∅)
                  (mkFile 10 (Some ("  secret-key-1 " ++ String "010"%char "short")%string))
                  (mkFile 10 (Some "another-key-2"%string))
                  eq_refl eq_refl ltac:(simpl; lia))).
Defined.

(** What the access control does when the key file fails it.  Built for a
    file whose modification time cannot be read, it turns every key down.
    A refresh that cannot read the modification time keeps the keys it had.
    A refresh that finds a newer file it cannot open is left with no key at
    all, and turns every key down. *)
Theorem acl_when_the_file_fails (k : string) :
  (forall path fs0, path <> "" -> fs0 path = None ->
     check k (AccessControl_new path fs0) = false) /\
  (forall fs acl, fs (_keysFileName acl) = None -> refresh fs acl = acl) /\
  (forall fs acl t, _enabled acl = true ->
     fs (_keysFileName acl) = Some (mkFile t None) -> _lastModified acl < t ->
     check k (refresh fs acl) = false).
Proof.
  split; [ | split].
  - intros path fs0 Hne Hfs. apply String.eqb_neq in Hne.
    unfold AccessControl_new. rewrite Hne. unfold refresh, check. simpl. rewrite Hfs.
    simpl. apply bool_decide_eq_false. set_solver.
  - intros fs acl Hfs. unfold refresh. rewrite Hfs. destruct (negb (_enabled acl)); reflexivity.
  - intros fs acl t Hen Hfs Hlt. unfold refresh, check. rewrite Hen, Hfs. simpl.
    destruct (Z.leb_spec t (_lastModified acl)); [lia | ]. simpl.
    apply bool_decide_eq_false. set_solver.
Qed.

Lemma acl_when_the_file_fails_witness :
  check "secret-key-1" (AccessControl_new "missing.txt" keys_txt) = false.
Proof.
  apply (proj1 (acl_when_the_file_fails "secret-key-1") "missing.txt" keys_txt).
  - discriminate.
  - reflexivity.
Defined.

End StratumProperties.

(* ===================================================================== *)
(** * Properties of the wallet transaction *)
(* ===================================================================== *)

Module WalletProperties.

Import Wallet.

Section TransactionProperties.

Context {crypto : Crypto} {settings : Settings}.

(** ** Running the code: what each step leaves *)

Lemma GetParameter_run {T} (as_T : ParamValue -> option T) paramID (w : World) :
  GetParameter as_T paramID w = (Val (param paramID w ≫= as_T), w).
Proof. reflexivity. Qed.

Lemma SetParameter_run paramID v flag (w : World) :
  SetParameter paramID v flag w = (Val tt, set_param paramID v w).
Proof. reflexivity. Qed.


Lemma param_set_param_eq paramID v (w : World) :
  param paramID (set_param paramID v w) = Some v.
Proof. unfold param, set_param. simpl. apply lookup_insert_eq. Qed.

Lemma param_set_param_ne paramID paramID' v (w : World) :
  paramID <> paramID' -> param paramID' (set_param paramID v w) = param paramID' w.
Proof.
  intros Hne. unfold param, set_param. simpl. apply lookup_insert_ne. congruence.
Qed.

(** [NotifyFailure] never throws; it adds at most one event, a
    [FailureReason] message, and only for a transaction whose status is
    [Pending] or [InProgress]. *)
Lemma NotifyFailure_spec (reason : TxFailureReason.t) (w : World) :
  exists sent,
    NotifyFailure reason w = (Val tt, with_events (events w ++ sent) w) /\
    (sent = [] \/
     is_open (status_of w) /\
     exists from peer, sent = [send_tx_params peer (failure_msg from (m_ID w) reason)]) /\
    (~ is_open (status_of w) -> sent = []).
Proof.
  unfold NotifyFailure, is_open.
  unfold bind at 1. rewrite GetParameter_run. fold (status_of w).
  assert (Hid : with_events (events w ++ []) w = w).
  { rewrite app_nil_r. destruct w; reflexivity. }
  destruct (status_of w) as [[] | ] eqn:Hs; simpl;
    try (exists []; rewrite Hid; split; [reflexivity | split; [left | intros _]; reflexivity]).
  all: unfold SendTxParameters, bind; simpl;
    destruct (param TxParameterID.MyID w ≫= as_wallet_id) as [from | ] eqn:Hfrom;
    fold (param TxParameterID.MyID w); rewrite Hfrom; simpl;
    [ destruct (param TxParameterID.PeerID w ≫= as_wallet_id) as [peer | ] eqn:Hpeer;
      fold (param TxParameterID.PeerID w); rewrite Hpeer; simpl | ].
  all: try (exists []; rewrite Hid; split;
            [reflexivity | split; [left; reflexivity | intros Hn; exfalso; apply Hn; auto]]).
  all: exists [send_tx_params peer (failure_msg from (m_ID w) reason)];
    split; [reflexivity | split; [right; split; eauto | intros Hn; exfalso; apply Hn; auto]].
Qed.

(** [OnFailed] never throws. It logs the reason, sends at most one message
    (only when asked to notify, and only for a transaction that is
    [Pending] or [InProgress]), records the status, rolls the coins back and
    tells the gateway. *)
Lemma OnFailed_spec (reason : TxFailureReason.t) (notify : bool) (w : World) :
  exists sent w',
    OnFailed reason notify w = (Val tt, w') /\
    events w' =
      events w ++ log_failed (m_ID w) reason :: sent ++ [on_tx_completed (m_ID w)] /\
    (sent = [] \/
     notify = true /\ is_open (status_of w) /\
     exists from peer, sent = [send_tx_params peer (failure_msg from (m_ID w) reason)]) /\
    (~ is_open (status_of w) -> sent = []) /\
    (notify = false -> sent = []) /\
    status_of w' = Some (failed_status reason) /\
    coins w' = rollback_coins (m_ID w) (coins w) /\
    m_ID w' = m_ID w /\
    (forall paramID, paramID <> TxParameterID.Status -> paramID <> TxParameterID.ModifyTime ->
       param paramID w' = param paramID w).
Proof.
  pose (w1 := with_events (events w ++ [log_failed (m_ID w) reason]) w).
  destruct (NotifyFailure_spec reason w1) as (sent & Hrun & Hsent & Hclosed).
  destruct notify.
  - exists sent. eexists. split.
    { unfold OnFailed, bind. simpl. fold w1. rewrite Hrun. reflexivity. }
    simpl. rewrite <- !app_assoc. simpl.
    split; [reflexivity | ]. split.
    { destruct Hsent as [-> | (Hopen & from & peer & ->)]; [left; reflexivity | ].
      right. split; [reflexivity | ]. split; [exact Hopen | ]. exists from, peer. reflexivity. }
    split; [exact Hclosed | ]. split; [discriminate | ].
    split; [ | split; [reflexivity | split; [reflexivity | ]]].
    + unfold status_of, param. simpl.
      rewrite lookup_insert_ne by discriminate. rewrite lookup_insert_eq. reflexivity.
    + intros paramID Hs Hm. unfold param. simpl.
      rewrite !lookup_insert_ne by congruence. reflexivity.
  - exists []. eexists. split.
    { unfold OnFailed, bind. simpl. reflexivity. }
    simpl. rewrite <- !app_assoc. simpl.
    split; [reflexivity | ]. split; [left; reflexivity | ].
    split; [reflexivity | ]. split; [reflexivity | ].
    split; [ | split; [reflexivity | split; [reflexivity | ]]].
    + unfold status_of, param. simpl.
      rewrite lookup_insert_ne by discriminate. rewrite lookup_insert_eq. reflexivity.
    + intros paramID Hs Hm. unfold param. simpl.
      rewrite !lookup_insert_ne by congruence. reflexivity.
Qed.

(** [CheckExternalFailures] changes nothing when it answers [false]. *)
Lemma CheckExternalFailures_false (w w' : World) :
  CheckExternalFailures w = (Val false, w') -> w' = w.
Proof.
  unfold CheckExternalFailures. unfold bind at 1. rewrite GetParameter_run.
  destruct (param TxParameterID.FailureReason w ≫= as_reason) as [reason | ];
    [ | intros [= <-]; reflexivity].
  unfold GetMandatoryParameter. unfold bind at 1. unfold bind at 1.
  rewrite GetParameter_run.
  destruct (param TxParameterID.Status w ≫= as_status) as [s | ]; [ | discriminate].
  simpl. destruct (decide (s = TxStatus.InProgress)); [ | intros [= <-]; reflexivity].
  unfold bind. destruct (OnFailed_spec reason OnFailed_notify_default w)
    as (sent & w1 & -> & _). discriminate.
Qed.

(** How [Update] ends once [CheckExternalFailures] has answered [false]:
    by what [UpdateImpl] and then [CheckExpired] do. *)
Lemma Update_after_check (UpdateImpl : M unit) (w : World) :
  CheckExternalFailures w = (Val false, w) ->
  Update UpdateImpl w =
  match (let* _ := call UpdateImpl in CheckExpired) w with
  | (Throw (TransactionFailedException notify reason), w') => OnFailed reason notify w'
  | (_, w') => (Val tt, w')
  end.
Proof.
  intros Hc. unfold Update. unfold bind at 1. rewrite Hc.
  destruct ((let* _ := call UpdateImpl in CheckExpired) w) as [[u | | [notify reason | ]] w'];
    reflexivity.
Qed.

Lemma Cancel_spec (w : World) :
  exists sent w',
    Cancel w = (Val tt, w') /\
    (status_of w = Some TxStatus.Pending /\ events w' = events w \/
     status_of w <> Some TxStatus.Pending /\
     events w' = events w ++ sent ++ [on_tx_completed (m_ID w)]) /\
    (sent = [] \/
     is_open (status_of w) /\
     exists from peer,
       sent = [send_tx_params peer (failure_msg from (m_ID w) TxFailureReason.Cancelled)]) /\
    (~ is_open (status_of w) -> sent = []).
Proof.
  destruct (NotifyFailure_spec TxFailureReason.Cancelled w) as (sent & Hrun & Hsent & Hclosed).
  unfold Cancel. unfold bind at 1. rewrite GetParameter_run. fold (status_of w).
  unfold bind at 1. simpl.
  destruct (decide (default TxStatus.Failed (status_of w) = TxStatus.Pending)) as [Hp | Hp].
  - exists []. eexists. split; [reflexivity | ]. split; [ | split; [left | ]; reflexivity].
    left. split; [ | reflexivity].
    destruct (status_of w) as [s | ]; simpl in Hp; [subst s; reflexivity | discriminate].
  - exists sent. eexists. split.
    { unfold bind. rewrite Hrun. reflexivity. }
    simpl. rewrite <- app_assoc. split; [ | split; [exact Hsent | exact Hclosed]].
    right. split; [ | reflexivity]. intros Hs. rewrite Hs in Hp. apply Hp. reflexivity.
Qed.

Lemma new_events_app (w : World) (o : Outcome unit) (w' : World) (es : list Event) :
  events w' = events w ++ es -> new_events w (o, w') = es.
Proof. intros He. unfold new_events. simpl. rewrite He. apply drop_app_length. Qed.

(** C4. With a [FailureReason] in the bag and the status [InProgress], the
    next [Update()] fails the transaction with that reason: it logs it,
    records the status ([Cancelled] for the reason [Cancelled], [Failed]
    otherwise), rolls the coins back and tells the gateway; [UpdateImpl]
    does not run and nothing is sent to the peer. *)
Theorem external_failure_fails_locally (UpdateImpl : M unit) (w : World)
    (reason : TxFailureReason.t) :
  param TxParameterID.FailureReason w = Some (VReason reason) ->
  status_of w = Some TxStatus.InProgress ->
  exists w',
    Update UpdateImpl w = (Val tt, w') /\
    status_of w' = Some (failed_status reason) /\
    coins w' = rollback_coins (m_ID w) (coins w) /\
    events w' = events w ++ [log_failed (m_ID w) reason; on_tx_completed (m_ID w)] /\
    List.filter is_send (new_events w (Update UpdateImpl w)) = [].
Proof.
  intros Hreason Hstatus.
  destruct (OnFailed_spec reason OnFailed_notify_default w)
    as (sent & w' & Hrun & Hev & _ & _ & Hquiet & Hst & Hcoins & _).
  rewrite (Hquiet eq_refl) in Hev. simpl in Hev.
  assert (Hupd : Update UpdateImpl w = (Val tt, w')).
  { unfold Update, CheckExternalFailures, GetMandatoryParameter.
    unfold bind at 1. unfold bind at 1. rewrite GetParameter_run, Hreason. simpl.
    unfold bind at 1. unfold bind at 1. rewrite GetParameter_run.
    fold (status_of w). rewrite Hstatus. simpl.
    rewrite <- Hrun. reflexivity. }
  exists w'. rewrite Hupd. repeat split; try assumption.
  rewrite (new_events_app _ _ _ _ Hev). reflexivity.
Qed.

(** C8. When [UpdateImpl] throws, [Update()] calls [OnFailed] for a
    [TransactionFailedException], with its reason and its notify flag, and
    for any other exception returns with the world exactly as the throw left
    it. *)
Theorem other_exceptions_only_logged (UpdateImpl : M unit) (w w1 : World) :
  CheckExternalFailures w = (Val false, w) ->
  (forall e,
     (forall notify reason, e <> TransactionFailedException notify reason) ->
     UpdateImpl w = (Throw e, w1) ->
     Update UpdateImpl w = (Val tt, w1)) /\
  (forall notify reason,
     UpdateImpl w = (Throw (TransactionFailedException notify reason), w1) ->
     Update UpdateImpl w = OnFailed reason notify w1).
Proof.
  intros Hc. rewrite (Update_after_check _ _ Hc). unfold bind, call. split.
  - intros e He Hthrow. rewrite Hthrow. destruct e as [notify reason | ]; [ | reflexivity].
    exfalso. exact (He notify reason eq_refl).
  - intros notify reason Hthrow. rewrite Hthrow. reflexivity.
Qed.

(** C3, as the code has it. When [Update()] gets to [CheckExpired] (no
    external failure was taken up, and [UpdateImpl] came back without
    throwing), and the status then stored is not [Completed] while the tip
    is above [MaxHeight] (the parameter, or the largest height when it is
    not set), the transaction fails with [TransactionExpired]: status
    [Failed], coins rolled back, gateway told, nothing sent to the peer. *)
Theorem expired_when_check_reached (UpdateImpl : M unit) (w w1 : World)
    (s : TxStatus.t) (h : Height) :
  CheckExternalFailures w = (Val false, w) ->
  call UpdateImpl w = (Val tt, w1) ->
  status_of w1 = Some s -> s <> TxStatus.Completed ->
  tip w1 = Some h ->
  default MaxHeight (param TxParameterID.MaxHeight w1 ≫= as_int) < h ->
  exists w2,
    Update UpdateImpl w = (Val tt, w2) /\
    events w2 = events w1 ++ [log_failed (m_ID w1) TxFailureReason.TransactionExpired;
                              on_tx_completed (m_ID w1)] /\
    status_of w2 = Some TxStatus.Failed /\
    coins w2 = rollback_coins (m_ID w1) (coins w1).
Proof.
  intros Hc Himpl Hs Hne Htip Hmax.
  destruct (OnFailed_spec TxFailureReason.TransactionExpired OnFailed_notify_default w1)
    as (sent & w2 & Hrun & Hev & _ & _ & Hquiet & Hst & Hcoins & _).
  rewrite (Hquiet eq_refl) in Hev. simpl in Hev.
  exists w2. split; [ | auto].
  rewrite (Update_after_check _ _ Hc). unfold bind at 1. rewrite Himpl.
  unfold CheckExpired, GetMandatoryParameter.
  unfold bind at 1. unfold bind at 1. rewrite GetParameter_run.
  fold (status_of w1). rewrite Hs. simpl.
  destruct (decide (s <> TxStatus.Completed)) as [_ | Hn]; [ | contradiction].
  unfold bind at 1. rewrite GetParameter_run. unfold bind at 1.
  unfold GetTip, get_tip. rewrite Htip.
  destruct (Z.ltb_spec (default MaxHeight (param TxParameterID.MaxHeight w1 ≫= as_int)) h);
    [ | lia].
  rewrite Hrun. reflexivity.
Qed.

(** C10. Whether through [NotifyFailure] itself, through [OnFailed] (asked
    to notify or not) or through [Cancel]: a message goes to the peer only
    from a transaction whose stored status is [Pending] or [InProgress];
    with any other status, or none, nothing is sent. *)
Theorem failure_notice_only_when_open (reason : TxFailureReason.t) (notify : bool)
    (w : World) (r : Outcome unit * World) :
  In r [NotifyFailure reason w; OnFailed reason notify w; Cancel w] ->
  (List.filter is_send (new_events w r) <> [] -> is_open (status_of w)) /\
  (~ is_open (status_of w) -> List.filter is_send (new_events w r) = []).
Proof.
  intros Hr.
  assert (Hsent : exists sent,
             List.filter is_send (new_events w r) = sent /\
             (sent = [] \/ is_open (status_of w)) /\
             (~ is_open (status_of w) -> sent = [])).
  { destruct Hr as [<- | [<- | [<- | []]]].
    - destruct (NotifyFailure_spec reason w) as (sent & -> & Hsent & Hclosed).
      rewrite (new_events_app w _ (with_events (events w ++ sent) w) sent eq_refl).
      destruct Hsent as [-> | (Hopen & from & peer & ->)].
      + exists []. auto.
      + eexists. split; [reflexivity | ]. split; [auto | ].
        intros Hn. contradiction.
    - destruct (OnFailed_spec reason notify w)
        as (sent & w' & -> & Hev & Hsent & Hclosed & _).
      rewrite (new_events_app _ _ _ _ Hev).
      destruct Hsent as [-> | (_ & Hopen & from & peer & ->)].
      + exists []. auto.
      + eexists. split; [reflexivity | ]. split; [auto | ].
        intros Hn. contradiction.
    - destruct (Cancel_spec w) as (sent & w' & -> & Hev & Hsent & Hclosed).
      destruct Hev as [[Hp Hev] | [Hp Hev]].
      + rewrite (new_events_app _ _ _ [] (eq_sym (eq_trans (app_nil_r _) (eq_sym Hev)))).
        exists []. auto.
      + rewrite (new_events_app _ _ _ _ Hev).
        destruct Hsent as [-> | (Hopen & from & peer & ->)].
        * exists []. auto.
        * eexists. split; [reflexivity | ]. split; [auto | ].
          intros Hn. contradiction. }
  destruct Hsent as (sent & -> & [-> | Hopen] & Hclosed).
  - split; [intros Hn; contradiction | auto].
  - split; [auto | exact Hclosed].
Qed.

Lemma save_coins_snoc (l : list Coin.t) (x : Coin.t) (cs : gmap CoinID Coin.t) :
  save_coins (l ++ [x]) cs = <[Coin.m_ID x := x]> (save_coins l cs).
Proof. unfold save_coins. rewrite foldl_app. reflexivity. Qed.

(** A coin id that [save] was not given keeps its entry. *)
Lemma save_coins_lookup_other (l : list Coin.t) (cs : gmap CoinID Coin.t) (id : CoinID) :
  (forall c, c ∈ l -> Coin.m_ID c <> id) ->
  save_coins l cs !! id = cs !! id.
Proof.
  induction l as [|x l IH] using rev_ind; intros Hl; [reflexivity | ].
  rewrite save_coins_snoc, lookup_insert_ne.
  - apply IH. intros c Hc. apply Hl. apply elem_of_app. auto.
  - apply Hl. apply elem_of_app. right. apply list_elem_of_singleton. reflexivity.
Qed.

(** After [save], the id of a saved coin holds one of the saved coins of that id. *)
Lemma save_coins_lookup_saved (l : list Coin.t) (cs : gmap CoinID Coin.t) (c : Coin.t) :
  c ∈ l ->
  exists c', c' ∈ l /\ Coin.m_ID c' = Coin.m_ID c /\
             save_coins l cs !! Coin.m_ID c = Some c'.
Proof.
  induction l as [|x l IH] using rev_ind; intros Hc; [inversion Hc | ].
  rewrite save_coins_snoc.
  destruct (decide (Coin.m_ID x = Coin.m_ID c)) as [Heq | Hne].
  - exists x. split; [apply elem_of_app; right; apply list_elem_of_singleton; reflexivity | ].
    split; [exact Heq | ]. rewrite Heq. apply lookup_insert_eq.
  - apply elem_of_app in Hc. destruct Hc as [Hc | Hc].
    + destruct (IH Hc) as (c' & Hin & Hid & Hlook). exists c'.
      split; [apply elem_of_app; auto | ]. split; [exact Hid | ].
      rewrite lookup_insert_ne by exact Hne. exact Hlook.
    + apply list_elem_of_singleton in Hc. subst c. contradiction.
Qed.

(** Saving the changed copies of the coins that satisfy a test changes
    exactly those coins, each in its place. *)
Lemma save_coins_changed (P : Coin.t -> bool) (f : Coin.t -> Coin.t)
    (cs : gmap CoinID Coin.t) :
  coins_keyed cs ->
  (forall c, Coin.m_ID (f c) = Coin.m_ID c) ->
  save_coins (f <$> List.filter P ((map_to_list cs).*2)) cs =
  (fun c => if P c then f c else c) <$> cs.
Proof.
  intros Hkeyed Hid. apply map_eq. intros id. rewrite lookup_fmap.
  assert (Hin : forall c, c ∈ List.filter P ((map_to_list cs).*2) <->
                          P c = true /\ cs !! Coin.m_ID c = Some c).
  { intros c. rewrite list_elem_of_In, filter_In, <- list_elem_of_In, list_elem_of_fmap.
    split.
    - intros [([id' c'] & -> & Hc') HP]. simpl in *.
      apply elem_of_map_to_list in Hc'. rewrite (Hkeyed _ _ Hc'). auto.
    - intros [HP Hc]. split; [ | exact HP].
      exists (Coin.m_ID c, c). split; [reflexivity | ].
      apply elem_of_map_to_list. exact Hc. }
  destruct (cs !! id) as [c | ] eqn:Hc; simpl.
  - pose proof (Hkeyed _ _ Hc) as Hidc. destruct (P c) eqn:HP.
    + destruct (save_coins_lookup_saved (f <$> List.filter P ((map_to_list cs).*2)) cs (f c))
        as (c' & Hc' & Hid' & Hlook).
      { apply list_elem_of_fmap. exists c. split; [reflexivity | ].
        apply Hin. rewrite Hidc. auto. }
      rewrite Hid, Hidc in Hlook. rewrite Hlook. f_equal.
      apply list_elem_of_fmap in Hc'. destruct Hc' as (c0 & -> & Hc0).
      apply Hin in Hc0. destruct Hc0 as [_ Hc0].
      rewrite !Hid, Hidc in Hid'. rewrite Hid' in Hc0. congruence.
    + rewrite save_coins_lookup_other; [exact Hc | ].
      intros c' Hc' Heq. apply list_elem_of_fmap in Hc'. destruct Hc' as (c0 & -> & Hc0).
      apply Hin in Hc0. destruct Hc0 as [HP0 Hc0].
      rewrite Hid in Heq. rewrite Heq in Hc0. congruence.
  - rewrite save_coins_lookup_other; [exact Hc | ].
    intros c' Hc' Heq. apply list_elem_of_fmap in Hc'. destruct Hc' as (c0 & -> & Hc0).
    apply Hin in Hc0. destruct Hc0 as [_ Hc0].
    rewrite Hid in Heq. rewrite Heq in Hc0. congruence.
Qed.

Lemma confirm_coin_ID (hProof : Height) (c : Coin.t) :
  Coin.m_ID (confirm_coin hProof c) = Coin.m_ID c.
Proof. unfold confirm_coin. destruct (decide _); reflexivity. Qed.

Lemma frame_refl (w : World) : frame w w.
Proof. unfold frame. auto. Qed.

Lemma frame_trans (w1 w2 w3 : World) : frame w1 w2 -> frame w2 w3 -> frame w1 w3.
Proof.
  unfold frame, param. intros (Hid & Hp & Hk) (Hid' & Hp' & Hk').
  split; [congruence | split; [congruence | auto]].
Qed.

Lemma keeps_reader {A} (f : World -> Outcome A) : keeps (fun w => (f w, w)).
Proof. intros w o w' [= _ <-]. apply frame_refl. Qed.

Lemma keeps_ret {A} (a : A) : keeps (ret a).
Proof. apply (keeps_reader (fun _ => Val a)). Qed.

Lemma keeps_throw {A} (e : Exn) : keeps (@throw A e).
Proof. apply (keeps_reader (fun _ => Throw e)). Qed.

Lemma keeps_return {A} : keeps (@return_ A).
Proof. apply (keeps_reader (fun _ => Return)). Qed.

Lemma keeps_bind {A B} (m : M A) (f : A -> M B) :
  keeps m -> (forall a, keeps (f a)) -> keeps (bind m f).
Proof.
  intros Hm Hf w o w'. unfold bind.
  destruct (m w) as [[a | | e] w1] eqn:Hrun; pose proof (Hm _ _ _ Hrun) as H1.
  - intros Hrun'. exact (frame_trans _ _ _ H1 (Hf a _ _ _ Hrun')).
  - intros [= _ <-]. exact H1.
  - intros [= _ <-]. exact H1.
Qed.

Lemma keeps_when (b : bool) (m : M unit) : keeps m -> keeps (when b m).
Proof. intros Hm. destruct b; [exact Hm | apply keeps_ret]. Qed.

Lemma keeps_foldM {A B} (f : B -> A -> M B) (l : list A) (b : B) :
  (forall b a, keeps (f b a)) -> keeps (foldM f l b).
Proof.
  intros Hf. revert b. induction l as [|a l IH]; intros b; simpl.
  - apply keeps_ret.
  - apply keeps_bind; [apply Hf | exact IH].
Qed.

Lemma keeps_modify (f : World -> World) :
  (forall w, frame w (f w)) -> keeps (modify f).
Proof. intros Hf w o w' [= _ <-]. apply Hf. Qed.

Lemma save_coins_keyed (l : list Coin.t) (cs : gmap CoinID Coin.t) :
  coins_keyed cs -> coins_keyed (save_coins l cs).
Proof.
  induction l as [|x l IH] using rev_ind; intros Hk; [exact Hk | ].
  rewrite save_coins_snoc. intros id c.
  destruct (decide (Coin.m_ID x = id)) as [<- | Hne].
  - rewrite lookup_insert_eq. intros [= <-]. reflexivity.
  - rewrite lookup_insert_ne by exact Hne. apply (IH Hk).
Qed.

Lemma rollback_coins_keyed (txID : TxID) (cs : gmap CoinID Coin.t) :
  coins_keyed cs -> coins_keyed (rollback_coins txID cs).
Proof.
  intros Hk id c. unfold rollback_coins. rewrite lookup_fmap.
  destruct (filter _ cs !! id) as [c0 | ] eqn:Hc0; simpl; [ | discriminate].
  apply map_lookup_filter_Some in Hc0. destruct Hc0 as [Hc0 _].
  intros [= <-]. rewrite <- (Hk _ _ Hc0). destruct (is_own_input txID c0); reflexivity.
Qed.

Lemma keeps_setTxParameter txID paramID v flag :
  paramID <> TxParameterID.KernelProofHeight ->
  keeps (setTxParameter txID paramID v flag).
Proof.
  intros Hne. apply keeps_modify. intros w. unfold frame, param. simpl.
  rewrite lookup_insert_ne by congruence. auto.
Qed.

Lemma keeps_save (l : list Coin.t) : keeps (save l).
Proof.
  apply keeps_modify. intros w. unfold frame, param. simpl.
  split; [reflexivity | split; [reflexivity | apply save_coins_keyed]].
Qed.

Lemma keeps_rollbackTx (txID : TxID) : keeps (rollbackTx txID).
Proof.
  apply keeps_modify. intros w. unfold frame, param. simpl.
  split; [reflexivity | split; [reflexivity | apply rollback_coins_keyed]].
Qed.

Lemma keeps_emit (e : Event) : keeps (emit e).
Proof. apply keeps_modify. intros w. unfold frame, param. simpl. auto. Qed.

Lemma keeps_AllocateKidRange (n : Z) : keeps (AllocateKidRange n).
Proof. intros w o w' [= _ <-]. unfold frame, param. simpl. auto. Qed.

Lemma keeps_cache (b : option bool) : keeps (modify (with_IsInitiator b)).
Proof. apply keeps_modify. intros w. unfold frame, param. simpl. auto. Qed.

Create HintDb keeps.

(** One step of a proof that a piece of code [keeps]: by the shape of the
    code, or by a lemma already proved for the function called. *)
Ltac keeps_step :=
  lazymatch goal with
  | |- keeps (bind _ _) => apply keeps_bind; [ | intros ? ]
  | |- keeps (ret _) => apply keeps_ret
  | |- keeps (throw _) => apply keeps_throw
  | |- keeps return_ => apply keeps_return
  | |- keeps (when _ _) => apply keeps_when
  | |- keeps (foldM _ _ _) => apply keeps_foldM; intros ? ?
  | |- keeps (setTxParameter _ _ _ _) => apply keeps_setTxParameter; discriminate
  | |- keeps (save _) => apply keeps_save
  | |- keeps (rollbackTx _) => apply keeps_rollbackTx
  | |- keeps (emit _) => apply keeps_emit
  | |- keeps (AllocateKidRange _) => apply keeps_AllocateKidRange
  | |- keeps (modify (with_IsInitiator _)) => apply keeps_cache
  | |- keeps (if ?b then _ else _) => destruct b
  | |- keeps (match ?x with _ => _ end) => destruct x
  | |- keeps (let _ := _ in _) => cbv zeta
  | |- keeps (fun w => (_, w)) => apply keeps_reader
  | |- keeps _ => solve [auto with keeps]
  end.

Ltac keeps_all := repeat keeps_step.

Lemma keeps_GetTxID : keeps GetTxID.
Proof. apply (keeps_reader (fun w => Val (m_ID w))). Qed.
Lemma keeps_get_world : keeps get_world.
Proof. apply (keeps_reader (fun w => Val w)). Qed.
Lemma keeps_getTxParameter txID paramID : keeps (getTxParameter txID paramID).
Proof. apply (keeps_reader (fun w => Val (tx_params w !! (txID, paramID)))). Qed.
Lemma keeps_getAddress wid : keeps (getAddress wid).
Proof. apply (keeps_reader (fun w => Val (addresses w !! wid))). Qed.
Lemma keeps_visit : keeps visit.
Proof. apply (keeps_reader (fun w => Val ((map_to_list (coins w)).*2))). Qed.
Lemma keeps_get_tip : keeps get_tip.
Proof. apply (keeps_reader (fun w => Val (tip w))). Qed.
Lemma keeps_getTimestamp : keeps getTimestamp.
Proof. apply (keeps_reader (fun w => Val (now w))). Qed.
Lemma keeps_GenRandom : keeps GenRandom.
Proof. apply (keeps_reader (fun w => Val (random w))). Qed.
#[local] Hint Resolve keeps_GetTxID keeps_get_world keeps_getTxParameter keeps_getAddress
  keeps_visit keeps_get_tip keeps_getTimestamp keeps_GenRandom : keeps.

Lemma keeps_GetParameter {T} (as_T : ParamValue -> option T) paramID :
  keeps (GetParameter as_T paramID).
Proof. unfold GetParameter. keeps_all. Qed.
#[local] Hint Resolve keeps_GetParameter : keeps.

Lemma keeps_GetMandatoryParameter {T} (as_T : ParamValue -> option T) paramID :
  keeps (GetMandatoryParameter as_T paramID).
Proof. unfold GetMandatoryParameter. keeps_all. Qed.
#[local] Hint Resolve keeps_GetMandatoryParameter : keeps.

Lemma keeps_SetParameter paramID v flag :
  paramID <> TxParameterID.KernelProofHeight -> keeps (SetParameter paramID v flag).
Proof.
  intros Hne. unfold SetParameter. apply keeps_bind; [apply keeps_GetTxID | intros txID].
  apply keeps_setTxParameter, Hne.
Qed.

Lemma keeps_store (c : Coin.t) : keeps (store c).
Proof. unfold store. keeps_all. Qed.
Lemma keeps_selectCoins (amount : Amount) : keeps (selectCoins amount).
Proof. unfold selectCoins. keeps_all. Qed.
Lemma keeps_IsInitiator : keeps IsInitiator.
Proof. unfold IsInitiator. keeps_all. Qed.
Lemma keeps_get_PeerVersion : keeps get_PeerVersion.
Proof. unfold get_PeerVersion. keeps_all. Qed.
Lemma keeps_RollbackTx : keeps RollbackTx.
Proof. unfold RollbackTx. keeps_all. Qed.
Lemma keeps_UpdateTxDescription s : keeps (UpdateTxDescription s).
Proof. unfold UpdateTxDescription, SetParameter. keeps_all. Qed.
#[local] Hint Resolve keeps_store keeps_selectCoins keeps_IsInitiator keeps_get_PeerVersion
  keeps_RollbackTx keeps_UpdateTxDescription : keeps.

Lemma keeps_ConfirmKernel k : keeps (ConfirmKernel k).
Proof. unfold ConfirmKernel. keeps_all. Qed.
Lemma keeps_SendTxParameters params : keeps (SendTxParameters params).
Proof. unfold SendTxParameters. keeps_all. Qed.
#[local] Hint Resolve keeps_ConfirmKernel keeps_SendTxParameters : keeps.

Lemma keeps_NotifyFailure reason : keeps (NotifyFailure reason).
Proof. unfold NotifyFailure. keeps_all. Qed.
#[local] Hint Resolve keeps_NotifyFailure : keeps.

Lemma keeps_OnFailed reason notify : keeps (OnFailed reason notify).
Proof. unfold OnFailed. keeps_all. Qed.
#[local] Hint Resolve keeps_OnFailed : keeps.

Lemma keeps_SelectInputs b : keeps (SelectInputs b).
Proof. unfold SelectInputs, SetParameter. keeps_all. Qed.
Lemma keeps_AddOutput b amount bChange : keeps (AddOutput b amount bChange).
Proof. unfold AddOutput, CreateOutput. keeps_all. Qed.
#[local] Hint Resolve keeps_SelectInputs keeps_AddOutput : keeps.

Lemma keeps_AddChangeOutput b : keeps (AddChangeOutput b).
Proof. unfold AddChangeOutput. keeps_all. Qed.
Lemma keeps_FinalizeOutputs b : keeps (FinalizeOutputs b).
Proof. unfold FinalizeOutputs, SetParameter. keeps_all. Qed.
Lemma keeps_CreateKernel b : keeps (CreateKernel b).
Proof. unfold CreateKernel, SetParameter. keeps_all. Qed.
Lemma keeps_GetPeerPublicExcessAndNonce b : keeps (GetPeerPublicExcessAndNonce b).
Proof. unfold GetPeerPublicExcessAndNonce. keeps_all. Qed.
Lemma keeps_GetPeerSignature b : keeps (GetPeerSignature b).
Proof. unfold GetPeerSignature. keeps_all. Qed.
Lemma keeps_GetInitialTxParams b : keeps (GetInitialTxParams b).
Proof. unfold GetInitialTxParams. keeps_all. Qed.
Lemma keeps_GetPeerInputsAndOutputs b : keeps (GetPeerInputsAndOutputs b).
Proof. unfold GetPeerInputsAndOutputs. keeps_all. Qed.
Lemma keeps_StoreKernelID b : keeps (StoreKernelID b).
Proof. unfold StoreKernelID, SetParameter', SetParameter. keeps_all. Qed.
#[local] Hint Resolve keeps_AddChangeOutput keeps_FinalizeOutputs keeps_CreateKernel
  keeps_GetPeerPublicExcessAndNonce keeps_GetPeerSignature keeps_GetInitialTxParams
  keeps_GetPeerInputsAndOutputs keeps_StoreKernelID : keeps.

Lemma keeps_SignPartial b : keeps (SignPartial b).
Proof. unfold SignPartial. keeps_all. Qed.
Lemma keeps_FinalizeSignature b : keeps (FinalizeSignature b).
Proof. unfold FinalizeSignature. keeps_all. Qed.
Lemma keeps_SetState s : keeps (SetState s).
Proof. unfold SetState, SetParameter. keeps_all. Qed.
Lemma keeps_GetState : keeps GetState.
Proof. unfold GetState. keeps_all. Qed.
Lemma keeps_IsSelfTx : keeps IsSelfTx.
Proof. unfold IsSelfTx. keeps_all. Qed.
Lemma keeps_SendInvitation b isSender : keeps (SendInvitation b isSender).
Proof. unfold SendInvitation. keeps_all. Qed.
Lemma keeps_signed_confirmation : keeps signed_confirmation.
Proof. unfold signed_confirmation. keeps_all. Qed.
#[local] Hint Resolve keeps_SignPartial keeps_FinalizeSignature keeps_SetState keeps_GetState
  keeps_IsSelfTx keeps_SendInvitation keeps_signed_confirmation : keeps.

Lemma keeps_ConfirmInvitation b sendUtxos : keeps (ConfirmInvitation b sendUtxos).
Proof. unfold ConfirmInvitation. keeps_all. Qed.
Lemma keeps_ConfirmTransaction b sendUtxos : keeps (ConfirmTransaction b sendUtxos).
Proof. unfold ConfirmTransaction. keeps_all. Qed.
Lemma keeps_payment_confirmed : keeps payment_confirmed.
Proof. unfold payment_confirmed. keeps_all. Qed.
#[local] Hint Resolve keeps_ConfirmInvitation keeps_ConfirmTransaction
  keeps_payment_confirmed : keeps.

(** The first part of [UpdateImpl] never writes [KernelProofHeight], never
    changes which transaction it is, and keeps the coins under their ids. *)
Lemma keeps_UpdateImpl_negotiate : keeps UpdateImpl_negotiate.
Proof.
  unfold UpdateImpl_negotiate, SetParameter', SetParameter. keeps_all.
Qed.

(** ** Coins change only after an event *)

Lemma quiet_same (w w' : World) :
  events w' = events w -> coins w' = coins w -> quiet w w'.
Proof. intros He Hc. exists []. rewrite app_nil_r. auto. Qed.

Lemma quiet_refl (w : World) : quiet w w.
Proof. apply quiet_same; reflexivity. Qed.

Lemma quiet_trans (w1 w2 w3 : World) : quiet w1 w2 -> quiet w2 w3 -> quiet w1 w3.
Proof.
  intros (es & He & Hc) (es' & He' & Hc'). exists (es ++ es'). split.
  - rewrite He', He, app_assoc. reflexivity.
  - intros Hnil. apply app_eq_nil in Hnil. destruct Hnil as [-> ->].
    rewrite Hc', Hc; reflexivity.
Qed.

Lemma quiet_reader {A} (f : World -> Outcome A) : stays_quiet (fun w => (f w, w)).
Proof. intros w o w' [= _ <-]. apply quiet_refl. Qed.

Lemma quiet_ret {A} (a : A) : stays_quiet (ret a).
Proof. apply (quiet_reader (fun _ => Val a)). Qed.
Lemma quiet_throw {A} (e : Exn) : stays_quiet (@throw A e).
Proof. apply (quiet_reader (fun _ => Throw e)). Qed.
Lemma quiet_return {A} : stays_quiet (@return_ A).
Proof. apply (quiet_reader (fun _ => Return)). Qed.

Lemma quiet_bind {A B} (m : M A) (f : A -> M B) :
  stays_quiet m -> (forall a, stays_quiet (f a)) -> stays_quiet (bind m f).
Proof.
  intros Hm Hf w o w'. unfold bind.
  destruct (m w) as [[a | | e] w1] eqn:Hrun; pose proof (Hm _ _ _ Hrun) as H1.
  - intros Hrun'. exact (quiet_trans _ _ _ H1 (Hf a _ _ _ Hrun')).
  - intros [= _ <-]. exact H1.
  - intros [= _ <-]. exact H1.
Qed.

Lemma quiet_when (b : bool) (m : M unit) : stays_quiet m -> stays_quiet (when b m).
Proof. intros Hm. destruct b; [exact Hm | apply quiet_ret]. Qed.

Lemma quiet_modify (f : World -> World) :
  (forall w, quiet w (f w)) -> stays_quiet (modify f).
Proof. intros Hf w o w' [= _ <-]. apply Hf. Qed.

Lemma quiet_setTxParameter txID paramID v flag :
  stays_quiet (setTxParameter txID paramID v flag).
Proof. apply quiet_modify. intros w. apply quiet_same; reflexivity. Qed.

Lemma quiet_AllocateKidRange (n : Z) : stays_quiet (AllocateKidRange n).
Proof. intros w o w' [= _ <-]. apply quiet_same; reflexivity. Qed.

Lemma quiet_cache (b : option bool) : stays_quiet (modify (with_IsInitiator b)).
Proof. apply quiet_modify. intros w. apply quiet_same; reflexivity. Qed.

Lemma quiet_emit (e : Event) : stays_quiet (emit e).
Proof.
  apply quiet_modify. intros w. exists [e]. split; [reflexivity | discriminate].
Qed.

(** [OnFailed] rolls the coins back, after it has logged the failure. *)
Lemma quiet_OnFailed reason notify : stays_quiet (OnFailed reason notify).
Proof.
  intros w o w' Hrun.
  destruct (OnFailed_spec reason notify w) as (sent & w2 & Hrun2 & Hev & _).
  rewrite Hrun2 in Hrun. injection Hrun as _ <-.
  eexists. split; [exact Hev | discriminate].
Qed.

Create HintDb quiet.

Ltac quiet_step :=
  lazymatch goal with
  | |- stays_quiet (bind _ _) => apply quiet_bind; [ | intros ? ]
  | |- stays_quiet (ret _) => apply quiet_ret
  | |- stays_quiet (throw _) => apply quiet_throw
  | |- stays_quiet return_ => apply quiet_return
  | |- stays_quiet (when _ _) => apply quiet_when
  | |- stays_quiet (setTxParameter _ _ _ _) => apply quiet_setTxParameter
  | |- stays_quiet (emit _) => apply quiet_emit
  | |- stays_quiet (AllocateKidRange _) => apply quiet_AllocateKidRange
  | |- stays_quiet (modify (with_IsInitiator _)) => apply quiet_cache
  | |- stays_quiet (OnFailed _ _) => apply quiet_OnFailed
  | |- stays_quiet (if ?b then _ else _) => destruct b
  | |- stays_quiet (match ?x with _ => _ end) => destruct x
  | |- stays_quiet (let _ := _ in _) => cbv zeta
  | |- stays_quiet (fun w => (_, w)) => apply quiet_reader
  | |- stays_quiet _ => solve [auto with quiet]
  end.

Ltac quiet_all := repeat quiet_step.

Lemma quiet_GetTxID : stays_quiet GetTxID.
Proof. apply (quiet_reader (fun w => Val (m_ID w))). Qed.
Lemma quiet_get_world : stays_quiet get_world.
Proof. apply (quiet_reader (fun w => Val w)). Qed.
Lemma quiet_getTxParameter tx paramID : stays_quiet (getTxParameter tx paramID).
Proof. apply (quiet_reader (fun w => Val (tx_params w !! (tx, paramID)))). Qed.
Lemma quiet_getAddress wid : stays_quiet (getAddress wid).
Proof. apply (quiet_reader (fun w => Val (addresses w !! wid))). Qed.
Lemma quiet_getTimestamp : stays_quiet getTimestamp.
Proof. apply (quiet_reader (fun w => Val (now w))). Qed.
Lemma quiet_GenRandom : stays_quiet GenRandom.
Proof. apply (quiet_reader (fun w => Val (random w))). Qed.
#[local] Hint Resolve quiet_GetTxID quiet_get_world quiet_getTxParameter quiet_getAddress
  quiet_getTimestamp quiet_GenRandom : quiet.

(** The part of [UpdateImpl_negotiate] that follows the first-update block
    is made of these. *)
Lemma quiet_GetParameter {T} (as_T : ParamValue -> option T) paramID :
  stays_quiet (GetParameter as_T paramID).
Proof. unfold GetParameter. quiet_all. Qed.
#[local] Hint Resolve quiet_GetParameter : quiet.

Lemma quiet_GetMandatoryParameter {T} (as_T : ParamValue -> option T) paramID :
  stays_quiet (GetMandatoryParameter as_T paramID).
Proof. unfold GetMandatoryParameter. quiet_all. Qed.
Lemma quiet_SetParameter paramID v flag : stays_quiet (SetParameter paramID v flag).
Proof. unfold SetParameter. quiet_all. Qed.
#[local] Hint Resolve quiet_GetMandatoryParameter quiet_SetParameter : quiet.

Lemma quiet_SendTxParameters params : stays_quiet (SendTxParameters params).
Proof. unfold SendTxParameters. quiet_all. Qed.
Lemma quiet_IsInitiator : stays_quiet IsInitiator.
Proof. unfold IsInitiator. quiet_all. Qed.
Lemma quiet_get_PeerVersion : stays_quiet get_PeerVersion.
Proof. unfold get_PeerVersion. quiet_all. Qed.
Lemma quiet_UpdateTxDescription s : stays_quiet (UpdateTxDescription s).
Proof. unfold UpdateTxDescription. quiet_all. Qed.
Lemma quiet_SetState s : stays_quiet (SetState s).
Proof. unfold SetState. quiet_all. Qed.
#[local] Hint Resolve quiet_SendTxParameters quiet_IsInitiator quiet_get_PeerVersion
  quiet_UpdateTxDescription quiet_SetState : quiet.

Lemma quiet_ConfirmKernel k : stays_quiet (ConfirmKernel k).
Proof. unfold ConfirmKernel. quiet_all. Qed.
Lemma quiet_CreateKernel b : stays_quiet (CreateKernel b).
Proof. unfold CreateKernel. quiet_all. Qed.
Lemma quiet_GetPeerPublicExcessAndNonce b : stays_quiet (GetPeerPublicExcessAndNonce b).
Proof. unfold GetPeerPublicExcessAndNonce. quiet_all. Qed.
Lemma quiet_GetPeerSignature b : stays_quiet (GetPeerSignature b).
Proof. unfold GetPeerSignature. quiet_all. Qed.
Lemma quiet_GetPeerInputsAndOutputs b : stays_quiet (GetPeerInputsAndOutputs b).
Proof. unfold GetPeerInputsAndOutputs. quiet_all. Qed.
Lemma quiet_StoreKernelID b : stays_quiet (StoreKernelID b).
Proof. unfold StoreKernelID, SetParameter'. quiet_all. Qed.
#[local] Hint Resolve quiet_ConfirmKernel quiet_CreateKernel quiet_GetPeerPublicExcessAndNonce
  quiet_GetPeerSignature quiet_GetPeerInputsAndOutputs quiet_StoreKernelID : quiet.

Lemma quiet_SignPartial b : stays_quiet (SignPartial b).
Proof. unfold SignPartial. quiet_all. Qed.
Lemma quiet_FinalizeSignature b : stays_quiet (FinalizeSignature b).
Proof. unfold FinalizeSignature. quiet_all. Qed.
Lemma quiet_SendInvitation b isSender : stays_quiet (SendInvitation b isSender).
Proof. unfold SendInvitation. quiet_all. Qed.
Lemma quiet_signed_confirmation : stays_quiet signed_confirmation.
Proof. unfold signed_confirmation. quiet_all. Qed.
#[local] Hint Resolve quiet_SignPartial quiet_FinalizeSignature quiet_SendInvitation
  quiet_signed_confirmation : quiet.

Lemma quiet_ConfirmInvitation b sendUtxos : stays_quiet (ConfirmInvitation b sendUtxos).
Proof. unfold ConfirmInvitation. quiet_all. Qed.
Lemma quiet_ConfirmTransaction b sendUtxos : stays_quiet (ConfirmTransaction b sendUtxos).
Proof. unfold ConfirmTransaction. quiet_all. Qed.
Lemma quiet_payment_confirmed : stays_quiet payment_confirmed.
Proof. unfold payment_confirmed. quiet_all. Qed.
#[local] Hint Resolve quiet_ConfirmInvitation quiet_ConfirmTransaction
  quiet_payment_confirmed : quiet.

Lemma reads_reader {A} (f : World -> Outcome A) : reads (fun w => (f w, w)).
Proof. intros w o w' [= _ <-]. reflexivity. Qed.

Lemma reads_bind {A B} (m : M A) (f : A -> M B) :
  reads m -> (forall a, reads (f a)) -> reads (bind m f).
Proof.
  intros Hm Hf w o w'. unfold bind.
  destruct (m w) as [[a | | e] w1] eqn:Hrun; pose proof (Hm _ _ _ Hrun) as ->.
  - apply Hf.
  - intros [= _ <-]. reflexivity.
  - intros [= _ <-]. reflexivity.
Qed.

Ltac reads_step :=
  lazymatch goal with
  | |- reads (bind _ _) => apply reads_bind; [ | intros ? ]
  | |- reads (if ?b then _ else _) => destruct b
  | |- reads (match ?x with _ => _ end) => destruct x
  | |- reads (let _ := _ in _) => cbv zeta
  | |- reads (fun w => (_, w)) => apply reads_reader
  | |- reads (ret ?a) => apply (reads_reader (fun _ => Val a))
  | |- reads (throw ?e) => apply (reads_reader (fun _ => Throw e))
  | |- reads GetTxID => apply (reads_reader (fun w => Val (m_ID w)))
  | |- reads (getTxParameter ?tx ?p) =>
      apply (reads_reader (fun w => Val (tx_params w !! (tx, p))))
  | |- reads (getAddress ?wid) => apply (reads_reader (fun w => Val (addresses w !! wid)))
  end.

Lemma reads_GetParameter {T} (as_T : ParamValue -> option T) paramID :
  reads (GetParameter as_T paramID).
Proof. unfold GetParameter. repeat reads_step. Qed.

Lemma reads_GetMandatoryParameter {T} (as_T : ParamValue -> option T) paramID :
  reads (GetMandatoryParameter as_T paramID).
Proof.
  unfold GetMandatoryParameter. apply reads_bind; [apply reads_GetParameter | intros ?].
  repeat reads_step.
Qed.

Lemma reads_IsSelfTx : reads IsSelfTx.
Proof.
  unfold IsSelfTx. apply reads_bind; [apply reads_GetMandatoryParameter | intros ?].
  repeat reads_step.
Qed.

Lemma reads_GetState : reads GetState.
Proof.
  unfold GetState. apply reads_bind; [apply reads_GetParameter | intros ?].
  repeat reads_step.
Qed.

Lemma reads_GetInitialTxParams b : reads (GetInitialTxParams b).
Proof.
  unfold GetInitialTxParams.
  repeat first [ apply reads_GetParameter
               | apply reads_bind; [ | intros ?]
               | reads_step ].
Qed.

(** What a run of [m] and then [f] is, when [m] only reads: the run of [f]
    in the same world, or the end of [m]. *)
Lemma bind_reads {A B} (m : M A) (f : A -> M B) (w : World) o w' :
  reads m -> bind m f w = (o, w') ->
  (exists a, m w = (Val a, w) /\ f a w = (o, w')) \/ w' = w.
Proof.
  intros Hm. unfold bind.
  destruct (m w) as [[a | | e] w1] eqn:Hrun; pose proof (Hm _ _ _ Hrun) as ->.
  - intros Hf. left. exists a. auto.
  - intros [= _ <-]. right. reflexivity.
  - intros [= _ <-]. right. reflexivity.
Qed.

(** Past its first update, the first part of [UpdateImpl] changes no coin
    without a call on the gateway before it: the only coins it touches
    then are those [OnFailed] rolls back. *)
Lemma UpdateImpl_negotiate_quiet (w w1 : World) (o : Outcome (State.t * TxBuilder)) :
  default State.Initial (param TxParameterID.State w ≫= as_state) <> State.Initial ->
  UpdateImpl_negotiate w = (o, w1) -> quiet w w1.
Proof.
  intros Hst Hrun. unfold UpdateImpl_negotiate in Hrun.
  apply bind_reads in Hrun; [ | apply reads_GetMandatoryParameter].
  destruct Hrun as [(isSender & _ & Hrun) | ->]; [ | apply quiet_refl].
  apply bind_reads in Hrun; [ | apply reads_IsSelfTx].
  destruct Hrun as [(isSelfTx & _ & Hrun) | ->]; [ | apply quiet_refl].
  apply bind_reads in Hrun; [ | apply reads_GetState].
  destruct Hrun as [(txState & Hstate & Hrun) | ->]; [ | apply quiet_refl].
  change (GetState w)
    with (Val (default State.Initial (param TxParameterID.State w ≫= as_state)), w)
    in Hstate.
  injection Hstate as <-.
  apply bind_reads in Hrun;
    [ | apply reads_bind; [apply reads_GetParameter | intros [l | ]]; repeat reads_step;
        apply reads_GetMandatoryParameter].
  destruct Hrun as [(amoutList & _ & Hrun) | ->]; [ | apply quiet_refl].
  apply bind_reads in Hrun; [ | apply reads_GetMandatoryParameter].
  destruct Hrun as [(fee & _ & Hrun) | ->]; [ | apply quiet_refl].
  cbv zeta in Hrun.
  apply bind_reads in Hrun; [ | apply reads_GetInitialTxParams].
  destruct Hrun as [([hasInitial builder] & _ & Hrun) | ->]; [ | apply quiet_refl].
  rewrite (bool_decide_eq_false_2 _ Hst), andb_false_r in Hrun.
  revert Hrun. apply quiet_bind; [apply quiet_ret | intros builder0].
  unfold SetParameter'. quiet_all.
Qed.

(** The kernel-proof step of [UpdateImpl], from the world the negotiation left. *)
Lemma kernel_proof_step (w w1 : World) (txState : State.t) (builder : TxBuilder)
    (hProof : Height) :
  CheckExternalFailures w = (Val false, w) ->
  UpdateImpl_negotiate w = (Val (txState, builder), w1) ->
  param TxParameterID.KernelProofHeight w1 = Some (VInt hProof) ->
  0 < hProof ->
  coins_keyed (coins w1) ->
  exists w2,
    SimpleTransaction_Update w = (Val tt, w2) /\
    coins w2 =
      (fun c => if is_unconfirmed (m_ID w1) c then confirm_coin hProof c else c)
        <$> coins w1 /\
    (forall id c,
       coins w1 !! id = Some c -> is_unconfirmed (m_ID w1) c = true ->
       (Coin.m_status c = Coin.Outgoing ->
        coins w2 !! id = Some (Coin.with_status Coin.Spent c)) /\
       (Coin.m_status c = Coin.Incoming ->
        coins w2 !! id =
          Some (Coin.with_maturity (add64 hProof Maturity_Std)
                  (Coin.with_confirmHeight hProof
                     (Coin.with_status Coin.Available c))))) /\
    (hProof + Maturity_Std < two64 -> 0 <= Maturity_Std ->
     add64 hProof Maturity_Std = hProof + Maturity_Std) /\
    status_of w2 = Some TxStatus.Completed /\
    events w2 = events w1 ++ [on_tx_completed (m_ID w1)].
Proof.
  intros Hc Hneg Hproof Hpos Hkeyed.
  pose (cs2 := (fun c => if is_unconfirmed (m_ID w1) c then confirm_coin hProof c else c)
                 <$> coins w1).
  pose (w2 := with_events (events w1 ++ [on_tx_completed (m_ID w1)])
                (set_param TxParameterID.ModifyTime (VInt (now w1))
                   (set_param TxParameterID.Status (VStatus TxStatus.Completed)
                      (with_coins cs2 w1)))).
  assert (Hrun : call UpdateImpl w = (Val tt, w2)).
  { unfold call, UpdateImpl. unfold bind at 1. rewrite Hneg.
    unfold UpdateImpl_confirm. unfold bind at 1. rewrite GetParameter_run, Hproof. simpl.
    destruct (Z.eqb_spec hProof 0) as [-> | _]; [lia | ].
    unfold bind at 1. unfold GetUnconfirmedOutputs, visit, bind at 1. simpl.
    unfold bind, save, modify, CompleteTx. simpl.
    rewrite (save_coins_changed _ _ _ Hkeyed (confirm_coin_ID hProof)).
    reflexivity. }
  exists w2. split.
  { unfold SimpleTransaction_Update. rewrite (Update_after_check _ _ Hc).
    unfold bind at 1. rewrite Hrun. unfold CheckExpired, GetMandatoryParameter.
    unfold bind at 1. unfold bind at 1. rewrite GetParameter_run.
    assert (Hst : param TxParameterID.Status w2 = Some (VStatus TxStatus.Completed)).
    { unfold w2, param. simpl. rewrite lookup_insert_ne by discriminate.
      apply lookup_insert_eq. }
    rewrite Hst. simpl. reflexivity. }
  split; [reflexivity | ]. split.
  { intros id c Hid Hun. simpl. unfold cs2. rewrite lookup_fmap, Hid. simpl.
    rewrite Hun. unfold confirm_coin. split; intros Hs.
    - destruct (decide _); [reflexivity | contradiction].
    - destruct (decide _) as [Ho | _]; [congruence | reflexivity]. }
  split.
  { intros Hlt Hnn. unfold add64, wrap64. apply Z.mod_small. lia. }
  split; [ | reflexivity].
  unfold status_of, param, w2. simpl.
  rewrite lookup_insert_ne by discriminate. rewrite lookup_insert_eq. reflexivity.
Qed.

(** C1, as the code has it.  Take a transaction past its first update
    (the stored [State] is not [Initial]) whose bag holds a
    [KernelProofHeight] above 0 when [Update()] starts.  When [Update()]
    takes up no external failure and the first part of [UpdateImpl] runs
    through to the kernel-proof step without an event (it raises no
    failure and sends nothing: the peer's data is there, its signature
    verifies, no failure is raised over the payment confirmation,
    [TransactionRegistered] is true), then, of the coins in the store when
    [Update()] starts, those this transaction spends that are [Outgoing]
    become [Spent], those it creates that are [Incoming] become
    [Available] with the proof height as confirm height and the proof
    height plus the standard maturity as maturity (in 64-bit arithmetic),
    and every other coin stays as it is; the status becomes [Completed],
    and the one event is the gateway's [on_tx_completed]. *)
Theorem kernel_proof_completes (w w1 : World) (txState : State.t) (builder : TxBuilder)
    (hProof : Height) :
  param TxParameterID.KernelProofHeight w = Some (VInt hProof) ->
  0 < hProof ->
  coins_keyed (coins w) ->
  default State.Initial (param TxParameterID.State w ≫= as_state) <> State.Initial ->
  CheckExternalFailures w = (Val false, w) ->
  UpdateImpl_negotiate w = (Val (txState, builder), w1) ->
  events w1 = events w ->
  exists w2,
    SimpleTransaction_Update w = (Val tt, w2) /\
    coins w2 =
      (fun c => if is_unconfirmed (m_ID w) c then confirm_coin hProof c else c)
        <$> coins w /\
    (forall id c,
       coins w !! id = Some c -> is_unconfirmed (m_ID w) c = true ->
       (Coin.m_status c = Coin.Outgoing ->
        coins w2 !! id = Some (Coin.with_status Coin.Spent c)) /\
       (Coin.m_status c = Coin.Incoming ->
        coins w2 !! id =
          Some (Coin.with_maturity (add64 hProof Maturity_Std)
                  (Coin.with_confirmHeight hProof
                     (Coin.with_status Coin.Available c))))) /\
    (hProof + Maturity_Std < two64 -> 0 <= Maturity_Std ->
     add64 hProof Maturity_Std = hProof + Maturity_Std) /\
    status_of w2 = Some TxStatus.Completed /\
    events w2 = events w ++ [on_tx_completed (m_ID w)].
Proof.
  intros Hproof Hpos Hkeyed Hst Hc Hneg Hev.
  destruct (keeps_UpdateImpl_negotiate _ _ _ Hneg) as (Hid & Hsame & Hkeyed1).
  destruct (UpdateImpl_negotiate_quiet w w1 _ Hst Hneg) as (es & Hes & Hcoins).
  assert (Hnil : es = []).
  { apply (app_inv_head (events w)). rewrite app_nil_r, <- Hes. exact Hev. }
  rewrite <- Hid, <- (Hcoins Hnil), <- Hev.
  apply (kernel_proof_step w w1 txState builder hProof); auto.
  rewrite Hsame. exact Hproof.
Qed.

Lemma wrap64_add_l (x y : Z) : wrap64 (wrap64 x + y) = wrap64 (x + y).
Proof. unfold wrap64. apply Zplus_mod_idemp_l. Qed.

Lemma wrap64_sub (x y : Z) : wrap64 (wrap64 x - wrap64 y) = wrap64 (x - y).
Proof. unfold wrap64. symmetry. apply Zminus_mod. Qed.

Lemma wrap64_idem (x : Z) : wrap64 (wrap64 x) = wrap64 x.
Proof. unfold wrap64. apply Z.mod_mod. unfold two64. lia. Qed.

Lemma foldl_add64 (l : list Z) (t : Z) :
  foldl add64 (wrap64 t) l = wrap64 (t + sumZ l).
Proof.
  revert t. induction l as [|a l IH]; intros t; simpl.
  - rewrite Z.add_0_r. reflexivity.
  - unfold add64 at 2. rewrite wrap64_add_l, IH. f_equal. lia.
Qed.

Lemma GetAmount_sum (b : TxBuilder) : GetAmount b = wrap64 (sumZ (m_AmountList b)).
Proof. unfold GetAmount. apply (foldl_add64 _ 0). Qed.

(** The loop of [SelectInputs], component by component. *)
Lemma select_inputs_loop (txID : TxID) (chosen marked : list Coin.t)
    (inputs : list Input) (offset : Scalar) (total : Amount) :
  foldl (select_input txID) (marked, inputs, offset, wrap64 total) chosen =
  (marked ++ (Coin.with_spentTxId (Some txID) <$> chosen),
   inputs ++ ((fun c => (calcCommitment (Coin.m_ID c)).2) <$> chosen),
   foldl (fun o c => scalar_add o (calcCommitment (Coin.m_ID c)).1) offset chosen,
   wrap64 (total + sum_values chosen)).
Proof.
  revert marked inputs offset total.
  induction chosen as [|c chosen IH]; intros marked inputs offset total.
  - simpl. rewrite !app_nil_r. unfold sum_values. simpl. rewrite Z.add_0_r. reflexivity.
  - simpl foldl.
    destruct (calcCommitment (Coin.m_ID c)) as [blindingFactor commitment] eqn:Hcomm.
    unfold add64. rewrite wrap64_add_l, IH. simpl. rewrite <- !app_assoc. simpl.
    unfold sum_values. simpl. rewrite Hcomm, Z.add_assoc. reflexivity.
Qed.

Lemma match_nonempty {A B} (l : list A) (x y : B) :
  l <> [] -> match l with [] => x | _ :: _ => y end = y.
Proof. destruct l; [contradiction | reflexivity]. Qed.

Lemma IsInitiator_frame (w w' : World) (o : Outcome bool) :
  IsInitiator w = (o, w') ->
  coins w' = coins w /\ tx_params w' = tx_params w /\ events w' = events w /\
  m_ID w' = m_ID w.
Proof.
  unfold IsInitiator, bind, get_world. simpl.
  destruct (m_IsInitiator w) as [b | ]; [intros [= <- <-]; auto | ].
  unfold GetMandatoryParameter, bind. rewrite GetParameter_run.
  destruct (param TxParameterID.IsInitiator w ≫= as_bool); simpl;
    intros [= <- <-]; auto.
Qed.

(** [SelectInputs], by what the store's selection returns. *)
Lemma SelectInputs_cases (b : TxBuilder) (w : World) :
  let amountWithFee := add64 (GetAmount b) (m_Fee b) in
  let chosen := select_policy (coins w) amountWithFee in
  (chosen = [] ->
   forall initiator wi,
     IsInitiator w = (Val initiator, wi) ->
     SelectInputs b w =
       (Throw (TransactionFailedException (negb initiator) TxFailureReason.NoInputs), wi) /\
     coins wi = coins w /\ tx_params wi = tx_params w /\ events wi = events w) /\
  (chosen <> [] ->
   exists b' w',
     SelectInputs b w = (Val b', w') /\
     (forall c, c ∈ chosen ->
        exists c', coins w' !! Coin.m_ID c = Some c' /\
                   Coin.m_spentTxId c' = Some (m_ID w) /\
                   c' ∈ (Coin.with_spentTxId (Some (m_ID w)) <$> chosen)) /\
     param TxParameterID.Change w' = Some (VInt (m_Change b')) /\
     m_Change b' =
       add64 (m_Change b) (sub64 (wrap64 (sum_values chosen)) amountWithFee) /\
     (m_Change b = 0 ->
      let difference := sum_values chosen - (sumZ (m_AmountList b) + m_Fee b) in
      m_Change b' = wrap64 difference /\
      (0 <= difference < two64 -> m_Change b' = difference))).
Proof.
  intros amountWithFee. cbv zeta.
  remember (select_policy (coins w) amountWithFee) as chosen eqn:Hchosen. split.
  - intros Hempty initiator wi Hinit.
    assert (Hsave : with_coins (save_coins [] (coins w)) w = w) by (destruct w; reflexivity).
    unfold SelectInputs. unfold bind at 1. unfold selectCoins, bind, get_world, save, modify.
    simpl. fold amountWithFee. rewrite <- Hchosen, Hempty, Hsave. simpl.
    rewrite Hinit. split; [reflexivity | ].
    destruct (IsInitiator_frame _ _ _ Hinit) as (Hc & Hp & He & _). auto.
  - intros Hne.
    pose (marked := Coin.with_spentTxId (Some (m_ID w)) <$> chosen).
    pose (total := wrap64 (sum_values chosen)).
    pose (change := add64 (m_Change b) (sub64 total amountWithFee)).
    assert (Hloop : foldl (select_input (m_ID w)) ([], m_Inputs b, m_Offset b, 0) chosen =
                    (marked,
                     m_Inputs b ++ ((fun c => (calcCommitment (Coin.m_ID c)).2) <$> chosen),
                     foldl (fun o c => scalar_add o (calcCommitment (Coin.m_ID c)).1)
                           (m_Offset b) chosen,
                     total)).
    { change 0 with (wrap64 0) at 1. rewrite select_inputs_loop. reflexivity. }
    eexists. eexists. split.
    { unfold SelectInputs. unfold bind at 1. unfold selectCoins, bind, get_world, save, modify.
      simpl. fold amountWithFee. rewrite <- Hchosen.
      rewrite (match_nonempty chosen _ _ Hne).
      change (m_ID (with_coins (save_coins chosen (coins w)) w)) with (m_ID w).
      rewrite Hloop. reflexivity. }
    simpl. split; [ | split; [ | split; [reflexivity | ]]].
    + intros c Hc.
      destruct (save_coins_lookup_saved marked (save_coins chosen (coins w))
                  (Coin.with_spentTxId (Some (m_ID w)) c)) as (c' & Hin & _ & Hlook).
      { apply list_elem_of_fmap. exists c. auto. }
      exists c'. split; [exact Hlook | ]. split; [ | exact Hin].
      apply list_elem_of_fmap in Hin. destruct Hin as (c0 & -> & _). reflexivity.
    + unfold param. simpl. rewrite !lookup_insert_ne by discriminate.
      apply lookup_insert_eq.
    + intros Hzero. fold total. fold change.
      set (difference := sum_values chosen - (sumZ (m_AmountList b) + m_Fee b)).
      assert (Hchange : change = wrap64 difference).
      { unfold change, total, amountWithFee, difference. rewrite Hzero, GetAmount_sum.
        unfold add64, sub64. rewrite Z.add_0_l, wrap64_idem, wrap64_add_l.
        apply wrap64_sub. }
      split; [exact Hchange | ].
      intros Hfits. rewrite Hchange. unfold wrap64. apply Z.mod_small. exact Hfits.
Qed.

(** ** From [Update()] to [SelectInputs] *)

Lemma bind_val {A B} (m : M A) (f : A -> M B) (w w' : World) (a : A) :
  m w = (Val a, w') -> bind m f w = f a w'.
Proof. intros Hm. unfold bind. rewrite Hm. reflexivity. Qed.

Lemma bind_throw {A B} (m : M A) (f : A -> M B) (w w' : World) (e : Exn) :
  m w = (Throw e, w') -> bind m f w = (Throw e, w').
Proof. intros Hm. unfold bind. rewrite Hm. reflexivity. Qed.

Lemma GetMandatoryParameter_run {T} (as_T : ParamValue -> option T) paramID (w : World)
    (x : T) :
  param paramID w ≫= as_T = Some x ->
  GetMandatoryParameter as_T paramID w = (Val x, w).
Proof.
  intros Hx. unfold GetMandatoryParameter.
  rewrite (bind_val _ _ _ _ _ (GetParameter_run as_T paramID w)), Hx. reflexivity.
Qed.

Lemma GetState_run (w : World) :
  GetState w = (Val (default State.Initial (param TxParameterID.State w ≫= as_state)), w).
Proof. reflexivity. Qed.

(** [GetInitialTxParams] reads only; the amounts, the fee and the change of
    the builder stay, and without [BlindingExcess] or without [Offset] it
    answers [false]. *)
Lemma GetInitialTxParams_fresh (b : TxBuilder) (w : World) :
  param TxParameterID.BlindingExcess w ≫= as_scalar = None \/
  param TxParameterID.Offset w ≫= as_scalar = None ->
  exists b',
    GetInitialTxParams b w = (Val (false, b'), w) /\
    m_AmountList b' = m_AmountList b /\ m_Fee b' = m_Fee b /\ m_Change b' = m_Change b.
Proof.
  intros Hfresh. unfold GetInitialTxParams.
  repeat (rewrite (bind_val _ _ _ _ _ (GetParameter_run _ _ w))).
  assert (Hload : forall b0,
             m_AmountList b0 = m_AmountList b /\ m_Fee b0 = m_Fee b /\
             m_Change b0 = m_Change b ->
             forall (l1 : option (list Input)) (l2 : option (list Output)) (h1 h2 : option Z),
               let b1 := load h2 with_MaxHeight
                           (load h1 with_MinHeight
                              (load l2 with_Outputs (load l1 with_Inputs b0))) in
               m_AmountList b1 = m_AmountList b /\ m_Fee b1 = m_Fee b /\
               m_Change b1 = m_Change b).
  { intros b0 Hb0 [l1 | ] [l2 | ] [h1 | ] [h2 | ]; exact Hb0. }
  destruct (param TxParameterID.BlindingExcess w ≫= as_scalar) as [k | ] eqn:Hk.
  - destruct Hfresh as [Hfresh | Hfresh]; [discriminate | ].
    rewrite (bind_val _ _ _ _ _ (GetParameter_run _ _ w)), Hfresh.
    eexists. split; [reflexivity | ].
    simpl. apply Hload. auto.
  - eexists. split; [reflexivity | ]. apply Hload. auto.
Qed.

(** A store none of whose coins is an open input or output of the
    transaction is left as it is by [rollbackTx]. *)
Lemma rollback_coins_untouched (txID : TxID) (cs : gmap CoinID Coin.t) :
  (forall id c, cs !! id = Some c ->
     is_own_input txID c = false /\ is_own_output txID c = false) ->
  rollback_coins txID cs = cs.
Proof.
  intros Hnone. unfold rollback_coins.
  rewrite map_filter_id by (intros id c Hc; apply (Hnone id c Hc)).
  apply map_eq. intros id. rewrite lookup_fmap.
  destruct (cs !! id) as [c | ] eqn:Hc; [ | reflexivity]. simpl.
  rewrite (proj1 (Hnone id c Hc)). reflexivity.
Qed.

(** The sender's first [Update()] with an empty selection: [UpdateImpl]
    gets to [SelectInputs] having changed nothing, and its exception takes
    [Update()] to [OnFailed(NoInputs, !IsInitiator())]. *)
Lemma no_inputs_fails_update (w wi : World) (amounts : list Amount) (fee : Amount)
    (peer : WalletID) (initiator : bool) :
  CheckExternalFailures w = (Val false, w) ->
  param TxParameterID.IsSender w = Some (VBool true) ->
  param TxParameterID.PeerID w = Some (VWalletID peer) ->
  default State.Initial (param TxParameterID.State w ≫= as_state) = State.Initial ->
  (param TxParameterID.AmountList w = Some (VAmountList amounts) \/
   param TxParameterID.AmountList w ≫= as_amounts = None /\
   exists a, param TxParameterID.Amount w = Some (VInt a) /\ amounts = [a]) ->
  param TxParameterID.Fee w = Some (VInt fee) ->
  (param TxParameterID.BlindingExcess w ≫= as_scalar = None \/
   param TxParameterID.Offset w ≫= as_scalar = None) ->
  select_policy (coins w) (add64 (foldl add64 0 amounts) fee) = [] ->
  IsInitiator w = (Val initiator, wi) ->
  SimpleTransaction_Update w = OnFailed TxFailureReason.NoInputs (negb initiator) wi.
Proof.
  intros Hc Hsender Hpeer Hstate Hamounts Hfee Hfresh Hempty Hinit.
  unfold SimpleTransaction_Update. rewrite (Update_after_check _ _ Hc).
  assert (Himpl : UpdateImpl w =
                  (Throw (TransactionFailedException (negb initiator)
                            TxFailureReason.NoInputs), wi)).
  { unfold UpdateImpl. apply bind_throw. unfold UpdateImpl_negotiate.
    rewrite (bind_val _ _ w w true) by (apply GetMandatoryParameter_run; rewrite Hsender; reflexivity).
    erewrite (bind_val IsSelfTx).
    2: { unfold IsSelfTx.
         rewrite (bind_val _ _ w w peer)
           by (apply GetMandatoryParameter_run; rewrite Hpeer; reflexivity).
         reflexivity. }
    rewrite (bind_val _ _ _ _ _ (GetState_run w)), Hstate.
    erewrite (bind_val _ _ w w amounts).
    2: { rewrite (bind_val _ _ _ _ _ (GetParameter_run _ _ w)).
         destruct Hamounts as [Hl | (Hl & a & Ha & ->)].
         - rewrite Hl. reflexivity.
         - rewrite Hl.
           rewrite (bind_val _ _ w w a)
             by (apply GetMandatoryParameter_run; rewrite Ha; reflexivity).
           reflexivity. }
    rewrite (bind_val _ _ w w fee) by (apply GetMandatoryParameter_run; rewrite Hfee; reflexivity).
    destruct (GetInitialTxParams_fresh (TxBuilder_new amounts fee) w Hfresh)
      as (b & Hget & Hlist & Hbfee & _).
    rewrite (bind_val _ _ _ _ _ Hget). simpl negb. simpl andb.
    rewrite bool_decide_eq_true_2 by reflexivity.
    apply bind_throw. apply bind_throw. apply bind_throw.
    apply (proj1 (SelectInputs_cases b w)); [ | exact Hinit].
    unfold GetAmount. rewrite Hlist, Hbfee. exact Hempty. }
  unfold bind, call. rewrite Himpl. reflexivity.
Qed.

(** C2. What [SelectInputs] does for the amounts and the fee of its builder.
    When the store's selection is empty it throws
    [TransactionFailedException(!IsInitiator(), NoInputs)] and leaves every
    coin, every parameter and the gateway alone; the sender's [Update()]
    then fails the transaction with [NoInputs] (status [Failed]) and, as
    no coin belongs to the transaction yet, its rollback changes no coin.
    Otherwise every selected coin is in the store with [spentTxId] set to
    this transaction, and the change recorded under [Change] is the total
    of the selected coins minus amount plus fee, in 64-bit arithmetic: for
    a builder fresh from its constructor, that difference modulo 2^64, and
    the difference itself when it fits. *)
Theorem select_inputs_spec :
  (forall (b : TxBuilder) (w : World),
     let amountWithFee := add64 (GetAmount b) (m_Fee b) in
     let chosen := select_policy (coins w) amountWithFee in
     (chosen = [] ->
      forall initiator wi,
        IsInitiator w = (Val initiator, wi) ->
        SelectInputs b w =
          (Throw (TransactionFailedException (negb initiator) TxFailureReason.NoInputs), wi) /\
        coins wi = coins w /\ tx_params wi = tx_params w /\ events wi = events w) /\
     (chosen <> [] ->
      exists b' w',
        SelectInputs b w = (Val b', w') /\
        (forall c, c ∈ chosen ->
           exists c', coins w' !! Coin.m_ID c = Some c' /\
                      Coin.m_spentTxId c' = Some (m_ID w) /\
                      c' ∈ (Coin.with_spentTxId (Some (m_ID w)) <$> chosen)) /\
        param TxParameterID.Change w' = Some (VInt (m_Change b')) /\
        m_Change b' =
          add64 (m_Change b) (sub64 (wrap64 (sum_values chosen)) amountWithFee) /\
        (m_Change b = 0 ->
         let difference := sum_values chosen - (sumZ (m_AmountList b) + m_Fee b) in
         m_Change b' = wrap64 difference /\
         (0 <= difference < two64 -> m_Change b' = difference)))) /\
  (forall (w wi : World) (amounts : list Amount) (fee : Amount) (peer : WalletID)
          (initiator : bool),
     CheckExternalFailures w = (Val false, w) ->
     param TxParameterID.IsSender w = Some (VBool true) ->
     param TxParameterID.PeerID w = Some (VWalletID peer) ->
     default State.Initial (param TxParameterID.State w ≫= as_state) = State.Initial ->
     (param TxParameterID.AmountList w = Some (VAmountList amounts) \/
      param TxParameterID.AmountList w ≫= as_amounts = None /\
      exists a, param TxParameterID.Amount w = Some (VInt a) /\ amounts = [a]) ->
     param TxParameterID.Fee w = Some (VInt fee) ->
     (param TxParameterID.BlindingExcess w ≫= as_scalar = None \/
      param TxParameterID.Offset w ≫= as_scalar = None) ->
     select_policy (coins w) (add64 (foldl add64 0 amounts) fee) = [] ->
     IsInitiator w = (Val initiator, wi) ->
     exists w',
       SimpleTransaction_Update w = (Val tt, w') /\
       status_of w' = Some TxStatus.Failed /\
       In (log_failed (m_ID w) TxFailureReason.NoInputs) (events w') /\
       coins w' = rollback_coins (m_ID w) (coins w) /\
       ((forall id c, coins w !! id = Some c ->
           is_own_input (m_ID w) c = false /\ is_own_output (m_ID w) c = false) ->
        coins w' = coins w)).
Proof.
  split; [exact SelectInputs_cases | ].
  intros w wi amounts fee peer initiator Hc Hsender Hpeer Hstate Hamounts Hfee Hfresh
         Hempty Hinit.
  rewrite (no_inputs_fails_update w wi amounts fee peer initiator) by assumption.
  destruct (IsInitiator_frame _ _ _ Hinit) as (Hcoins & _ & Hev & Hid).
  destruct (OnFailed_spec TxFailureReason.NoInputs (negb initiator) wi)
    as (sent & w' & -> & Hev' & _ & _ & _ & Hst & Hcoins' & _).
  exists w'. split; [reflexivity | ]. split; [exact Hst | ].
  rewrite Hid, Hcoins in Hcoins'. rewrite Hid, Hev in Hev'. split; [ | split].
  - rewrite Hev'. apply in_or_app. right. left. reflexivity.
  - exact Hcoins'.
  - intros Hnone. rewrite Hcoins'. apply rollback_coins_untouched, Hnone.
Qed.

(** ** Code that stays confined *)

Lemma confined_refl (w : World) : confined w w.
Proof.
  unfold confined. repeat split; try reflexivity; auto.
  exists []. rewrite app_nil_r. auto.
Qed.

Lemma concerns_confined (w w' : World) (e : Event) :
  confined w w' -> concerns w' e -> concerns w e.
Proof.
  intros (Hid & _ & _ & _ & _ & _ & Hp & _).
  assert (Hsame : forall p, (p = TxParameterID.PeerID \/ p = TxParameterID.MyID) ->
                            param p w' = param p w).
  { intros p Hpm. unfold param. rewrite Hid.
    destruct (Hp (m_ID w) p) as [-> | (_ & v & _ & Hw)]; [reflexivity | ].
    destruct Hpm as [-> | ->]; inversion Hw. }
  destruct e as [peer msg | id tx | id k | id | id r]; simpl; rewrite ?Hid; auto.
  rewrite !Hsame by auto. auto.
Qed.

Lemma confined_trans (w1 w2 w3 : World) : confined w1 w2 -> confined w2 w3 -> confined w1 w3.
Proof.
  intros H12 H23. pose proof H12 as (Hid & Ha & Ht & Hn & Hr & Hk & Hp & es & He & Hes).
  destruct H23 as (Hid' & Ha' & Ht' & Hn' & Hr' & Hk' & Hp' & es' & He' & Hes').
  unfold confined. repeat split; try congruence; try lia.
  - intros txID paramID.
    destruct (Hp' txID paramID) as [Hsame' | (-> & v & Hv & Hw)].
    + destruct (Hp txID paramID) as [Hsame | (-> & v & Hv & Hw)].
      * left. congruence.
      * right. split; [reflexivity | ]. exists v. split; [congruence | exact Hw].
    + right. split; [exact Hid | ]. exists v. auto.
  - exists (es ++ es'). split; [rewrite He', He, app_assoc; reflexivity | ].
    apply Forall_app. split; [exact Hes | ].
    eapply Forall_impl; [exact Hes' | ]. intros e. apply concerns_confined, H12.
Qed.

Lemma confined_reader {A} txID (f : World -> Outcome A) :
  stays_confined txID (fun w => (f w, w)).
Proof. intros w o w' _ [= _ <-]. apply confined_refl. Qed.

Lemma confined_ret {A} txID (a : A) : stays_confined txID (ret a).
Proof. apply (confined_reader txID (fun _ => Val a)). Qed.
Lemma confined_throw {A} txID (e : Exn) : stays_confined txID (@throw A e).
Proof. apply (confined_reader txID (fun _ => Throw e)). Qed.
Lemma confined_return {A} txID : stays_confined txID (@return_ A).
Proof. apply (confined_reader txID (fun _ => Return)). Qed.

Lemma confined_bind {A B} txID (m : M A) (f : A -> M B) :
  stays_confined txID m -> (forall a, stays_confined txID (f a)) ->
  stays_confined txID (bind m f).
Proof.
  intros Hm Hf w o w' Hw. unfold bind.
  destruct (m w) as [[a | | e] w1] eqn:Hrun; pose proof (Hm _ _ _ Hw Hrun) as H1.
  - intros Hrun'. refine (confined_trans _ _ _ H1 (Hf a _ _ _ _ Hrun')).
    destruct H1 as (Hid & _). congruence.
  - intros [= _ <-]. exact H1.
  - intros [= _ <-]. exact H1.
Qed.

(** Under [GetTxID] the code that follows runs with the transaction's id. *)
Lemma confined_GetTxID {B} txID (f : TxID -> M B) :
  stays_confined txID (f txID) -> stays_confined txID (bind GetTxID f).
Proof. intros Hf w o w' Hw. unfold bind, GetTxID. rewrite Hw. apply Hf, Hw. Qed.

Lemma confined_call txID (m : M unit) : stays_confined txID m -> stays_confined txID (call m).
Proof.
  intros Hm w o w' Hw. unfold call.
  destruct (m w) as [[a | | e] w1] eqn:Hrun; pose proof (Hm _ _ _ Hw Hrun) as H1;
    intros [= _ <-]; exact H1.
Qed.

Lemma confined_when txID (b : bool) (m : M unit) :
  stays_confined txID m -> stays_confined txID (when b m).
Proof. intros Hm. destruct b; [exact Hm | apply confined_ret]. Qed.

Lemma confined_foldM {A B} txID (f : B -> A -> M B) (l : list A) (b : B) :
  (forall b a, stays_confined txID (f b a)) -> stays_confined txID (foldM f l b).
Proof.
  intros Hf. revert b. induction l as [|a l IH]; intros b; simpl.
  - apply confined_ret.
  - apply confined_bind; [apply Hf | exact IH].
Qed.

Lemma confined_modify txID (f : World -> World) :
  (forall w, m_ID w = txID -> confined w (f w)) -> stays_confined txID (modify f).
Proof. intros Hf w o w' Hw [= _ <-]. apply Hf, Hw. Qed.

Lemma confined_with_coins (cs : gmap CoinID Coin.t) (w : World) : confined w (with_coins cs w).
Proof.
  unfold confined. simpl. repeat split; try reflexivity; auto.
  exists []. rewrite app_nil_r. auto.
Qed.

Lemma confined_setTxParameter txID paramID v flag :
  written paramID v -> stays_confined txID (setTxParameter txID paramID v flag).
Proof.
  intros Hw. apply confined_modify. intros w <-.
  unfold confined. simpl. repeat split; try reflexivity.
  - intros txID paramID'. destruct (decide ((m_ID w, paramID) = (txID, paramID'))) as [[= <- <-] | Hne].
    + right. split; [reflexivity | ]. exists v. split; [apply lookup_insert_eq | exact Hw].
    + left. apply lookup_insert_ne, Hne.
  - exists []. rewrite app_nil_r. auto.
Qed.

Lemma confined_save txID (l : list Coin.t) : stays_confined txID (save l).
Proof. apply confined_modify. intros w _. apply confined_with_coins. Qed.

Lemma confined_rollbackTx txID : stays_confined txID (rollbackTx txID).
Proof. apply confined_modify. intros w _. apply confined_with_coins. Qed.

Lemma confined_AllocateKidRange txID (n : Z) :
  0 <= n -> stays_confined txID (AllocateKidRange n).
Proof.
  intros Hn w o w' _ [= _ <-]. unfold confined. simpl.
  repeat split; try reflexivity; auto; try lia.
  exists []. rewrite app_nil_r. auto.
Qed.

Lemma confined_cache txID (b : option bool) : stays_confined txID (modify (with_IsInitiator b)).
Proof.
  apply confined_modify. intros w _. unfold confined. simpl.
  repeat split; try reflexivity; auto.
  exists []. rewrite app_nil_r. auto.
Qed.

Lemma confined_emit txID (e : Event) : own_event txID e -> stays_confined txID (emit e).
Proof.
  intros He. apply confined_modify. intros w Hw. unfold confined. simpl.
  repeat split; try reflexivity; auto.
  exists [e]. split; [reflexivity | ]. constructor; [ | constructor].
  destruct e; simpl in *; congruence || contradiction.
Qed.

Lemma confined_SendTxParameters txID params : stays_confined txID (SendTxParameters params).
Proof.
  intros w o w' Hw. unfold SendTxParameters.
  unfold bind at 1. unfold GetTxID. unfold bind at 1. rewrite GetParameter_run.
  destruct (param TxParameterID.MyID w ≫= as_wallet_id) as [from | ] eqn:Hfrom;
    [ | intros [= _ <-]; apply confined_refl].
  unfold bind at 1. rewrite GetParameter_run.
  destruct (param TxParameterID.PeerID w ≫= as_wallet_id) as [peer | ] eqn:Hpeer;
    [ | intros [= _ <-]; apply confined_refl].
  intros [= _ <-]. unfold confined. simpl. repeat split; try reflexivity; auto.
  eexists. split; [reflexivity | ]. constructor; [ | constructor].
  simpl. auto.
Qed.

Create HintDb confined.

Ltac confined_step :=
  lazymatch goal with
  | |- stays_confined _ (bind GetTxID _) => apply confined_GetTxID
  | |- stays_confined _ (bind _ _) => apply confined_bind; [ | intros ? ]
  | |- stays_confined _ (ret _) => apply confined_ret
  | |- stays_confined _ (throw _) => apply confined_throw
  | |- stays_confined _ return_ => apply confined_return
  | |- stays_confined _ (when _ _) => apply confined_when
  | |- stays_confined _ (call _) => apply confined_call
  | |- stays_confined _ (foldM _ _ _) => apply confined_foldM; intros ? ?
  | |- stays_confined _ (setTxParameter _ _ _ _) =>
      apply confined_setTxParameter; constructor; discriminate
  | |- stays_confined _ (save _) => apply confined_save
  | |- stays_confined _ (rollbackTx _) => apply confined_rollbackTx
  | |- stays_confined _ (emit _) => apply confined_emit; reflexivity
  | |- stays_confined _ (AllocateKidRange _) => apply confined_AllocateKidRange; lia
  | |- stays_confined _ (modify (with_IsInitiator _)) => apply confined_cache
  | |- stays_confined _ (if ?b then _ else _) => destruct b
  | |- stays_confined _ (match ?x with _ => _ end) => destruct x
  | |- stays_confined _ (let _ := _ in _) => cbv zeta
  | |- stays_confined _ (fun w => (_, w)) => apply confined_reader
  | |- stays_confined _ _ => solve [auto with confined]
  end.

Ltac confined_all := repeat confined_step.

Lemma confined_get_world txID : stays_confined txID get_world.
Proof. apply (confined_reader txID (fun w => Val w)). Qed.
Lemma confined_getTxParameter txID tx paramID : stays_confined txID (getTxParameter tx paramID).
Proof. apply (confined_reader txID (fun w => Val (tx_params w !! (tx, paramID)))). Qed.
Lemma confined_getAddress txID wid : stays_confined txID (getAddress wid).
Proof. apply (confined_reader txID (fun w => Val (addresses w !! wid))). Qed.
Lemma confined_visit txID : stays_confined txID visit.
Proof. apply (confined_reader txID (fun w => Val ((map_to_list (coins w)).*2))). Qed.
Lemma confined_get_tip txID : stays_confined txID get_tip.
Proof. apply (confined_reader txID (fun w => Val (tip w))). Qed.
Lemma confined_getTimestamp txID : stays_confined txID getTimestamp.
Proof. apply (confined_reader txID (fun w => Val (now w))). Qed.
Lemma confined_GenRandom txID : stays_confined txID GenRandom.
Proof. apply (confined_reader txID (fun w => Val (random w))). Qed.
#[local] Hint Resolve confined_get_world confined_getTxParameter confined_getAddress
  confined_visit confined_get_tip confined_getTimestamp confined_GenRandom
  confined_SendTxParameters : confined.

Lemma confined_GetParameter {T} txID (as_T : ParamValue -> option T) paramID :
  stays_confined txID (GetParameter as_T paramID).
Proof. unfold GetParameter. confined_all. Qed.
#[local] Hint Resolve confined_GetParameter : confined.

Lemma confined_GetMandatoryParameter {T} txID (as_T : ParamValue -> option T) paramID :
  stays_confined txID (GetMandatoryParameter as_T paramID).
Proof. unfold GetMandatoryParameter. confined_all. Qed.
#[local] Hint Resolve confined_GetMandatoryParameter : confined.

Lemma confined_store txID (c : Coin.t) : stays_confined txID (store c).
Proof. unfold store. confined_all. Qed.
Lemma confined_selectCoins txID (amount : Amount) : stays_confined txID (selectCoins amount).
Proof. unfold selectCoins. confined_all. Qed.
Lemma confined_IsInitiator txID : stays_confined txID IsInitiator.
Proof. unfold IsInitiator. confined_all. Qed.
Lemma confined_get_PeerVersion txID : stays_confined txID get_PeerVersion.
Proof. unfold get_PeerVersion. confined_all. Qed.
Lemma confined_RollbackTx txID : stays_confined txID RollbackTx.
Proof. unfold RollbackTx. confined_all. Qed.
Lemma confined_UpdateTxDescription txID s :
  s <> TxStatus.Pending -> stays_confined txID (UpdateTxDescription s).
Proof.
  intros Hs. unfold UpdateTxDescription, SetParameter.
  apply confined_bind; [ | intros []].
  - apply confined_GetTxID, confined_setTxParameter. constructor. exact Hs.
  - confined_all.
Qed.
#[local] Hint Resolve confined_store confined_selectCoins confined_IsInitiator
  confined_get_PeerVersion confined_RollbackTx : confined.
#[local] Hint Extern 1 (stays_confined _ (UpdateTxDescription _)) =>
  apply confined_UpdateTxDescription; discriminate : confined.

Lemma confined_ConfirmKernel txID k : stays_confined txID (ConfirmKernel k).
Proof. unfold ConfirmKernel. confined_all. Qed.
Lemma confined_CompleteTx txID : stays_confined txID CompleteTx.
Proof. unfold CompleteTx. confined_all. Qed.
#[local] Hint Resolve confined_ConfirmKernel confined_CompleteTx : confined.

Lemma confined_NotifyFailure txID reason : stays_confined txID (NotifyFailure reason).
Proof. unfold NotifyFailure. confined_all. Qed.
#[local] Hint Resolve confined_NotifyFailure : confined.

Lemma confined_OnFailed txID reason notify : stays_confined txID (OnFailed reason notify).
Proof.
  unfold OnFailed. apply confined_GetTxID.
  apply confined_bind; [confined_all | intros _].
  apply confined_bind; [confined_all | intros _].
  apply confined_bind; [ | intros _; confined_all].
  apply confined_UpdateTxDescription. destruct (decide _); discriminate.
Qed.
#[local] Hint Resolve confined_OnFailed : confined.

Lemma confined_CheckExpired txID : stays_confined txID CheckExpired.
Proof. unfold CheckExpired, GetTip. confined_all. Qed.
Lemma confined_CheckExternalFailures txID : stays_confined txID CheckExternalFailures.
Proof. unfold CheckExternalFailures. confined_all. Qed.

Lemma confined_SelectInputs txID b : stays_confined txID (SelectInputs b).
Proof. unfold SelectInputs, SetParameter. confined_all. Qed.
Lemma confined_AddOutput txID b amount bChange : stays_confined txID (AddOutput b amount bChange).
Proof. unfold AddOutput, CreateOutput. confined_all. Qed.
#[local] Hint Resolve confined_SelectInputs confined_AddOutput : confined.

Lemma confined_AddChangeOutput txID b : stays_confined txID (AddChangeOutput b).
Proof. unfold AddChangeOutput. confined_all. Qed.
Lemma confined_FinalizeOutputs txID b : stays_confined txID (FinalizeOutputs b).
Proof. unfold FinalizeOutputs, SetParameter. confined_all. Qed.
Lemma confined_CreateKernel txID b : stays_confined txID (CreateKernel b).
Proof. unfold CreateKernel, SetParameter. confined_all. Qed.
Lemma confined_GetPeerPublicExcessAndNonce txID b :
  stays_confined txID (GetPeerPublicExcessAndNonce b).
Proof. unfold GetPeerPublicExcessAndNonce. confined_all. Qed.
Lemma confined_GetPeerSignature txID b : stays_confined txID (GetPeerSignature b).
Proof. unfold GetPeerSignature. confined_all. Qed.
Lemma confined_GetInitialTxParams txID b : stays_confined txID (GetInitialTxParams b).
Proof. unfold GetInitialTxParams. confined_all. Qed.
Lemma confined_GetPeerInputsAndOutputs txID b : stays_confined txID (GetPeerInputsAndOutputs b).
Proof. unfold GetPeerInputsAndOutputs. confined_all. Qed.
Lemma confined_StoreKernelID txID b : stays_confined txID (StoreKernelID b).
Proof. unfold StoreKernelID, SetParameter', SetParameter. confined_all. Qed.
#[local] Hint Resolve confined_AddChangeOutput confined_FinalizeOutputs confined_CreateKernel
  confined_GetPeerPublicExcessAndNonce confined_GetPeerSignature confined_GetInitialTxParams
  confined_GetPeerInputsAndOutputs confined_StoreKernelID : confined.

Lemma confined_SignPartial txID b : stays_confined txID (SignPartial b).
Proof. unfold SignPartial. confined_all. Qed.
Lemma confined_FinalizeSignature txID b : stays_confined txID (FinalizeSignature b).
Proof. unfold FinalizeSignature. confined_all. Qed.
Lemma confined_SetState txID s : s <> State.Initial -> stays_confined txID (SetState s).
Proof.
  intros Hs. unfold SetState, SetParameter.
  apply confined_GetTxID, confined_setTxParameter. constructor. exact Hs.
Qed.
Lemma confined_GetState txID : stays_confined txID GetState.
Proof. unfold GetState. confined_all. Qed.
Lemma confined_IsSelfTx txID : stays_confined txID IsSelfTx.
Proof. unfold IsSelfTx. confined_all. Qed.
Lemma confined_SendInvitation txID b isSender : stays_confined txID (SendInvitation b isSender).
Proof. unfold SendInvitation. confined_all. Qed.
Lemma confined_signed_confirmation txID : stays_confined txID signed_confirmation.
Proof. unfold signed_confirmation. confined_all. Qed.
#[local] Hint Resolve confined_SignPartial confined_FinalizeSignature confined_GetState
  confined_IsSelfTx confined_SendInvitation confined_signed_confirmation : confined.
#[local] Hint Extern 1 (stays_confined _ (SetState _)) =>
  apply confined_SetState; discriminate : confined.

Lemma confined_ConfirmInvitation txID b sendUtxos :
  stays_confined txID (ConfirmInvitation b sendUtxos).
Proof. unfold ConfirmInvitation. confined_all. Qed.
Lemma confined_ConfirmTransaction txID b sendUtxos :
  stays_confined txID (ConfirmTransaction b sendUtxos).
Proof. unfold ConfirmTransaction. confined_all. Qed.
Lemma confined_payment_confirmed txID : stays_confined txID payment_confirmed.
Proof. unfold payment_confirmed. confined_all. Qed.
Lemma confined_NotifyTransactionRegistered txID :
  stays_confined txID NotifyTransactionRegistered.
Proof. unfold NotifyTransactionRegistered. confined_all. Qed.
Lemma confined_GetUnconfirmedOutputs txID : stays_confined txID GetUnconfirmedOutputs.
Proof. unfold GetUnconfirmedOutputs. confined_all. Qed.
#[local] Hint Resolve confined_ConfirmInvitation confined_ConfirmTransaction
  confined_payment_confirmed confined_NotifyTransactionRegistered
  confined_GetUnconfirmedOutputs : confined.

Lemma confined_UpdateImpl_negotiate txID : stays_confined txID UpdateImpl_negotiate.
Proof.
  unfold UpdateImpl_negotiate, SetParameter', SetParameter. confined_all.
Qed.

Lemma confined_UpdateImpl_confirm txID txState builder :
  stays_confined txID (UpdateImpl_confirm txState builder).
Proof. unfold UpdateImpl_confirm. confined_all. Qed.

Lemma confined_UpdateImpl txID : stays_confined txID UpdateImpl.
Proof.
  unfold UpdateImpl. apply confined_bind; [apply confined_UpdateImpl_negotiate | ].
  intros [txState builder]. apply confined_UpdateImpl_confirm.
Qed.

Lemma confined_Update txID (impl : M unit) :
  stays_confined txID impl -> stays_confined txID (Update impl).
Proof.
  intros Himpl w o w' Hw. unfold Update.
  assert (Hbody : stays_confined txID
            (let* failed := CheckExternalFailures in
             if failed then return_ else let* _ := call impl in CheckExpired)).
  { apply confined_bind; [apply confined_CheckExternalFailures | intros []].
    - apply confined_return.
    - apply confined_bind; [apply confined_call, Himpl | intros _; apply confined_CheckExpired]. }
  destruct ((let* failed := CheckExternalFailures in
             if failed then return_ else let* _ := call impl in CheckExpired) w)
    as [[u | | [notify reason | ]] w1] eqn:Hrun;
    pose proof (Hbody _ _ _ Hw Hrun) as H1.
  - intros [= _ <-]. exact H1.
  - intros [= _ <-]. exact H1.
  - intros Hfail. refine (confined_trans _ _ _ H1 (confined_OnFailed txID _ _ _ _ _ _ Hfail)).
    destruct H1 as (Hid & _). congruence.
  - intros [= _ <-]. exact H1.
Qed.


(** ** What [Update()] never does *)

(** [Update()] changes an entry of the parameter bag only by writing, for
    its own transaction, one of the parameters of [written] at the value
    [written] gives it: [Status] (never [Pending]), [ModifyTime], [State]
    (never [Initial]), [Change], [Inputs], [Outputs], [Offset],
    [BlindingExcess], [MyNonce], [KernelID], [MyAddressID] and
    [TransactionRegistered] (only [true]).  So the entries of every other
    transaction stay, the parameters the wallet and the peer supply stay,
    and no parameter that was set is ever unset. *)
Theorem update_writes_its_own_parameters (w : World) (txID : TxID)
    (paramID : TxParameterID.t) :
  let w' := (SimpleTransaction_Update w).2 in
  (tx_params w' !! (txID, paramID) = tx_params w !! (txID, paramID) \/
   txID = m_ID w /\
   exists v, tx_params w' !! (txID, paramID) = Some v /\ written paramID v) /\
  (txID <> m_ID w -> tx_params w' !! (txID, paramID) = tx_params w !! (txID, paramID)) /\
  ((forall v, ~ written paramID v) ->
   tx_params w' !! (txID, paramID) = tx_params w !! (txID, paramID)) /\
  (is_Some (tx_params w !! (txID, paramID)) -> is_Some (tx_params w' !! (txID, paramID))).
Proof.
  intros w'.
  assert (Hc : confined w w').
  { subst w'. destruct (SimpleTransaction_Update w) as [o w1] eqn:Hrun.
    exact (confined_Update (m_ID w) UpdateImpl (confined_UpdateImpl (m_ID w)) w o w1
             eq_refl Hrun). }
  destruct Hc as (_ & _ & _ & _ & _ & _ & Hp & _).
  destruct (Hp txID paramID) as [Hsame | (Hid & v & Hv & Hw)].
  - repeat split; auto. rewrite Hsame. auto.
  - split; [right; eauto | ]. split; [congruence | ]. split.
    + intros Hnot. destruct (Hnot v Hw).
    + intros _. rewrite Hv. eauto.
Qed.

(** [Update()] only adds to the events, and what it adds is the
    transaction's own: the calls on the gateway carry its id, and every
    message goes to the stored [PeerID], from the stored [MyID], under its
    id. *)
Theorem update_events_are_its_own (w : World) :
  exists es,
    events (SimpleTransaction_Update w).2 = events w ++ es /\
    Forall (concerns w) es.
Proof.
  destruct (SimpleTransaction_Update w) as [o w1] eqn:Hrun.
  destruct (confined_Update (m_ID w) UpdateImpl (confined_UpdateImpl (m_ID w)) w o w1
              eq_refl Hrun) as (_ & _ & _ & _ & _ & _ & _ & He).
  exact He.
Qed.

(** ** [Cancel], [CheckExpired], [CheckExternalFailures] *)

(** [Cancel] of a transaction that is still [Pending] only deletes its
    record: every parameter of the transaction is gone, those of other
    transactions stay, no coin changes, nothing is sent and the gateway is
    not called. *)
Theorem cancel_pending_only_deletes (w : World) :
  status_of w = Some TxStatus.Pending ->
  exists w',
    Cancel w = (Val tt, w') /\
    (forall paramID, param paramID w' = None) /\
    (forall txID paramID, txID <> m_ID w ->
       tx_params w' !! (txID, paramID) = tx_params w !! (txID, paramID)) /\
    coins w' = coins w /\
    events w' = events w.
Proof.
  intros Hs. unfold Cancel. unfold bind at 1. rewrite GetParameter_run. fold (status_of w).
  rewrite Hs. simpl. unfold bind. simpl. eexists. split; [reflexivity | ]. simpl.
  split; [ | split; [ | auto]].
  - intros paramID. unfold param. simpl. apply map_lookup_filter_None. right.
    intros v _ Hne. apply Hne. reflexivity.
  - intros txID paramID Hne.
    destruct (tx_params w !! (txID, paramID)) as [v | ] eqn:Hv.
    + apply map_lookup_filter_Some. split; [exact Hv | exact Hne].
    + apply map_lookup_filter_None. left. exact Hv.
Qed.

(** [CheckExpired] leaves everything as it is when the transaction is
    [Completed], when the gateway knows no tip, or when the tip is not
    above [MaxHeight] (the parameter, or the largest height when it is not
    set): a tip at [MaxHeight] itself does not expire the transaction. *)
Theorem check_expired_does_nothing (w : World) (s : TxStatus.t) :
  status_of w = Some s ->
  s = TxStatus.Completed \/
  tip w = None \/
  (exists h, tip w = Some h /\
             h <= default MaxHeight (param TxParameterID.MaxHeight w ≫= as_int)) ->
  CheckExpired w = (Val tt, w).
Proof.
  intros Hs Hcase. unfold CheckExpired.
  rewrite (bind_val _ _ _ _ _ (GetMandatoryParameter_run as_status _ w s Hs)).
  destruct (decide (s <> TxStatus.Completed)) as [Hne | _]; [ | reflexivity].
  unfold bind at 1. rewrite GetParameter_run. unfold bind, GetTip, get_tip.
  destruct Hcase as [-> | [-> | (h & -> & Hle)]]; [contradiction | reflexivity | ].
  destruct (Z.ltb_spec (default MaxHeight (param TxParameterID.MaxHeight w ≫= as_int)) h);
    [lia | reflexivity].
Qed.

(** A [FailureReason] in the bag is not taken up while the status is
    anything but [InProgress]: [CheckExternalFailures] answers [false] and
    changes nothing, so the reason stays in the bag. *)
Theorem external_failure_waits_for_in_progress (w : World) (reason : TxFailureReason.t)
    (s : TxStatus.t) :
  param TxParameterID.FailureReason w = Some (VReason reason) ->
  status_of w = Some s ->
  s <> TxStatus.InProgress ->
  CheckExternalFailures w = (Val false, w).
Proof.
  intros Hr Hs Hne. unfold CheckExternalFailures. unfold bind at 1.
  rewrite GetParameter_run, Hr. simpl.
  rewrite (bind_val _ _ _ _ _ (GetMandatoryParameter_run as_status _ w s Hs)).
  destruct (decide (s = TxStatus.InProgress)); [contradiction | reflexivity].
Qed.

(** ** [IsInitiator] and [CreateKernel] *)

(** [IsInitiator] reads the parameter once: after an answer, the same
    answer is given whatever is then written to the parameter, and without
    reading the bag. *)
Theorem is_initiator_is_read_once (w w1 : World) (b : bool) :
  IsInitiator w = (Val b, w1) ->
  m_IsInitiator w1 = Some b /\
  forall w2, m_IsInitiator w2 = m_IsInitiator w1 -> IsInitiator w2 = (Val b, w2).
Proof.
  intros Hrun.
  assert (Hc : m_IsInitiator w1 = Some b).
  { revert Hrun. unfold IsInitiator, bind, get_world. simpl.
    destruct (m_IsInitiator w) as [b0 | ] eqn:Hc; [intros [= <- <-]; exact Hc | ].
    unfold GetMandatoryParameter, bind. rewrite GetParameter_run.
    destruct (param TxParameterID.IsInitiator w ≫= as_bool); simpl; [ | discriminate].
    intros [= <- <-]. reflexivity. }
  split; [exact Hc | ]. intros w2 H2. unfold IsInitiator, bind, get_world. simpl.
  rewrite H2, Hc. reflexivity.
Qed.

(** [CreateKernel], by what it finds in the bag. *)
Lemma CreateKernel_run (b : TxBuilder) (w : World) :
  CreateKernel b w =
  let stored := param TxParameterID.BlindingExcess w ≫= as_scalar in
  let k := default (DeriveKey (mkKeyID (next_kid w) KeyType.KerW 0)) stored in
  let w1 := match stored with
            | Some _ => w
            | None => set_param TxParameterID.BlindingExcess (VScalar k)
                        (with_next_kid (next_kid w + 1) w)
            end in
  let nonce := param TxParameterID.MyNonce w1 ≫= as_hash in
  let h := default (random w1) nonce in
  let w2 := match nonce with
            | Some _ => w1
            | None => set_param TxParameterID.MyNonce (VHash h) w1
            end in
  (Val (with_Nonce (DeriveNonce h)
          (with_BlindingExcess (scalar_neg k)
             (with_Offset (scalar_add (m_Offset b) k)
                (with_BlindingExcess k
                   (with_Kernel (Some (mkTxKernel (m_Fee b) (m_MinHeight b) (m_MaxHeight b) 0
                                                  (mkSignature 0 0))) b))))),
   w2).
Proof.
  unfold CreateKernel. cbv zeta.
  rewrite (bind_val _ _ _ _ _ (GetParameter_run _ _ _)).
  destruct (param TxParameterID.BlindingExcess w ≫= as_scalar) as [k | ]; simpl.
  - unfold bind at 1. simpl.
    rewrite (bind_val _ _ _ _ _ (GetParameter_run _ _ _)).
    destruct (param TxParameterID.MyNonce w ≫= as_hash) as [h | ]; reflexivity.
  - unfold bind at 1. unfold bind at 1. unfold bind at 1. simpl.
    rewrite (bind_val _ _ _ _ _ (GetParameter_run _ _ _)).
    unfold param, set_param. simpl.
    match goal with |- context [?x ≫= as_hash] =>
      destruct (x ≫= as_hash) as [h | ] end; reflexivity.
Qed.

(** [CreateKernel] makes its secrets once.  The first call stores the
    blinding excess and the random its nonce is derived from, unless they
    are stored already; a call in the world it leaves reads them back,
    builds the very same builder and changes nothing: no new key id, no new
    random. *)
Theorem create_kernel_reuses_its_secrets (b : TxBuilder) (w : World) :
  exists b1 w1 k h,
    CreateKernel b w = (Val b1, w1) /\
    CreateKernel b w1 = (Val b1, w1) /\
    param TxParameterID.BlindingExcess w1 ≫= as_scalar = Some k /\
    param TxParameterID.MyNonce w1 ≫= as_hash = Some h /\
    m_BlindingExcess b1 = scalar_neg k /\
    m_Offset b1 = scalar_add (m_Offset b) k /\
    m_Nonce b1 = DeriveNonce h /\
    m_Kernel b1 = Some (mkTxKernel (m_Fee b) (m_MinHeight b) (m_MaxHeight b) 0
                                   (mkSignature 0 0)).
Proof.
  assert (Hagain : forall w1 k h,
            param TxParameterID.BlindingExcess w1 ≫= as_scalar = Some k ->
            param TxParameterID.MyNonce w1 ≫= as_hash = Some h ->
            CreateKernel b w1 =
            (Val (with_Nonce (DeriveNonce h)
                    (with_BlindingExcess (scalar_neg k)
                       (with_Offset (scalar_add (m_Offset b) k)
                          (with_BlindingExcess k
                             (with_Kernel
                                (Some (mkTxKernel (m_Fee b) (m_MinHeight b) (m_MaxHeight b) 0
                                                  (mkSignature 0 0))) b))))), w1)).
  { intros w1 k h Hk Hh. rewrite CreateKernel_run. cbv zeta. rewrite Hk. simpl.
    rewrite Hh. reflexivity. }
  set (k := default (DeriveKey (mkKeyID (next_kid w) KeyType.KerW 0))
                    (param TxParameterID.BlindingExcess w ≫= as_scalar)).
  set (w1 := match param TxParameterID.BlindingExcess w ≫= as_scalar with
             | Some _ => w
             | None => set_param TxParameterID.BlindingExcess (VScalar k)
                         (with_next_kid (next_kid w + 1) w)
             end).
  set (h := default (random w1) (param TxParameterID.MyNonce w1 ≫= as_hash)).
  set (w2 := match param TxParameterID.MyNonce w1 ≫= as_hash with
             | Some _ => w1
             | None => set_param TxParameterID.MyNonce (VHash h) w1
             end).
  assert (Hk1 : param TxParameterID.BlindingExcess w1 ≫= as_scalar = Some k).
  { subst w1 k. destruct (param TxParameterID.BlindingExcess w ≫= as_scalar) eqn:Hk;
      [exact Hk | ]. simpl. rewrite param_set_param_eq. reflexivity. }
  assert (Hk2 : param TxParameterID.BlindingExcess w2 ≫= as_scalar = Some k).
  { subst w2. destruct (param TxParameterID.MyNonce w1 ≫= as_hash); [exact Hk1 | ].
    rewrite param_set_param_ne by discriminate. exact Hk1. }
  assert (Hh2 : param TxParameterID.MyNonce w2 ≫= as_hash = Some h).
  { subst w2 h. destruct (param TxParameterID.MyNonce w1 ≫= as_hash) eqn:Hh;
      [exact Hh | ]. simpl. rewrite param_set_param_eq. reflexivity. }
  eexists. exists w2, k, h. split; [rewrite CreateKernel_run; reflexivity | ].
  split; [exact (Hagain w2 k h Hk2 Hh2) | ].
  split; [exact Hk2 | ]. split; [exact Hh2 | ]. simpl. auto.
Qed.

(** ** Messages to the peer *)

Lemma SendTxParameters_run params (w : World) :
  SendTxParameters params w =
  match param TxParameterID.MyID w ≫= as_wallet_id,
        param TxParameterID.PeerID w ≫= as_wallet_id with
  | Some from, Some peer =>
      (Val true,
       with_events (events w ++ [send_tx_params peer (mkSetTxParameter from (m_ID w) params)]) w)
  | _, _ => (Val false, w)
  end.
Proof.
  unfold SendTxParameters. unfold bind at 1. unfold GetTxID.
  rewrite (bind_val _ _ _ _ _ (GetParameter_run _ _ _)).
  destruct (param TxParameterID.MyID w ≫= as_wallet_id) as [from | ]; [ | reflexivity].
  rewrite (bind_val _ _ _ _ _ (GetParameter_run _ _ _)).
  destruct (param TxParameterID.PeerID w ≫= as_wallet_id) as [peer | ]; reflexivity.
Qed.

(** [SendInvitation] sends the peer one message: the sum of the amounts, the
    fee, the height range, the protocol version, the public excess and
    nonce, and [IsSender] turned round for the peer.  It can only send when
    [MyID] and [PeerID] are both in the bag; when one is missing it fails
    the transaction with [FailedToSendParameters], sending nothing. *)
Theorem send_invitation_outcome (b : TxBuilder) (isSender : bool) (w : World) :
  (forall from peer,
     param TxParameterID.MyID w ≫= as_wallet_id = Some from ->
     param TxParameterID.PeerID w ≫= as_wallet_id = Some peer ->
     SendInvitation b isSender w =
       (Val tt,
        with_events
          (events w ++
           [send_tx_params peer (mkSetTxParameter from (m_ID w) (invitation b isSender))])
          w)) /\
  (param TxParameterID.MyID w ≫= as_wallet_id = None \/
   param TxParameterID.PeerID w ≫= as_wallet_id = None ->
   exists w',
     SendInvitation b isSender w = (Val tt, w') /\
     status_of w' = Some TxStatus.Failed /\
     coins w' = rollback_coins (m_ID w) (coins w) /\
     events w' = events w ++ [log_failed (m_ID w) TxFailureReason.FailedToSendParameters;
                              on_tx_completed (m_ID w)]).
Proof.
  unfold SendInvitation. fold (invitation b isSender). split.
  - intros from peer Hfrom Hpeer. unfold bind. rewrite SendTxParameters_run, Hfrom, Hpeer.
    reflexivity.
  - intros Hmissing.
    destruct (OnFailed_spec TxFailureReason.FailedToSendParameters false w)
      as (sent & w' & Hrun & Hev & _ & _ & Hquiet & Hst & Hcoins & _).
    rewrite (Hquiet eq_refl) in Hev. exists w'.
    unfold bind. rewrite SendTxParameters_run.
    destruct (param TxParameterID.MyID w ≫= as_wallet_id) as [from | ];
      [destruct (param TxParameterID.PeerID w ≫= as_wallet_id) as [peer | ] | ];
      [destruct Hmissing; discriminate | | ]; rewrite Hrun; auto.
Qed.

(** ** The kernel-proof step while the proof is awaited *)

(** With no [KernelProofHeight] in the bag, or with 0 there, the last part
    of [UpdateImpl] touches no coin: it sets the state
    [KernelConfirmation] and the status [Registered], asks the gateway to
    confirm the kernel, and leaves the function.  Only when the state it
    started from was [Registration], and the peer gave no protocol version,
    does it first tell the peer that the transaction is registered. *)
Theorem kernel_proof_awaited (txState : State.t) (builder : TxBuilder) (w : World) :
  default 0 (param TxParameterID.KernelProofHeight w ≫= as_int) = 0 ->
  exists w' sent,
    UpdateImpl_confirm txState builder w = (Return, w') /\
    coins w' = coins w /\
    status_of w' = Some TxStatus.Registered /\
    param TxParameterID.State w' = Some (VState State.KernelConfirmation) /\
    events w' = events w ++ sent ++ [confirm_kernel (m_ID w) (GetKernel builder)] /\
    (sent = [] \/
     txState = State.Registration /\
     param TxParameterID.PeerProtoVersion w ≫= as_int = None /\
     exists from peer,
       sent = [send_tx_params peer
                 (mkSetTxParameter from (m_ID w)
                    [(TxParameterID.TransactionRegistered, VBool true)])]).
Proof.
  intros Hzero. unfold UpdateImpl_confirm.
  rewrite (bind_val _ _ _ _ _ (GetParameter_run _ _ _)). rewrite Hzero. simpl.
  assert (Hrest : forall w0 sent,
            coins w0 = coins w -> m_ID w0 = m_ID w -> events w0 = events w ++ sent ->
            exists w',
              (let* _ := SetState State.KernelConfirmation in
               let* _ := ConfirmKernel (GetKernel builder) in return_) w0
                = (@Return unit, w') /\
              coins w' = coins w /\
              status_of w' = Some TxStatus.Registered /\
              param TxParameterID.State w' = Some (VState State.KernelConfirmation) /\
              events w' = events w ++ sent ++ [confirm_kernel (m_ID w) (GetKernel builder)]).
  { intros w0 sent Hc Hid He. eexists. split; [reflexivity | ]. simpl.
    split; [exact Hc | ]. split; [ | split].
    - unfold status_of, param. simpl. rewrite lookup_insert_ne by discriminate.
      rewrite lookup_insert_eq. reflexivity.
    - unfold param. simpl. rewrite !lookup_insert_ne by discriminate.
      apply lookup_insert_eq.
    - rewrite He, Hid, app_assoc. reflexivity. }
  assert (Hfirst : exists w0 sent,
            when (bool_decide (txState = State.Registration))
                 (let* nVer := GetParameter as_int TxParameterID.PeerProtoVersion in
                  match nVer with
                  | Some _ => ret tt
                  | None => NotifyTransactionRegistered
                  end) w = (Val tt, w0) /\
            coins w0 = coins w /\ m_ID w0 = m_ID w /\ events w0 = events w ++ sent /\
            (sent = [] \/
             txState = State.Registration /\
             param TxParameterID.PeerProtoVersion w ≫= as_int = None /\
             exists from peer,
               sent = [send_tx_params peer
                         (mkSetTxParameter from (m_ID w)
                            [(TxParameterID.TransactionRegistered, VBool true)])])).
  { assert (Hnone : exists w0 sent,
              (Val tt, w) = (Val tt, w0) /\
              coins w0 = coins w /\ m_ID w0 = m_ID w /\ events w0 = events w ++ sent /\
              (sent = [] \/
               txState = State.Registration /\
               param TxParameterID.PeerProtoVersion w ≫= as_int = None /\
               exists from peer,
                 sent = [send_tx_params peer
                           (mkSetTxParameter from (m_ID w)
                              [(TxParameterID.TransactionRegistered, VBool true)])])).
    { exists w, []. rewrite app_nil_r. repeat split; auto. }
    destruct (bool_decide (txState = State.Registration)) eqn:Hreg; [ | exact Hnone].
    apply bool_decide_eq_true in Hreg. simpl.
    rewrite (bind_val _ _ _ _ _ (GetParameter_run _ _ _)).
    destruct (param TxParameterID.PeerProtoVersion w ≫= as_int) as [nVer | ] eqn:Hver;
      [exact Hnone | ].
    unfold NotifyTransactionRegistered, bind. rewrite SendTxParameters_run.
    destruct (param TxParameterID.MyID w ≫= as_wallet_id) as [from | ];
      [destruct (param TxParameterID.PeerID w ≫= as_wallet_id) as [peer | ] | ];
      [ | exact Hnone | exact Hnone].
    eexists. eexists. split; [reflexivity | ]. simpl.
    do 3 (split; [reflexivity | ]). right. eauto. }
  destruct Hfirst as (w0 & sent & Hrun0 & Hc0 & Hid0 & He0 & Hsent).
  destruct (Hrest w0 sent Hc0 Hid0 He0) as (w' & Hrun & H1 & H2 & H3 & H4).
  exists w', sent. rewrite (bind_val _ _ _ _ _ Hrun0). rewrite Hrun. auto 10.
Qed.

(** ** The payment confirmation that is missing *)



























End TransactionProperties.

(** ** Concrete runs *)

#[local] Existing Instance toy_crypto.
#[local] Existing Instance toy_settings.

Lemma keyed_check_sound (cs : gmap CoinID Coin.t) :
  keyed_check cs = true -> coins_keyed cs.
Proof.
  unfold keyed_check. rewrite forallb_forall. intros Hall id c Hc.
  apply elem_of_map_to_list, list_elem_of_In in Hc.
  apply Hall, bool_decide_eq_true in Hc. exact Hc.
Qed.

Lemma kernel_proof_completes_witness :
  exists w2,
    run_Update (proof_arrived true 61) = (Val tt, w2) /\
    coins w2 !! id_of 1 4 = Some (coin 1 4 Coin.Spent None (Some 7)) /\
    coins w2 !! id_of 11 5 =
      Some (Coin.with_maturity 120
              (Coin.with_confirmHeight 60 (coin 11 5 Coin.Available (Some 7) None))) /\
    coins w2 !! id_of 2 5 = Some (coin 2 5 Coin.Available None None) /\
    status_of w2 = Some TxStatus.Completed /\
    events w2 = [on_tx_completed 7].
Proof.
  destruct (@kernel_proof_completes toy_crypto toy_settings
              (proof_arrived true 61) negotiated.2 State.KernelConfirmation
              negotiated_builder 60)
    as (w2 & Hrun & Hcoins & Hflip & _ & Hstatus & Hevents).
  - vm_compute. reflexivity.
  - lia.
  - apply keyed_check_sound. vm_compute. reflexivity.
  - vm_compute. discriminate.
  - vm_compute. reflexivity.
  - vm_compute. reflexivity.
  - vm_compute. reflexivity.
  - exists w2. split; [exact Hrun | ].
    split.
    { apply (proj1 (Hflip (id_of 1 4) (coin 1 4 Coin.Outgoing None (Some 7))
                          ltac:(vm_compute; reflexivity) ltac:(vm_compute; reflexivity))).
      reflexivity. }
    split.
    { apply (proj2 (Hflip (id_of 11 5) (coin 11 5 Coin.Incoming (Some 7) None)
                          ltac:(vm_compute; reflexivity) ltac:(vm_compute; reflexivity))).
      reflexivity. }
    split.
    { rewrite Hcoins. vm_compute. reflexivity. }
    split; [exact Hstatus | ]. rewrite Hevents. vm_compute. reflexivity.
Defined.

(** C1 as the specification words it fails: the bag holds
    [KernelProofHeight = 60] but [TransactionRegistered] is [false]; the
    update fails the transaction with [FailedToRegister], the spent coins go
    back to [Available], the coin the transaction created is removed. *)
Lemma kernel_proof_without_registration :
  let w := proof_arrived false 40 in
  let w' := (run_Update w).2 in
  param TxParameterID.KernelProofHeight w = Some (VInt 60) /\
  coins w !! id_of 1 4 = Some (coin 1 4 Coin.Outgoing None (Some 7)) /\
  coins w !! id_of 11 5 = Some (coin 11 5 Coin.Incoming (Some 7) None) /\
  coins w' !! id_of 1 4 = Some (coin 1 4 Coin.Available None None) /\
  coins w' !! id_of 11 5 = None /\
  status_of w' = Some TxStatus.Failed /\
  events w' = [log_failed 7 TxFailureReason.FailedToRegister; on_tx_completed 7].
Proof. vm_compute. repeat split. Qed.

Lemma select_inputs_spec_witness :
  (exists b' w',
     @SelectInputs toy_crypto toy_settings (TxBuilder_new [10] 1)
                   (sender_start (Some 40)) = (Val b', w') /\
     m_Change b' = 5 /\
     param TxParameterID.Change w' = Some (VInt 5) /\
     exists c', coins w' !! id_of 3 7 = Some c' /\ Coin.m_spentTxId c' = Some 7) /\
  (exists w',
     run_Update sender_poor = (Val tt, w') /\
     status_of w' = Some TxStatus.Failed /\
     In (log_failed 7 TxFailureReason.NoInputs) (events w') /\
     coins w' = coins sender_poor).
Proof.
  split.
  - destruct (proj2 (proj1 (@select_inputs_spec toy_crypto toy_settings)
                       (TxBuilder_new [10] 1) (sender_start (Some 40))))
      as (b' & w' & Hrun & Hsaved & Hparam & _ & Hchange).
    { vm_compute. discriminate. }
    exists b', w'. split; [exact Hrun | ].
    destruct (Hchange eq_refl) as [_ Hexact].
    assert (Hfive : m_Change b' = 5).
    { rewrite Hexact; [vm_compute; reflexivity | ].
      vm_compute. split; [discriminate | reflexivity]. }
    split; [exact Hfive | ]. split; [rewrite Hparam, Hfive; reflexivity | ].
    destruct (Hsaved (coin 3 7 Coin.Outgoing None None)) as (c' & Hlook & Hspent & _).
    { vm_compute. apply list_elem_of_In. simpl. auto. }
    exists c'. split; [exact Hlook | exact Hspent].
  - destruct (proj2 (@select_inputs_spec toy_crypto toy_settings)
                sender_poor (with_IsInitiator (Some true) sender_poor) [10] 1 200 true)
      as (w' & Hrun & Hstatus & Hlog & _ & Hsame).
    + vm_compute. reflexivity.
    + vm_compute. reflexivity.
    + vm_compute. reflexivity.
    + vm_compute. reflexivity.
    + right. split; [vm_compute; reflexivity | ]. exists 10. split; [vm_compute | ]; reflexivity.
    + vm_compute. reflexivity.
    + left. vm_compute. reflexivity.
    + vm_compute. reflexivity.
    + vm_compute. reflexivity.
    + exists w'. split; [exact Hrun | ]. split; [exact Hstatus | ]. split; [exact Hlog | ].
      apply Hsame. intros id c Hc.
      assert (Hall : forallb (fun kv => negb (is_own_input 7 kv.2) && negb (is_own_output 7 kv.2))
                             (map_to_list (coins sender_poor)) = true)
        by (vm_compute; reflexivity).
      rewrite forallb_forall in Hall.
      apply elem_of_map_to_list, list_elem_of_In, Hall in Hc. simpl in Hc.
      apply andb_true_iff in Hc. destruct Hc as [Hi Ho].
      apply negb_true_iff in Hi, Ho. change (m_ID sender_poor) with 7. auto.
Defined.

Lemma expired_when_check_reached_witness :
  exists w2,
    run_Update (sender_start (Some 51)) = (Val tt, w2) /\
    events w2 = events invited ++ [log_failed 7 TxFailureReason.TransactionExpired;
                                   on_tx_completed 7] /\
    status_of w2 = Some TxStatus.Failed /\
    coins w2 = rollback_coins 7 (coins invited).
Proof.
  apply (@expired_when_check_reached toy_settings run_UpdateImpl
           (sender_start (Some 51)) invited TxStatus.InProgress 51).
  - vm_compute. reflexivity.
  - vm_compute. reflexivity.
  - vm_compute. reflexivity.
  - discriminate.
  - vm_compute. reflexivity.
  - vm_compute. reflexivity.
Defined.

(** C3 as the specification words it fails, twice. The registered
    transaction whose kernel proof is in the bag is not [Completed] when
    [Update()] starts and the tip, 61, is above [MaxHeight], 50: the update
    completes it and no failure is raised.  The transaction in progress for
    which the peer reported a failure, the tip at 51: it fails with the
    peer's reason, and the expiry is not looked at. *)
Lemma update_above_max_height_without_expiry :
  (let w := proof_arrived true 61 in
   let w' := (run_Update w).2 in
   status_of w = Some TxStatus.Registered /\
   tip w = Some 61 /\
   param TxParameterID.MaxHeight w = Some (VInt 50) /\
   status_of w' = Some TxStatus.Completed /\
   events w' = [on_tx_completed 7]) /\
  (let w := peer_failed in
   let w' := (run_Update w).2 in
   status_of w = Some TxStatus.InProgress /\
   tip w = Some 51 /\
   param TxParameterID.MaxHeight w = Some (VInt 50) /\
   events w' = [log_failed 7 TxFailureReason.InvalidPeerSignature; on_tx_completed 7]).
Proof. vm_compute. repeat split. Qed.

Lemma external_failure_fails_locally_witness :
  exists w',
    run_Update peer_failed = (Val tt, w') /\
    status_of w' = Some TxStatus.Failed /\
    coins w' = rollback_coins 7 (coins peer_failed) /\
    events w' = [log_failed 7 TxFailureReason.InvalidPeerSignature; on_tx_completed 7] /\
    List.filter is_send (new_events peer_failed (run_Update peer_failed)) = [].
Proof.
  apply (@external_failure_fails_locally toy_settings run_UpdateImpl peer_failed
           TxFailureReason.InvalidPeerSignature).
  - vm_compute. reflexivity.
  - vm_compute. reflexivity.
Defined.

Lemma other_exceptions_only_logged_witness :
  run_Update initiator_unknown = (Val tt, (run_UpdateImpl initiator_unknown).2) /\
  param TxParameterID.KernelID (run_Update initiator_unknown).2 = Some (VHash 11) /\
  events (run_Update initiator_unknown).2 = [] /\
  run_Update sender_poor =
    OnFailed TxFailureReason.NoInputs false (with_IsInitiator (Some true) sender_poor).
Proof.
  assert (Hlogged : run_Update initiator_unknown =
                    (Val tt, (run_UpdateImpl initiator_unknown).2)).
  { apply (proj1 (@other_exceptions_only_logged toy_settings run_UpdateImpl
                    initiator_unknown (run_UpdateImpl initiator_unknown).2
                    ltac:(vm_compute; reflexivity)) std_exception).
    - discriminate.
    - vm_compute. reflexivity. }
  split; [exact Hlogged | ]. rewrite Hlogged. split; [vm_compute; reflexivity | ].
  split; [vm_compute; reflexivity | ].
  apply (proj2 (@other_exceptions_only_logged toy_settings run_UpdateImpl
                  sender_poor (with_IsInitiator (Some true) sender_poor)
                  ltac:(vm_compute; reflexivity))).
  vm_compute. reflexivity.
Defined.

Lemma failure_notice_only_when_open_witness :
  List.filter is_send
    (new_events (proof_arrived true 61)
       (OnFailed TxFailureReason.InvalidTransaction true (proof_arrived true 61))) = [] /\
  is_open (status_of peer_failed).
Proof.
  split.
  - apply (proj2 (failure_notice_only_when_open TxFailureReason.InvalidTransaction true
                    (proof_arrived true 61) _ ltac:(right; left; reflexivity))).
    intros [Hopen | Hopen]; vm_compute in Hopen; discriminate.
  - apply (proj1 (failure_notice_only_when_open TxFailureReason.Cancelled true peer_failed
                    (Cancel peer_failed) ltac:(right; right; left; reflexivity))).
    vm_compute. discriminate.
Defined.

Lemma cancel_pending_only_deletes_witness :
  exists w',
    Cancel (sender_start (Some 40)) = (Val tt, w') /\
    (forall paramID, param paramID w' = None) /\
    (forall txID paramID, txID <> m_ID (sender_start (Some 40)) ->
       tx_params w' !! (txID, paramID) =
       tx_params (sender_start (Some 40)) !! (txID, paramID)) /\
    coins w' = coins (sender_start (Some 40)) /\
    events w' = events (sender_start (Some 40)).
Proof.
  apply (cancel_pending_only_deletes (sender_start (Some 40))).
  vm_compute. reflexivity.
Defined.

Lemma check_expired_does_nothing_witness :
  CheckExpired (sender_start (Some 50)) = (Val tt, sender_start (Some 50)).
Proof.
  apply (check_expired_does_nothing (sender_start (Some 50)) TxStatus.Pending).
  - vm_compute. reflexivity.
  - right. right. exists 50. split; [reflexivity | ].
    apply Z.leb_le. vm_compute. reflexivity.
Defined.

Lemma external_failure_waits_for_in_progress_witness :
  CheckExternalFailures peer_failed_early = (Val false, peer_failed_early).
Proof.
  apply (external_failure_waits_for_in_progress peer_failed_early
           TxFailureReason.InvalidPeerSignature TxStatus.Pending).
  - vm_compute. reflexivity.
  - vm_compute. reflexivity.
  - discriminate.
Defined.

Lemma is_initiator_is_read_once_witness :
  m_IsInitiator (with_IsInitiator (Some true) (sender_start None)) = Some true /\
  forall w2,
    m_IsInitiator w2 = m_IsInitiator (with_IsInitiator (Some true) (sender_start None)) ->
    IsInitiator w2 = (Val true, w2).
Proof.
  apply (is_initiator_is_read_once (with_IsInitiator (Some true) (sender_start None))
           (with_IsInitiator (Some true) (sender_start None)) true).
  reflexivity.
Defined.

Lemma kernel_proof_awaited_witness :
  exists w' sent,
    UpdateImpl_confirm State.Registration (TxBuilder_new [10] 1) (sender_start None)
      = (Return, w') /\
    coins w' = coins (sender_start None) /\
    status_of w' = Some TxStatus.Registered /\
    param TxParameterID.State w' = Some (VState State.KernelConfirmation) /\
    events w' = events (sender_start None) ++ sent ++
                [confirm_kernel (m_ID (sender_start None)) (GetKernel (TxBuilder_new [10] 1))] /\
    (sent = [] \/
     State.Registration = State.Registration /\
     param TxParameterID.PeerProtoVersion (sender_start None) ≫= as_int = None /\
     exists from peer,
       sent = [send_tx_params peer
                 (mkSetTxParameter from (m_ID (sender_start None))
                    [(TxParameterID.TransactionRegistered, VBool true)])]).
Proof.
  apply (kernel_proof_awaited State.Registration (TxBuilder_new [10] 1) (sender_start None)).
  vm_compute. reflexivity.
Defined.




End WalletProperties.

(* ===================================================================== *)
(** * Properties of the wallet model of the UI *)
(* ===================================================================== *)

Module WalletModelProperties.

Import Wallet.
Import WalletModel.

(** ** Expiry of an address *)

Lemma timestamp_minus_one : wrap64 (-1) = two64 - 1.
Proof. reflexivity. Qed.

(** An address with duration 0 is never expired.  Any other address is
    expired from the first second after its creation time plus its
    duration, taken in 64-bit arithmetic: when that sum passes 2^64 it
    wraps round, and the address counts as expired long before its time. *)
Theorem address_expiry (a : Address.t) (now : Timestamp) :
  0 <= now < two64 ->
  (Address.m_duration a = 0 -> Address.isExpired now a = false) /\
  (Address.m_duration a <> 0 ->
   Address.isExpired now a = true <->
   (Address.m_createTime a + Address.m_duration a) mod two64 < now) /\
  (Address.m_duration a <> 0 ->
   0 <= Address.m_createTime a + Address.m_duration a < two64 ->
   Address.isExpired now a = true <->
   Address.m_createTime a + Address.m_duration a < now).
Proof.
  intros Hnow. unfold Address.isExpired, Address.getExpirationTime.
  split; [ | split].
  - intros ->. simpl. rewrite timestamp_minus_one. apply Z.ltb_ge. lia.
  - intros Hd. apply Z.eqb_neq in Hd. rewrite Hd. apply Z.ltb_lt.
  - intros Hd Hfit. apply Z.eqb_neq in Hd. rewrite Hd.
    unfold add64, wrap64. rewrite Z.mod_small by exact Hfit. apply Z.ltb_lt.
Qed.

Lemma address_expiry_witness :
  Address.isExpired 86401 Address.new = true <-> 0 + 24 * 60 * 60 < 86401.
Proof.
  apply (proj2 (proj2 (address_expiry Address.new 86401 ltac:(unfold two64; lia)))).
  - discriminate.
  - simpl. unfold two64. lia.
Defined.

Section SlotProperties.

Context {settings : Settings}.
Variable createAddress : Model -> option Address.t.

Lemma new_effects_perform (m : Model) (es : list Effect) (m' : Model) :
  effects m' = effects m ++ es -> new_effects m m' = es.
Proof. intros He. unfold new_effects. rewrite He. apply drop_app_length. Qed.

(** ** [saveAddressChanges] *)

(** What [saveAddressChanges] does to an own address, at the time [now] of
    the call.  The label is always set.  With [makeExpired] the address is
    expired from now on, except when it was created exactly one second ago
    (the [assert] excludes that): its duration then comes out as 0, and it
    never expires.  Else with [isNever]
    it never expires.  Else, if its duration was 0 or with [makeActive], it
    is created anew now with 24 hours to live.  Otherwise its creation time
    and duration stay.  An address that is not one's own, or that the store
    does not have, is not changed. *)
Theorem save_address_changes_outcome (id : WalletID) (name : string)
    (isNever makeActive makeExpired : bool) (m : Model) :
  let m' := saveAddressChanges id name isNever makeActive makeExpired m in
  let now := clock m in
  (forall a, book m !! id = Some a -> Address.m_OwnID a <> 0 ->
     Address.m_walletID a = id ->
     0 <= Address.m_createTime a < two64 -> 0 <= now < two64 ->
     exists a',
       book m' !! id = Some a' /\
       Address.m_label a' = name /\
       Address.m_OwnID a' = Address.m_OwnID a /\
       (makeExpired = true -> Address.m_createTime a + 1 <> now -> 1 <= now ->
          forall t, now <= t < two64 -> Address.isExpired t a' = true) /\
       (makeExpired = true -> Address.m_createTime a + 1 = now ->
          forall t, 0 <= t < two64 -> Address.isExpired t a' = false) /\
       (makeExpired = false -> isNever = true ->
          forall t, 0 <= t < two64 -> Address.isExpired t a' = false) /\
       (makeExpired = false -> isNever = false ->
        Address.m_duration a = 0 \/ makeActive = true ->
          Address.m_createTime a' = now /\ Address.m_duration a' = 24 * 60 * 60) /\
       (makeExpired = false -> isNever = false ->
        Address.m_duration a <> 0 -> makeActive = false ->
          Address.m_createTime a' = Address.m_createTime a /\
          Address.m_duration a' = Address.m_duration a)) /\
  (book m !! id = None \/ (exists a, book m !! id = Some a /\ Address.m_OwnID a = 0) ->
   m' = m).
Proof.
  intros m' now. subst m'. unfold saveAddressChanges, db_getAddress. split.
  - intros a Ha Hown Hid Hcreate Hnow. rewrite Ha.
    apply Z.eqb_neq in Hown. rewrite Hown. simpl negb. cbv iota.
    set (a' := if makeExpired then _ else _).
    assert (Hid' : Address.m_walletID a' = id).
    { subst a'. repeat match goal with |- context [if ?b then _ else _] => destruct b end; exact Hid. }
    exists a'. split.
    { unfold db_saveAddress. destruct (network_alive _); simpl;
        rewrite Hid'; apply lookup_insert_eq. }
    split; [subst a'; repeat match goal with |- context [if ?b then _ else _] => destruct b end;
            reflexivity | ].
    split; [subst a'; repeat match goal with |- context [if ?b then _ else _] => destruct b end;
            reflexivity | ].
    split; [ | split; [ | split; [ | split]]].
    + intros -> Hold Hpos t Ht. subst a'. cbv iota.
      unfold Address.isExpired, Address.getExpirationTime. simpl. fold now.
      set (x := now - Address.m_createTime a - 1).
      assert (Hdur : sub64 (sub64 now (Address.m_createTime a)) 1 = wrap64 x).
      { unfold sub64, wrap64. apply Zminus_mod_idemp_l. }
      assert (Hnz : wrap64 x <> 0).
      { unfold wrap64. destruct (Z_lt_le_dec x 0) as [Hneg | Hnn].
        - rewrite <- (Z_mod_plus_full x 1 two64). rewrite Z.mod_small; lia.
        - rewrite Z.mod_small; lia. }
      rewrite Hdur. apply Z.eqb_neq in Hnz. rewrite Hnz. apply Z.ltb_lt.
      unfold add64, wrap64. rewrite Zplus_mod_idemp_r.
      replace (Address.m_createTime a + x) with (now - 1) by (unfold x; lia).
      rewrite Z.mod_small by lia. lia.
    + intros -> Hold t Ht. subst a'. cbv iota.
      unfold Address.isExpired, Address.getExpirationTime. simpl.
      assert (Hdur : sub64 (sub64 now (Address.m_createTime a)) 1 = 0).
      { unfold sub64, wrap64. rewrite Zminus_mod_idemp_l.
        replace (now - Address.m_createTime a - 1) with 0 by lia. reflexivity. }
      fold now. rewrite Hdur. simpl. rewrite timestamp_minus_one. apply Z.ltb_ge. lia.
    + intros -> -> t Ht. subst a'. cbv iota.
      unfold Address.isExpired, Address.getExpirationTime. simpl.
      rewrite timestamp_minus_one. apply Z.ltb_ge. lia.
    + intros -> -> Hcase. subst a'. cbv iota. simpl Address.m_duration.
      assert (Hb : (Address.m_duration a =? 0) || makeActive = true).
      { destruct Hcase as [-> | ->]; [reflexivity | apply orb_true_r]. }
      rewrite Hb. split; reflexivity.
    + intros -> -> Hd ->. subst a'. cbv iota. simpl Address.m_duration.
      apply Z.eqb_neq in Hd. rewrite Hd.
      split; reflexivity.
  - intros [-> | (a & -> & ->)]; reflexivity.
Qed.

(** ** [sendMoney] *)

Lemma peer_address_expiry (receiver : WalletID) (comment : string) (m : Model)
    (t : Timestamp) :
  0 <= clock m -> clock m + 24 * 60 * 60 < t < two64 ->
  Address.isExpired t (peer_address receiver comment m) = true.
Proof.
  intros H0 Ht. unfold Address.isExpired, Address.getExpirationTime, peer_address. simpl.
  apply Z.ltb_lt. unfold add64, wrap64. rewrite Z.mod_small by lia. lia.
Qed.

Lemma saveAddress_book (a : Address.t) (bOwn : bool) (m : Model) :
  book (saveAddress a bOwn m) = <[Address.m_walletID a := a]> (book m).
Proof. unfold saveAddress. destruct (bOwn && _); reflexivity. Qed.

Lemma saveAddress_alive (a : Address.t) (bOwn : bool) (m : Model) :
  wallet_alive (saveAddress a bOwn m) = wallet_alive m /\
  network_alive (saveAddress a bOwn m) = network_alive m /\
  clock (saveAddress a bOwn m) = clock m.
Proof. unfold saveAddress. destruct (bOwn && _); auto. Qed.

(** [sendMoney] and the expiry of the receiver's address.  To an address
    the store has and that is expired, nothing is sent: the one effect is
    the signal [cantSendToExpired].  A receiver the store does not have is
    written down as created now, with the 24 hours of a new address; so
    when the address has not been edited since, a [sendMoney] to the same
    receiver more than 24 hours later is turned down. *)
Theorem send_money_and_expiry (receiver : WalletID) (comment : string)
    (amount fee : Amount) (m : Model) :
  (forall a, book m !! receiver = Some a -> Address.isExpired (clock m) a = true ->
     sendMoney createAddress receiver comment amount fee m = perform cantSendToExpired m) /\
  (book m !! receiver = None ->
   forall sender,
     createAddress (saveAddress (peer_address receiver comment m) false m) = Some sender ->
     Address.m_walletID sender <> receiver ->
     let m1 := sendMoney createAddress receiver comment amount fee m in
     book m1 !! receiver = Some (peer_address receiver comment m) /\
     forall m2 comment' amount' fee',
       book m2 !! receiver = book m1 !! receiver ->
       0 <= clock m -> clock m + 24 * 60 * 60 < clock m2 < two64 ->
       sendMoney createAddress receiver comment' amount' fee' m2 =
         perform cantSendToExpired m2).
Proof.
  split.
  - intros a Ha Hexp. unfold sendMoney, db_getAddress. rewrite Ha, Hexp. reflexivity.
  - intros Hnone sender Hcreate Hne m1.
    assert (Hbook : book m1 !! receiver = Some (peer_address receiver comment m)).
    { subst m1. unfold sendMoney, db_getAddress. rewrite Hnone. cbv iota zeta.
      rewrite Hcreate.
      assert (Hb : forall e m0, book (perform e m0) = book m0) by reflexivity.
      rewrite Hb. destruct (wallet_alive _); rewrite ?Hb, !saveAddress_book; simpl;
        (rewrite lookup_insert_ne by exact Hne); apply lookup_insert_eq. }
    split; [exact Hbook | ].
    intros m2 comment' amount' fee' Hsame H0 Hlate.
    unfold sendMoney, db_getAddress. rewrite Hsame, Hbook.
    rewrite (peer_address_expiry receiver comment m (clock m2) H0 Hlate). reflexivity.
Qed.

(** What a [sendMoney] that goes through does, for a receiver the store
    has and whose address is not expired: the new sender address is saved
    under the comment and given to the network, the wallet is asked for
    the transfer from it, with a lifetime of 120 and the comment as the
    message, and [sendMoneyVerified] is signalled.  When [createAddress]
    throws, nothing is done and nothing is signalled. *)
Theorem send_money_goes_through (receiver : WalletID) (comment : string)
    (amount fee : Amount) (m : Model) (a : Address.t) :
  book m !! receiver = Some a ->
  Address.isExpired (clock m) a = false ->
  (forall sender, createAddress m = Some sender ->
     wallet_alive m = true -> network_alive m = true ->
     let sender' := Address.with_label comment sender in
     let m' := sendMoney createAddress receiver comment amount fee m in
     book m' = <[Address.m_walletID sender := sender']> (book m) /\
     new_effects m m' =
       [AddOwnAddress sender';
        transfer_money (Address.m_walletID sender) receiver amount fee true 120 comment;
        sendMoneyVerified]) /\
  (createAddress m = None -> sendMoney createAddress receiver comment amount fee m = m).
Proof.
  intros Ha Hexp. unfold sendMoney, db_getAddress. rewrite Ha, Hexp. cbv iota zeta. split.
  - intros sender -> Hw Hn. unfold saveAddress. simpl andb. simpl network_alive.
    rewrite Hn. simpl wallet_alive. rewrite Hw. split; [reflexivity | ].
    apply new_effects_perform. simpl. rewrite <- !app_assoc. reflexivity.
  - intros ->. reflexivity.
Qed.

(** ** [calcChange] *)

Lemma sum_loop (cs : list Coin.t) (t : Z) :
  foldl (fun sum c => add64 sum (m_Value (Coin.m_ID c))) (wrap64 t) cs =
  wrap64 (t + sum_values cs).
Proof.
  revert t. induction cs as [|c cs IH]; intros t; simpl.
  - unfold sum_values. simpl. rewrite Z.add_0_r. reflexivity.
  - unfold add64 at 2. rewrite WalletProperties.wrap64_add_l, IH. unfold sum_values. simpl.
    rewrite Z.add_assoc. reflexivity.
Qed.

Lemma calcChange_run (amount : Amount) (m : Model) :
  0 <= amount ->
  let total := wrap64 (sum_values (select_policy (stored_coins m) amount)) in
  exists change,
    calcChange amount m = perform (onChangeCalculated change) m /\
    0 <= change < two64 /\
    (total < amount -> change = 0) /\
    (amount <= total -> change = total - amount).
Proof.
  intros Hpos total. unfold calcChange, db_selectCoins_unlocked. cbv zeta.
  assert (Hsum : foldl (fun sum c => add64 sum (m_Value (Coin.m_ID c))) 0
                   (select_policy (stored_coins m) amount) = total).
  { change 0 with (wrap64 0) at 1. rewrite sum_loop. reflexivity. }
  rewrite Hsum.
  assert (Hrange : 0 <= total < two64).
  { apply Z.mod_pos_bound. unfold two64. lia. }
  destruct (Z.ltb_spec total amount) as [Hlt | Hge].
  - exists 0. split; [reflexivity | ]. unfold two64. split; [lia | ]. split; [auto | lia].
  - exists (sub64 total amount).
    assert (Hsub : sub64 total amount = total - amount).
    { unfold sub64, wrap64. apply Z.mod_small. lia. }
    split; [reflexivity | ]. rewrite Hsub. split; [lia | ]. split; [lia | auto].
Qed.

(** [calcChange] signals once, and the change it gives never wraps: it is
    the total of the coins the store would choose, taken modulo 2^64,
    minus the amount when that total reaches the amount, and 0 when it
    does not. *)
Theorem calc_change_never_wraps (amount : Amount) (m : Model) :
  0 <= amount ->
  let total := wrap64 (sum_values (select_policy (stored_coins m) amount)) in
  exists change,
    calcChange amount m = perform (onChangeCalculated change) m /\
    0 <= change < two64 /\
    (total < amount -> change = 0) /\
    (amount <= total -> change = total - amount).
Proof. exact (calcChange_run amount m). Qed.

(** ** [saveAddress] and [deleteAddress] *)

(** An address saved under an id the store did not have, and then deleted,
    leaves the address book as it was.  With the network there, the network
    is given the address when it is saved as an own one, and is then told
    to drop its own id when that id is not 0; with the network gone it
    hears nothing. *)
Theorem save_then_delete_address (a : Address.t) (bOwn : bool) (m : Model) :
  book m !! Address.m_walletID a = None ->
  let m' := deleteAddress (Address.m_walletID a) (saveAddress a bOwn m) in
  book m' = book m /\
  new_effects m m' =
    (if bOwn && network_alive m then [AddOwnAddress a] else []) ++
    (if negb (Address.m_OwnID a =? 0) && network_alive m
     then [DeleteOwnAddress (Address.m_OwnID a)] else []).
Proof.
  intros Hnew m'. subst m'. unfold deleteAddress, db_getAddress.
  rewrite saveAddress_book, lookup_insert_eq.
  destruct (saveAddress_alive a bOwn m) as (_ & Hn & _). rewrite Hn.
  unfold saveAddress. simpl network_alive.
  destruct (bOwn && network_alive m), (negb (Address.m_OwnID a =? 0) && network_alive m);
    simpl; (split; [apply delete_insert_id, Hnew | ]);
    apply new_effects_perform; simpl; rewrite <- ?app_assoc, ?app_nil_r; reflexivity.
Qed.

(** What [calcChange] shows is what [SelectInputs] records.  Over the same
    coins, for a builder fresh from its constructor, when the store's
    selection for the amount and the fee is not empty and its total reaches
    them, the change [SelectInputs] writes to the bag is the change
    [calcChange] signals for that sum. *)
Theorem calc_change_agrees_with_select_inputs {crypto : Crypto} (b : TxBuilder)
    (w : World) (m : Model) :
  stored_coins m = coins w ->
  m_Change b = 0 ->
  let amountWithFee := add64 (GetAmount b) (m_Fee b) in
  let chosen := select_policy (coins w) amountWithFee in
  chosen <> [] ->
  amountWithFee <= wrap64 (sum_values chosen) ->
  exists b' w',
    SelectInputs b w = (Val b', w') /\
    param TxParameterID.Change w' = Some (VInt (m_Change b')) /\
    new_effects m (calcChange amountWithFee m) = [onChangeCalculated (m_Change b')].
Proof.
  intros Hcoins Hzero amountWithFee chosen Hne Hreach.
  destruct (proj2 (WalletProperties.SelectInputs_cases b w) Hne)
    as (b' & w' & Hrun & _ & Hparam & Hchange & _).
  fold amountWithFee in Hchange. fold chosen in Hchange.
  exists b', w'. split; [exact Hrun | ]. split; [exact Hparam | ].
  assert (Hawf : 0 <= amountWithFee < two64).
  { apply Z.mod_pos_bound. unfold two64. lia. }
  destruct (calcChange_run amountWithFee m (proj1 Hawf))
    as (change & Hcalc & _ & _ & Hexact).
  rewrite Hcoins in Hexact. fold chosen in Hexact.
  rewrite Hcalc. rewrite (new_effects_perform m [onChangeCalculated change]) by reflexivity.
  rewrite (Hexact Hreach), Hchange, Hzero.
  assert (Htotal : 0 <= wrap64 (sum_values chosen) < two64).
  { apply Z.mod_pos_bound. unfold two64. lia. }
  unfold add64, sub64, wrap64 in *. rewrite Z.add_0_l, Z.mod_mod by (unfold two64; lia).
  rewrite (Z.mod_small (_ - _)) by lia. reflexivity.
Qed.

End SlotProperties.

(** ** The connection to the node *)

Lemma on_node_event_state (ev : NodeEvent) (m : Model) :
  _walletError (on_node_event ev m) = last_error [ev] (_walletError m) /\
  _isConnected (on_node_event ev m) = connected_after [ev] (_isConnected m).
Proof. destruct ev as [b | [t | c | ]]; simpl; auto. Qed.

Lemma on_node_events_state (es : list NodeEvent) (m : Model) :
  _walletError (on_node_events es m) = last_error es (_walletError m) /\
  _isConnected (on_node_events es m) = connected_after es (_isConnected m).
Proof.
  revert m. induction es as [|ev es IH]; intros m; [auto | ].
  unfold on_node_events, last_error, connected_after in *. simpl foldl.
  destruct (IH (on_node_event ev m)) as [He Hc]. rewrite He, Hc.
  destruct (on_node_event_state ev m) as [He1 Hc1]. rewrite He1, Hc1. auto.
Qed.

Lemma last_error_kept (es : list NodeEvent) (e0 : option ErrorType) :
  Forall (fun ev => match ev with
                    | OnConnectionFailed reason => error_of reason = None
                    | OnNodeConnected _ => True
                    end) es ->
  last_error es e0 = e0.
Proof.
  intros Hes. revert e0. induction Hes as [|ev es Hev _ IH]; intros e0; [reflexivity | ].
  unfold last_error in *. simpl. rewrite IH.
  destruct ev as [b | reason]; [reflexivity | rewrite Hev; reflexivity].
Qed.

(** The error of a lost connection is never cleared.  After a connection
    lost with a reason that is recorded (a processing exception or an io
    error), whatever follows of reconnections and of losses for reasons
    that are not recorded, [getNetworkStatus] signals that same error
    whenever the model holds the node for disconnected, and the connection
    state only when it holds it for connected. *)
Theorem network_error_is_never_cleared (reason : DisconnectReason) (e : ErrorType)
    (es : list NodeEvent) (m : Model) :
  error_of reason = Some e ->
  Forall (fun ev => match ev with
                    | OnConnectionFailed reason' => error_of reason' = None
                    | OnNodeConnected _ => True
                    end) es ->
  let m' := on_node_events (OnConnectionFailed reason :: es) m in
  _walletError m' = Some e /\
  new_effects m' (getNetworkStatus m') =
    [if connected_after es false then nodeConnectionChanged true else onWalletError e].
Proof.
  intros He Hes m'.
  destruct (on_node_events_state (OnConnectionFailed reason :: es) m) as [Herr Hconn].
  fold m' in Herr, Hconn.
  assert (Herr' : _walletError m' = Some e).
  { rewrite Herr. unfold last_error. simpl. rewrite He. apply (last_error_kept es), Hes. }
  assert (Hconn' : _isConnected m' = connected_after es false).
  { rewrite Hconn. reflexivity. }
  split; [exact Herr' | ].
  unfold getNetworkStatus. rewrite Herr', Hconn'.
  destruct (connected_after es false); simpl; unfold new_effects; simpl;
    apply drop_app_length.
Qed.

Lemma network_error_is_never_cleared_witness :
  let m := mkModel ∅ ∅ 1000 true true false None [] in
  let m' := on_node_events
              [OnConnectionFailed (Io EC_ETIMEDOUT); OnNodeConnected true;
               OnConnectionFailed OtherReason] m in
  _walletError m' = Some ConnectionTimedOut /\
  new_effects m' (getNetworkStatus m') = [onWalletError ConnectionTimedOut].
Proof.
  apply (network_error_is_never_cleared (Io EC_ETIMEDOUT) ConnectionTimedOut
           [OnNodeConnected true; OnConnectionFailed OtherReason]
           (mkModel ∅ ∅ 1000 true true false None [])).
  - reflexivity.
  - repeat constructor.
Defined.

(** ** Concrete runs *)

#[local] Existing Instance toy_crypto.
#[local] Existing Instance toy_settings.

Lemma send_money_goes_through_witness :
  book (sendMoney new_sender 200 "rent" 10 1 shop_known) =
    <[300 := Address.with_label "rent" sender_300]> (book shop_known) /\
  new_effects shop_known (sendMoney new_sender 200 "rent" 10 1 shop_known) =
    [AddOwnAddress (Address.with_label "rent" sender_300);
     transfer_money 300 200 10 1 true 120 "rent";
     sendMoneyVerified].
Proof.
  apply (proj1 (send_money_goes_through new_sender 200 "rent" 10 1 shop_known
                  (Address.mk 200 "shop" "" 500 0 0) eq_refl eq_refl)
               sender_300 eq_refl eq_refl eq_refl).
Defined.

Lemma calc_change_never_wraps_witness :
  exists change,
    calcChange 11 shop_known = perform (onChangeCalculated change) shop_known /\
    0 <= change < two64 /\
    (wrap64 (sum_values (select_policy (stored_coins shop_known) 11)) < 11 -> change = 0) /\
    (11 <= wrap64 (sum_values (select_policy (stored_coins shop_known) 11)) ->
     change = wrap64 (sum_values (select_policy (stored_coins shop_known) 11)) - 11).
Proof.
  apply (calc_change_never_wraps 11 shop_known). lia.
Defined.

Lemma calc_change_agrees_with_select_inputs_witness :
  exists b' w',
    SelectInputs (TxBuilder_new [10] 1) (sender_start None) = (Val b', w') /\
    param TxParameterID.Change w' = Some (VInt (m_Change b')) /\
    new_effects shop_known (calcChange (add64 (GetAmount (TxBuilder_new [10] 1)) 1) shop_known)
      = [onChangeCalculated (m_Change b')].
Proof.
  apply (calc_change_agrees_with_select_inputs (TxBuilder_new [10] 1) (sender_start None)
           shop_known).
  - reflexivity.
  - reflexivity.
  - vm_compute. discriminate.
  - apply Z.leb_le. vm_compute. reflexivity.
Defined.

Lemma save_then_delete_address_witness :
  book (deleteAddress 300 (saveAddress sender_300 true shop_known)) = book shop_known /\
  new_effects shop_known (deleteAddress 300 (saveAddress sender_300 true shop_known)) =
    [AddOwnAddress sender_300; DeleteOwnAddress 5].
Proof.
  apply (save_then_delete_address sender_300 true shop_known). reflexivity.
Defined.

End WalletModelProperties.
